(** * checksum-action: a shallow embedding of [main.go]

    The program walks a directory tree, skips the entries whose
    root-relative path starts with one of the ignore patterns, hashes every
    remaining non-directory entry with SHA-1 and writes the list of
    (path, checksum) pairs as indented JSON.

    Go strings are byte sequences and are modelled by [string]; a [[]byte]
    is a [list byte].  A Go function returning [(T, error)] returns a pair
    whose second component is [None] for a [nil] error.  The operating
    system is a record of functions indexed by path strings, so the
    embedded code calls it exactly where the source does.

    The packages of the Go library that the program calls ([strings],
    [path/filepath] on Unix, [crypto/sha1], [encoding/hex],
    [encoding/json], [os] and the walk of [io/fs]) are modelled after
    their documented behaviour, each in a module of its name; the
    functions of [main.go] follow and keep their names. *)

From Stdlib Require Import Strings.String Strings.Ascii Strings.Byte List ZArith Lia Bool Arith.
From Stdlib Require Import Sorting.Sorted Sorting.Permutation.

Set Warnings "-register-all".
Import ListNotations.

Local Open Scope string_scope.
Local Open Scope list_scope.

(* ================================================================== *)
(** ** Go values: slices and errors *)

(** A Go slice is either [nil] or backed by an array; [append] to a nil
    slice allocates.  The difference is observable through
    [encoding/json], which writes a nil slice as [null]. *)
Inductive slice (A : Type) : Type :=
| Nil : slice A
| Slice (elems : list A) : slice A.
Arguments Nil {A}.
Arguments Slice {A} elems.

Definition elements {A} (s : slice A) : list A :=
  match s with
  | Nil => []
  | Slice l => l
  end.

Definition append {A} (s : slice A) (x : A) : slice A :=
  Slice (elements s ++ [x]).

(** Error numbers an operating-system call can fail with. *)
Inductive Errno : Type :=
| ENOENT | EACCES | EISDIR | ENOTDIR | EIO | ELOOP | ENOSPC.

(** Go [error] values that occur in the program.  [SkipDir] and [SkipAll]
    are the sentinels of [io/fs]; [PathError] and [SyscallError] are what
    the [os] calls return; [ErrorString] is [errors.New]; [WrapError msg err] is
    [fmt.Errorf] with a [%w] verb, [msg] being the text formatted before
    the wrapped error.  [NilDeref] stands for the run-time panic of calling
    a method on a nil [fs.DirEntry]. *)
Inductive error : Type :=
| SkipDir
| SkipAll
| PathError (op path : string) (errno : Errno)
| SyscallError (syscall : string) (errno : Errno)
| ErrorString (s : string)
| WrapError (msg : string) (err : error)
| NilDeref.

Definition is_SkipDir (e : error) : bool :=
  match e with SkipDir => true | _ => false end.

Definition is_SkipAll (e : error) : bool :=
  match e with SkipAll => true | _ => false end.

Definition Errno_Error (e : Errno) : string :=
  match e with
  | ENOENT => "no such file or directory"
  | EACCES => "permission denied"
  | EISDIR => "is a directory"
  | ENOTDIR => "not a directory"
  | EIO => "input/output error"
  | ELOOP => "too many levels of symbolic links"
  | ENOSPC => "no space left on device"
  end.

(** The [Error()] method. *)
Fixpoint error_Error (e : error) : string :=
  match e with
  | SkipDir => "skip this directory"
  | SkipAll => "skip everything and stop the walk"
  | PathError op path errno => op ++ " " ++ path ++ ": " ++ Errno_Error errno
  | SyscallError syscall errno => syscall ++ ": " ++ Errno_Error errno
  | ErrorString s => s
  | WrapError msg err => msg ++ error_Error err
  | NilDeref => "runtime error: invalid memory address or nil pointer dereference"
  end.

(* ================================================================== *)
(** ** Package [strings] *)

Module strings.

(** [strings.HasPrefix s prefix]. *)
Definition HasPrefix (s pre : string) : bool := String.prefix pre s.

(** [strings.Split s sep] for a one-byte separator: the pieces between
    the occurrences of [sep], one more than there are occurrences. *)
Fixpoint Split (s : string) (sep : ascii) : list string :=
  match s with
  | EmptyString => [EmptyString]
  | String c s' =>
      if Ascii.eqb c sep then EmptyString :: Split s' sep
      else match Split s' sep with
           | [] => [String c EmptyString]
           | piece :: rest => String c piece :: rest
           end
  end.

(** [strings.Join elems sep]. *)
Definition Join (elems : list string) (sep : string) : string :=
  String.concat sep elems.

End strings.

(* ================================================================== *)
(** ** Package [path/filepath] (Unix) *)

Module filepath.

Definition Separator : ascii := "/"%char.

Definition IsAbs (path : string) : bool := strings.HasPrefix path "/".

(** The elements [Clean] keeps, scanned left to right with the kept
    elements as a stack (most recent first): empty and [.] elements are
    dropped, [..] removes the previous element when there is one that
    is not itself [..], is dropped at the root and kept otherwise. *)
Fixpoint cleanElems (rooted : bool) (elems : list string) (stack : list string)
  : list string :=
  match elems with
  | [] => rev stack
  | e :: rest =>
      if (e =? "") || (e =? ".") then cleanElems rooted rest stack
      else if e =? ".." then
        match stack with
        | top :: below =>
            if top =? ".." then cleanElems rooted rest (e :: stack)
            else cleanElems rooted rest below
        | [] =>
            if rooted then cleanElems rooted rest []
            else cleanElems rooted rest [e]
        end
      else cleanElems rooted rest (e :: stack)
  end.

(** A cleaned path as data: whether it is rooted, and its elements. *)
Definition parts (path : string) : bool * list string :=
  let rooted := IsAbs path in
  (rooted, cleanElems rooted (strings.Split path Separator) []).

Definition unparts (p : bool * list string) : string :=
  match p with
  | (true, elems) => "/" ++ strings.Join elems "/"
  | (false, []) => "."
  | (false, elems) => strings.Join elems "/"
  end.

(** [filepath.Clean]: the shortest path equivalent to [path] by purely
    lexical processing. *)
Definition Clean (path : string) : string := unparts (parts path).

(** [filepath.Join]: empty elements are ignored, the rest is joined
    with the separator and cleaned; all empty gives the empty string. *)
Fixpoint Join (elem : list string) : string :=
  match elem with
  | [] => ""
  | e :: rest =>
      if e =? "" then Join rest
      else Clean (strings.Join elem "/")
  end.

(** [filepath.Abs], given the result of [os.Getwd]. *)
Definition Abs (getwd : string * option error) (path : string)
  : string * option error :=
  if IsAbs path then (Clean path, None)
  else match getwd with
       | (_, Some err) => ("", Some err)
       | (wd, None) => (Join [wd; path], None)
       end.

(** The elements two cleaned paths share at the front are dropped. *)
Fixpoint dropCommon (base targ : list string) : list string * list string :=
  match base, targ with
  | b :: base', t :: targ' =>
      if b =? t then dropCommon base' targ' else (base, targ)
  | _, _ => (base, targ)
  end.

(** [filepath.Rel basepath targpath]: both paths are cleaned; equal
    paths give [.]; a rooted and an unrooted path cannot be related, nor
    can a base of which a [..] element remains once the elements shared
    with the target are dropped, whether or not anything remains of the
    target; otherwise one [..] per remaining base element is followed by
    the remaining target elements. *)
Definition Rel (basepath targpath : string) : string * option error :=
  let cant :=
    ("", Some (ErrorString
            ("Rel: can't make " ++ targpath ++ " relative to " ++ basepath))) in
  let '(brooted, base) := parts basepath in
  let '(trooted, targ) := parts targpath in
  if Clean targpath =? Clean basepath then (".", None)
  else if negb (Bool.eqb brooted trooted) then cant
  else
    let '(base', targ') := dropCommon base targ in
    let differsAtDotDot :=
      match base' with
      | b :: _ => b =? ".."
      | [] => false
      end in
    if differsAtDotDot then cant
    else (strings.Join (map (fun _ => "..") base' ++ targ') "/", None).

End filepath.

(* ================================================================== *)
(** ** Package [crypto/sha1] *)

Module sha1.

Local Open Scope Z_scope.

Definition Size : nat := 20.
Definition BlockSize : nat := 64.

(** [uint32] arithmetic wraps around. *)
Definition u32 (x : Z) : Z := x mod 2 ^ 32.

Definition add32 (x y : Z) : Z := u32 (x + y).

Definition not32 (x : Z) : Z := 2 ^ 32 - 1 - x.

(** [bits.RotateLeft32]. *)
Definition RotateLeft32 (x : Z) (k : Z) : Z :=
  u32 (Z.lor (Z.shiftl x k) (Z.shiftr x (32 - k))).

Definition byteZ (b : byte) : Z := Z.of_N (Byte.to_N b).

Definition Zbyte (z : Z) : byte :=
  match Byte.of_N (Z.to_N (z mod 256)) with
  | Some b => b
  | None => x00
  end.

(** Big-endian conversions. *)
Definition be32 (b0 b1 b2 b3 : byte) : Z :=
  Z.lor (Z.lor (Z.shiftl (byteZ b0) 24) (Z.shiftl (byteZ b1) 16))
        (Z.lor (Z.shiftl (byteZ b2) 8) (byteZ b3)).

Definition putUint32 (x : Z) : list byte :=
  [Zbyte (Z.shiftr x 24); Zbyte (Z.shiftr x 16); Zbyte (Z.shiftr x 8); Zbyte x].

Definition putUint64 (x : Z) : list byte :=
  putUint32 (Z.shiftr x 32) ++ putUint32 x.

(** The message is followed by the byte 0x80, by zero bytes up to 56
    modulo 64, and by its length in bits as a 64-bit big-endian number. *)
Definition padding (len : nat) : list byte :=
  let zeros := (64 - (Z.of_nat len + 9) mod 64) mod 64 in
  x80 :: repeat x00 (Z.to_nat zeros)
      ++ putUint64 ((Z.of_nat len * 8) mod 2 ^ 64).

(** The words of a block, at most [n] of them. *)
Fixpoint words (n : nat) (p : list byte) : list Z :=
  match n, p with
  | S n', b0 :: b1 :: b2 :: b3 :: rest => be32 b0 b1 b2 b3 :: words n' rest
  | _, _ => []
  end.

(** The message schedule, most recent word first: word [t] is the
    rotation by one of the exclusive or of the words [t-3], [t-8], [t-14]
    and [t-16]. *)
Fixpoint schedule (n : nat) (rev_w : list Z) : list Z :=
  match n with
  | O => rev_w
  | S n' =>
      let tmp := Z.lxor (Z.lxor (nth 2 rev_w 0) (nth 7 rev_w 0))
                        (Z.lxor (nth 13 rev_w 0) (nth 15 rev_w 0)) in
      schedule n' (RotateLeft32 tmp 1 :: rev_w)
  end.

Definition _K0 : Z := 0x5A827999.
Definition _K1 : Z := 0x6ED9EBA1.
Definition _K2 : Z := 0x8F1BBCDC.
Definition _K3 : Z := 0xCA62C1D6.

Record digest : Type := mkDigest { h0 : Z; h1 : Z; h2 : Z; h3 : Z; h4 : Z }.

Definition init : digest :=
  mkDigest 0x67452301 0xEFCDAB89 0x98BADCFE 0x10325476 0xC3D2E1F0.

(** One of the eighty rounds; [i] selects the function and constant. *)
Definition round (i : nat) (w : Z) (s : digest) : digest :=
  let '(mkDigest a b c d e) := s in
  let '(f, k) :=
    if (i <? 20)%nat then (Z.lor (Z.land b c) (Z.land (not32 b) d), _K0)
    else if (i <? 40)%nat then (Z.lxor (Z.lxor b c) d, _K1)
    else if (i <? 60)%nat then
      (Z.lor (Z.lor (Z.land b c) (Z.land b d)) (Z.land c d), _K2)
    else (Z.lxor (Z.lxor b c) d, _K3) in
  let t := add32 (add32 (add32 (add32 (RotateLeft32 a 5) f) e) w) k in
  mkDigest t a (RotateLeft32 b 30) c d.

Fixpoint rounds (i : nat) (ws : list Z) (s : digest) : digest :=
  match ws with
  | [] => s
  | w :: ws' => rounds (S i) ws' (round i w s)
  end.

(** One 64-byte block. *)
Definition block (dig : digest) (p : list byte) : digest :=
  let w := rev (schedule 64 (rev (words 16 p))) in
  let s := rounds 0 w dig in
  mkDigest (add32 (h0 dig) (h0 s)) (add32 (h1 dig) (h1 s))
           (add32 (h2 dig) (h2 s)) (add32 (h3 dig) (h3 s))
           (add32 (h4 dig) (h4 s)).

(** All the blocks of [p], whose length is a multiple of 64; [n] bounds
    the number of blocks. *)
Fixpoint blocks (n : nat) (dig : digest) (p : list byte) : digest :=
  match n, p with
  | S n', _ :: _ => blocks n' (block dig (firstn 64 p)) (skipn 64 p)
  | _, _ => dig
  end.

(** [sha1.Sum]: the 20-byte digest of [data]. *)
Definition Sum (data : list byte) : list byte :=
  let p := (data ++ padding (List.length data))%list in
  let d := blocks (S (List.length p / 64)) init p in
  (putUint32 (h0 d) ++ putUint32 (h1 d) ++ putUint32 (h2 d)
     ++ putUint32 (h3 d) ++ putUint32 (h4 d))%list.

End sha1.

(* ================================================================== *)
(** ** Package [encoding/hex] *)

Module hex.

Definition hextable : string := "0123456789abcdef".

Definition digit (n : N) : ascii :=
  match String.get (N.to_nat n) hextable with
  | Some c => c
  | None => "0"%char
  end.

(** [hex.EncodeToString]: two digits per byte, high nibble first. *)
Fixpoint EncodeToString (src : list byte) : string :=
  match src with
  | [] => ""
  | v :: rest =>
      String (digit (N.shiftr (Byte.to_N v) 4))
        (String (digit (N.land (Byte.to_N v) 15)) (EncodeToString rest))
  end.

(** The characters of a lowercase hexadecimal numeral. *)
Definition is_lower_hex (c : ascii) : bool :=
  let n := N_of_ascii c in
  ((48 <=? n) && (n <=? 57) || (97 <=? n) && (n <=? 102))%N.

Fixpoint all_lower_hex (s : string) : bool :=
  match s with
  | EmptyString => true
  | String c s' => is_lower_hex c && all_lower_hex s'
  end.

End hex.

(* ================================================================== *)
(** ** Package [encoding/json] *)

Module json.

Local Open Scope string_scope.

(** The JSON documents the program can write: [null], strings, arrays
    and objects with their members in order. *)
Inductive Value : Type :=
| Null
| Str (s : string)
| Array (elems : list Value)
| Object (members : list (string * Value)).

Definition code (c : ascii) : N := N_of_ascii c.

Definition between (lo hi : N) (c : ascii) : bool :=
  ((lo <=? code c) && (code c <=? hi))%N.

Definition cont (c : ascii) : bool := between 128 191 c.

(** The first two bytes of a well-formed encoding of two, three and
    four bytes. *)
Definition lead2 (b : ascii) : bool := between 194 223 b.

Definition lead3 (b c1 : ascii) : bool :=
  between 224 224 b && between 160 191 c1
  || between 225 236 b && cont c1
  || between 237 237 b && between 128 159 c1
  || between 238 239 b && cont c1.

Definition lead4 (b c1 : ascii) : bool :=
  between 240 240 b && between 144 191 c1
  || between 241 243 b && cont c1
  || between 244 244 b && between 128 143 c1.

(** [utf8.DecodeRuneInString] on the byte [b] followed by [rest]: the
    size of the well-formed encoding that starts there (2, 3 or 4), or 0
    when there is none ([RuneError] with size 1). *)
Definition runeSize (b : ascii) (rest : string) : nat :=
  match rest with
  | String c1 rest1 =>
      if lead2 b then (if cont c1 then 2 else 0)
      else
        match rest1 with
        | String c2 rest2 =>
            if lead3 b c1 then (if cont c2 then 3 else 0)
            else
              match rest2 with
              | String c3 _ =>
                  if lead4 b c1 then (if cont c2 && cont c3 then 4 else 0)
                  else 0
              | EmptyString => 0
              end
        | EmptyString => 0
        end
  | EmptyString => 0
  end%nat.

Definition hexdigit (n : N) : ascii := hex.digit n.

(** What [appendString] writes for a byte below [utf8.RuneSelf], HTML
    escaping being on. *)
Definition escapeByte (b : ascii) : string :=
  let n := code b in
  if (n =? 92)%N || (n =? 34)%N then String "\" (String b "")
  else if (n =? 8)%N then "\b"
  else if (n =? 12)%N then "\f"
  else if (n =? 10)%N then "\n"
  else if (n =? 13)%N then "\r"
  else if (n =? 9)%N then "\t"
  else if (n <? 32)%N || (n =? 60)%N || (n =? 62)%N || (n =? 38)%N then
    "\u00" ++ String (hexdigit (N.shiftr n 4)) (String (hexdigit (N.land n 15)) "")
  else String b "".

(** The six characters that escape U+FFFD. *)
Definition escapedReplacement : string := String "\" "ufffd".

(** The body of [appendString]: the bytes written between the quotes.
    Ill-formed UTF-8 is replaced by an escaped U+FFFD, and U+2028 and
    U+2029 are escaped. *)
Fixpoint appendBody (src : string) : string :=
  match src with
  | EmptyString => ""
  | String b rest =>
      if (code b <? 128)%N then escapeByte b ++ appendBody rest
      else
        match runeSize b rest, rest with
        | 2%nat, String c1 rest1 =>
            String b (String c1 (appendBody rest1))
        | 3%nat, String c1 (String c2 rest2) =>
            if (code b =? 226)%N && (code c1 =? 128)%N
               && ((code c2 =? 168)%N || (code c2 =? 169)%N)
            then "\u202" ++ String (hexdigit (N.land (code c2) 15)) (appendBody rest2)
            else String b (String c1 (String c2 (appendBody rest2)))
        | 4%nat, String c1 (String c2 (String c3 rest3)) =>
            String b (String c1 (String c2 (String c3 (appendBody rest3))))
        | _, _ => escapedReplacement ++ appendBody rest
        end
  end.

Definition dquote : ascii := "034"%char.

Definition appendString (src : string) : string :=
  String dquote (appendBody src ++ String dquote "").

(** A line break followed by [depth] copies of the two-space indent. *)
Definition newline (depth : nat) : string :=
  String "010" (String.concat "" (repeat "  " depth)).

(** The indented text of a value whose first line starts at [depth]
    levels of indentation: what [Marshal] followed by [Indent] with an
    empty prefix and a two-space indent writes.  The elements of an
    array and the members of an object are each on a line of their own,
    one level deeper, with a comma between them. *)
Fixpoint encode (depth : nat) (v : Value) : string :=
  match v with
  | Null => "null"
  | Str s => appendString s
  | Array [] => "[]"
  | Array elems =>
      "[" ++ newline (S depth)
          ++ String.concat ("," ++ newline (S depth)) (map (encode (S depth)) elems)
          ++ newline depth ++ "]"
  | Object [] => "{}"
  | Object members =>
      "{" ++ newline (S depth)
          ++ String.concat ("," ++ newline (S depth))
               (map (fun m => appendString (fst m) ++ ": " ++ encode (S depth) (snd m))
                    members)
          ++ newline depth ++ "}"
  end.

(** *** Decoding *)

Inductive token : Type :=
| TLBracket | TRBracket | TLBrace | TRBrace | TComma | TColon | TNull
| TString (s : string).

Definition isSpace (c : ascii) : bool :=
  let n := code c in ((n =? 32) || (n =? 9) || (n =? 13) || (n =? 10))%N.

Definition hexval (c : ascii) : option N :=
  let n := code c in
  if between 48 57 c then Some (n - 48)%N
  else if between 97 102 c then Some (n - 87)%N
  else if between 65 70 c then Some (n - 55)%N
  else None.

Definition byteOf (n : N) : ascii := ascii_of_N (n mod 256).

(** [utf8.AppendRune] for a code point of the basic plane; a surrogate
    is written as U+FFFD. *)
Definition encodeRune (cp : N) : string :=
  (if cp <? 128 then String (byteOf cp) ""
   else if cp <? 2048 then
     String (byteOf (192 + N.shiftr cp 6)) (String (byteOf (128 + N.land cp 63)) "")
   else
     let cp := if (55296 <=? cp) && (cp <=? 57343) then 65533 else cp in
     String (byteOf (224 + N.shiftr cp 12))
       (String (byteOf (128 + N.land (N.shiftr cp 6) 63))
          (String (byteOf (128 + N.land cp 63)) "")))%N.

Definition unescape (c : ascii) : option ascii :=
  let n := code c in
  (if (n =? 34) || (n =? 92) || (n =? 47) then Some c
   else if n =? 98 then Some (ascii_of_N 8)
   else if n =? 102 then Some (ascii_of_N 12)
   else if n =? 110 then Some (ascii_of_N 10)
   else if n =? 114 then Some (ascii_of_N 13)
   else if n =? 116 then Some (ascii_of_N 9)
   else None)%N.

Definition prepend (pre : string) (r : option (string * string))
  : option (string * string) :=
  match r with
  | Some (s, rest) => Some (pre ++ s, rest)
  | None => None
  end.

(** The rest of a string literal after its opening quote: its decoded
    bytes and the text after the closing quote. *)
Fixpoint scanString (text : string) : option (string * string) :=
  match text with
  | EmptyString => None
  | String c rest =>
      if (code c =? 34)%N then Some ("", rest)
      else if (code c =? 92)%N then
        match rest with
        | String e rest1 =>
            if (code e =? 117)%N then
              match rest1 with
              | String a (String b (String c' (String d rest2))) =>
                  match hexval a, hexval b, hexval c', hexval d with
                  | Some x3, Some x2, Some x1, Some x0 =>
                      prepend (encodeRune (x3 * 4096 + x2 * 256 + x1 * 16 + x0)%N)
                              (scanString rest2)
                  | _, _, _, _ => None
                  end
              | _ => None
              end
            else
              match unescape e with
              | Some ch => prepend (String ch "") (scanString rest1)
              | None => None
              end
        | EmptyString => None
        end
      else if (code c <? 32)%N then None
      else prepend (String c "") (scanString rest)
  end.

Definition append_token (t : token) (r : option (list token)) : option (list token) :=
  match r with
  | Some ts => Some (t :: ts)
  | None => None
  end.

(** The tokens of a text; [fuel] bounds the number of steps, and the
    length of the text plus one is enough. *)
Fixpoint lex (fuel : nat) (text : string) : option (list token) :=
  match fuel with
  | O => None
  | S fuel' =>
      match text with
      | EmptyString => Some []
      | String c rest =>
          if isSpace c then lex fuel' rest
          else if (code c =? 91)%N then append_token TLBracket (lex fuel' rest)
          else if (code c =? 93)%N then append_token TRBracket (lex fuel' rest)
          else if (code c =? 123)%N then append_token TLBrace (lex fuel' rest)
          else if (code c =? 125)%N then append_token TRBrace (lex fuel' rest)
          else if (code c =? 44)%N then append_token TComma (lex fuel' rest)
          else if (code c =? 58)%N then append_token TColon (lex fuel' rest)
          else if (code c =? 34)%N then
            match scanString rest with
            | Some (s, rest') => append_token (TString s) (lex fuel' rest')
            | None => None
            end
          else
            match text with
            | String "n" (String "u" (String "l" (String "l" rest'))) =>
                append_token TNull (lex fuel' rest')
            | _ => None
            end
      end
  end.

(** A value at the front of a token list, and the tokens after it. *)
Fixpoint parseValue (fuel : nat) (ts : list token) : option (Value * list token) :=
  match fuel with
  | O => None
  | S fuel' =>
      match ts with
      | TNull :: r => Some (Null, r)
      | TString s :: r => Some (Str s, r)
      | TLBracket :: TRBracket :: r => Some (Array [], r)
      | TLBracket :: r =>
          match parseElems fuel' r with
          | Some (es, r') => Some (Array es, r')
          | None => None
          end
      | TLBrace :: TRBrace :: r => Some (Object [], r)
      | TLBrace :: r =>
          match parseMembers fuel' r with
          | Some (ms, r') => Some (Object ms, r')
          | None => None
          end
      | _ => None
      end
  end

with parseElems (fuel : nat) (ts : list token) : option (list Value * list token) :=
  match fuel with
  | O => None
  | S fuel' =>
      match parseValue fuel' ts with
      | Some (v, TComma :: r) =>
          match parseElems fuel' r with
          | Some (vs, r') => Some (v :: vs, r')
          | None => None
          end
      | Some (v, TRBracket :: r) => Some ([v], r)
      | _ => None
      end
  end

with parseMembers (fuel : nat) (ts : list token)
  : option (list (string * Value) * list token) :=
  match fuel with
  | O => None
  | S fuel' =>
      match ts with
      | TString k :: TColon :: r =>
          match parseValue fuel' r with
          | Some (v, TComma :: r') =>
              match parseMembers fuel' r' with
              | Some (ms, r'') => Some ((k, v) :: ms, r'')
              | None => None
              end
          | Some (v, TRBrace :: r') => Some ([(k, v)], r')
          | _ => None
          end
      | _ => None
      end
  end.

(** Decoding a text into a document: the whole text must be one value. *)
Definition decode (text : string) : option Value :=
  match lex (S (String.length text)) text with
  | Some ts =>
      match parseValue (S (List.length ts)) ts with
      | Some (v, []) => Some v
      | _ => None
      end
  | None => None
  end.

End json.

(* ================================================================== *)
(** ** Package [os] *)

(** [fs.DirEntry], as far as the program looks at it. *)
Record DirEntry : Type := mkDirEntry { Name : string; IsDir : bool }.

(** How reading a file fails: it cannot be opened, or it is opened and
    a read fails, with the bytes read before.  A directory, and a link
    to one, open and fail in the read. *)
Inductive ReadFault : Type :=
| OpenFailed (e : Errno)
| ReadFailed (e : Errno) (sofar : list byte).

(** How reading the entries of an open directory fails: the reading
    itself, or the examination of an entry of which the listing does not
    tell the type.  (An entry that has vanished is passed over and ends
    nothing.) *)
Inductive DirentFault : Type :=
| ReaddirentFailed (e : Errno)
| EntryLstatFailed (name : string) (e : Errno).

(** How listing a directory fails: it cannot be opened, or it is opened
    and reading its entries fails. *)
Inductive ListFault : Type :=
| OpenDirFailed (e : Errno)
| ListingFailed (f : DirentFault).

(** How writing a file fails: it cannot be created or truncated; or it
    is, and a write fails; or closing it fails.  In the last two cases
    the file is left with what reached it. *)
Inductive WriteFault : Type :=
| CreateFailed (e : Errno)
| WriteFailed (e : Errno) (partial : string)
| CloseFailed (e : Errno) (partial : string).

(** The operating system as the program sees it: what each call answers
    for each path.  [sys_opendir] opens a directory for listing, and
    [sys_readdirent] gives the entries of an open directory in the order
    the kernel happens to return, with the failure that ended the
    reading if any. *)
Record System : Type := mkSystem {
  sys_getwd : string + Errno;
  sys_lstat : string -> DirEntry + Errno;
  sys_opendir : string -> option Errno;
  sys_readdirent : string -> list DirEntry * option DirentFault;
  sys_readfile : string -> list byte + ReadFault;
  sys_writefile : string -> string -> option WriteFault
}.

(** What listing a directory gives: nothing when it does not open, and
    otherwise the entries read, in the order of the kernel, with the
    failure that ended the reading if any. *)
Definition sys_readdir (sys : System) (name : string)
  : list DirEntry * option ListFault :=
  match sys_opendir sys name with
  | Some e => ([], Some (OpenDirFailed e))
  | None =>
      let '(dirs, fault) := sys_readdirent sys name in
      (dirs, match fault with
             | Some f => Some (ListingFailed f)
             | None => None
             end)
  end.

(** The [*PathError] of each failure, for the file or directory
    [name]. *)
Definition ReadFault_error (name : string) (f : ReadFault) : error :=
  match f with
  | OpenFailed e => PathError "open" name e
  | ReadFailed e _ => PathError "read" name e
  end.

Definition ListFault_error (name : string) (f : ListFault) : error :=
  match f with
  | OpenDirFailed e => PathError "open" name e
  | ListingFailed (ReaddirentFailed e) => PathError "readdirent" name e
  | ListingFailed (EntryLstatFailed child e) =>
      PathError "lstat" (name ++ "/" ++ child) e
  end.

Definition WriteFault_error (name : string) (f : WriteFault) : error :=
  match f with
  | CreateFailed e => PathError "open" name e
  | WriteFailed e _ => PathError "write" name e
  | CloseFailed e _ => PathError "close" name e
  end.

Module os.

Definition Getwd (sys : System) : string * option error :=
  match sys_getwd sys with
  | inl wd => (wd, None)
  | inr e => ("", Some (SyscallError "getwd" e))
  end.

Definition Lstat (sys : System) (name : string) : option DirEntry * option error :=
  match sys_lstat sys name with
  | inl info => (Some info, None)
  | inr e => (None, Some (PathError "lstat" name e))
  end.

Fixpoint insert (d : DirEntry) (sorted : list DirEntry) : list DirEntry :=
  match sorted with
  | [] => [d]
  | d' :: rest =>
      if String.leb (Name d) (Name d') then d :: sorted
      else d' :: insert d rest
  end.

(** The entries sorted by file name, bytewise. *)
Fixpoint sortByName (dirs : list DirEntry) : list DirEntry :=
  match dirs with
  | [] => []
  | d :: rest => insert d (sortByName rest)
  end.

(** [os.ReadDir]: the directory is opened and its entries are read;
    the entries read are returned sorted by file name, with the error
    that stopped the reading if there was one.  A directory that does
    not open gives no entry and the error of the open. *)
Definition ReadDir (sys : System) (name : string) : list DirEntry * option error :=
  let '(dirs, fault) := sys_readdir sys name in
  (sortByName dirs,
   match fault with
   | Some f => Some (ListFault_error name f)
   | None => None
   end).

(** [os.ReadFile]: the file is opened and read to its end; a failure of
    the open gives no data, a failure of a read gives the data read
    before it. *)
Definition ReadFile (sys : System) (name : string) : list byte * option error :=
  match sys_readfile sys name with
  | inl data => (data, None)
  | inr (OpenFailed e) => ([], Some (ReadFault_error name (OpenFailed e)))
  | inr (ReadFailed e sofar) =>
      (sofar, Some (ReadFault_error name (ReadFailed e sofar)))
  end.

(** [os.WriteFile]: the file is created or truncated, written and
    closed.  Besides the error, what the file holds afterwards when the
    call has created or truncated it: the data, or what reached it
    before the failure. *)
Definition WriteFile (sys : System) (name : string) (data : string)
  : option string * option error :=
  match sys_writefile sys name data with
  | None => (Some data, None)
  | Some (CreateFailed e) => (None, Some (WriteFault_error name (CreateFailed e)))
  | Some (WriteFailed e partial) =>
      (Some partial, Some (WriteFault_error name (WriteFailed e partial)))
  | Some (CloseFailed e partial) =>
      (Some partial, Some (WriteFault_error name (CloseFailed e partial)))
  end.

End os.

(* ================================================================== *)
(** ** [filepath.WalkDir] *)

(** [fs.WalkDirFunc], the state the closure captures being passed in and
    out. *)
Definition WalkDirFunc (St : Type) : Type :=
  St -> string -> option DirEntry -> option error -> St * option error.

(** An error returned for a directory: [SkipDir] means the directory was
    skipped successfully. *)
Definition afterSkip (d : DirEntry) (err : error) : option error :=
  if is_SkipDir err && IsDir d then None else Some err.

(** The loop of [walkDir] over the entries of a directory, [walk] being
    the walk of one entry: an error ends the loop, and [SkipDir] ends it
    without an error.  [None] means the walk of an entry ran out of
    fuel. *)
Fixpoint walkEntries {A St : Type} (walk : A -> St -> option (St * option error))
  (dirs : list A) (st : St) : option (St * option error) :=
  match dirs with
  | [] => Some (st, None)
  | d1 :: dirs' =>
      match walk d1 st with
      | None => None
      | Some (st', Some err) =>
          if is_SkipDir err then Some (st', None) else Some (st', Some err)
      | Some (st', None) => walkEntries walk dirs' st'
      end
  end.

Section WalkDir.

Context {St : Type}.
Variable sys : System.
Variable walkDirFn : WalkDirFunc St.

(** [walkDir] of [path/filepath]: the function is called for the
    entry; a directory is then read, a failure of the read is reported
    by a second call, and the entries are walked in the order [ReadDir]
    gave them.  The recursion is on [fuel], which bounds the depth;
    [None] means it ran out. *)
Fixpoint walkDir (fuel : nat) (path : string) (d : DirEntry) (st : St)
  : option (St * option error) :=
  match fuel with
  | O => None
  | S fuel' =>
      let entries :=
        walkEntries (fun d1 => walkDir fuel' (filepath.Join [path; Name d1]) d1) in
      match walkDirFn st path (Some d) None with
      | (st1, Some err) => Some (st1, afterSkip d err)
      | (st1, None) =>
          if negb (IsDir d) then Some (st1, None)
          else
            let '(dirs, rerr) := os.ReadDir sys path in
            match rerr with
            | Some err =>
                match walkDirFn st1 path (Some d) (Some err) with
                | (st2, Some err2) => Some (st2, afterSkip d err2)
                | (st2, None) => entries dirs st2
                end
            | None => entries dirs st1
            end
      end
  end.

(** [filepath.WalkDir]. *)
Definition WalkDir (fuel : nat) (root : string) (st : St)
  : option (St * option error) :=
  let finish (r : St * option error) : St * option error :=
    match r with
    | (st', Some err) =>
        if is_SkipDir err || is_SkipAll err then (st', None) else (st', Some err)
    | (st', None) => (st', None)
    end in
  match os.Lstat sys root with
  | (_, Some err) => Some (finish (walkDirFn st root None (Some err)))
  | (Some info, None) =>
      match walkDir fuel root info st with
      | Some r => Some (finish r)
      | None => None
      end
  | (None, None) => Some (st, Some NilDeref)
  end.

End WalkDir.

(* ================================================================== *)
(** ** [main.go] *)

Record FileChecksum : Type := mkFileChecksum { Path : string; Checksum : string }.

Definition generateSHA1Checksum (sys : System) (filePath : string)
  : string * option error :=
  match os.ReadFile sys filePath with
  | (_, Some err) => ("", Some err)
  | (data, None) =>
      let hash := sha1.Sum data in
      (hex.EncodeToString hash, None)
  end.

Definition isIgnored (path : string) (ignorePatterns : list string) (rootDir : string)
  : bool * option error :=
  match filepath.Rel rootDir path with
  | (_, Some err) => (false, Some err)
  | (relativePath, None) =>
      let loop :=
        fix loop (patterns : list string) : bool * option error :=
          match patterns with
          | [] => (false, None)
          | pattern :: rest =>
              if strings.HasPrefix relativePath pattern then (true, None)
              else loop rest
          end in
      loop ignorePatterns
  end.

(** The function literal passed to [filepath.WalkDir]; the captured
    variable [checksums] is its state. *)
Definition calculateChecksums_func1 (sys : System) (rootDir : string)
  (ignorePatterns : list string) : WalkDirFunc (slice FileChecksum) :=
  fun checksums path d err =>
    match err with
    | Some err => (checksums, Some err)
    | None =>
        match isIgnored path ignorePatterns rootDir with
        | (_, Some err) => (checksums, Some err)
        | (ignored, None) =>
            match d with
            | None => (checksums, Some NilDeref)
            | Some d =>
                if ignored then
                  if IsDir d then (checksums, Some SkipDir)
                  else (checksums, None)
                else if IsDir d then (checksums, None)
                else
                  match generateSHA1Checksum sys path with
                  | (_, Some err) =>
                      (checksums,
                       Some (WrapError
                               ("failed to calculate checksum for " ++ path ++ ": ")
                               err))
                  | (checksum, None) =>
                      match filepath.Rel rootDir path with
                      | (_, Some err) => (checksums, Some err)
                      | (relativePath, None) =>
                          (append checksums (mkFileChecksum relativePath checksum),
                           None)
                      end
                  end
            end
        end
    end.

Definition calculateChecksums (fuel : nat) (sys : System) (rootDir : string)
  (ignorePatterns : list string) : option (slice FileChecksum * option error) :=
  match WalkDir sys (calculateChecksums_func1 sys rootDir ignorePatterns)
                fuel rootDir Nil with
  | None => None
  | Some (_, Some err) =>
      Some (Nil, Some (WrapError "error walking the directory: " err))
  | Some (checksums, None) => Some (checksums, None)
  end.

(** The JSON document of a manifest, by the struct tags of
    [FileChecksum]. *)
Definition FileChecksum_json (c : FileChecksum) : json.Value :=
  json.Object [("path", json.Str (Path c)); ("checksum", json.Str (Checksum c))].

Definition checksums_json (checksums : slice FileChecksum) : json.Value :=
  match checksums with
  | Nil => json.Null
  | Slice l => json.Array (map FileChecksum_json l)
  end.

(** [json.MarshalIndent checksums "" "  "]; encoding this type cannot
    fail. *)
Definition MarshalIndent (checksums : slice FileChecksum) : string * option error :=
  (json.encode 0 (checksums_json checksums), None).

(** What a run leaves behind: the lines printed, the file written, and
    the file a write that failed has left, with what it holds. *)
Record Outcome : Type := mkOutcome {
  printed : list string;
  written : option (string * string);
  leftover : option (string * string)
}.

(** The file at [name], when there is one, with its content. *)
Definition fileNamed (name : string) (content : option string)
  : option (string * string) :=
  match content with
  | Some data => Some (name, data)
  | None => None
  end.

(** Besides the error, the file the call has created or truncated, with
    what it holds afterwards. *)
Definition saveToFile (sys : System) (checksums : slice FileChecksum)
  (outputFile : string) : option (string * string) * option error :=
  match MarshalIndent checksums with
  | (_, Some err) =>
      (None, Some (WrapError "failed to marshal checksums to JSON: " err))
  | (outputData, None) =>
      match os.WriteFile sys outputFile outputData with
      | (partial, Some err) =>
          (fileNamed outputFile partial,
           Some (WrapError "failed to write checksums to file: " err))
      | (held, None) => (fileNamed outputFile held, None)
      end
  end.

(** The command line after [flag.Parse]: each flag as given, if it was. *)
Record Flags : Type := mkFlags {
  flag_dir : option string;
  flag_output : option string;
  flag_ignore : option string
}.

(** [flag.String]: the value given, or the default. *)
Definition flag_String (given : option string) (value : string) : string :=
  match given with
  | Some v => v
  | None => value
  end.

Definition Println (what : string) (err : error) : string :=
  what ++ " " ++ error_Error err.

Definition main (fuel : nat) (sys : System) (args : Flags) : option Outcome :=
  let rootDir := flag_String (flag_dir args) "." in
  let outputFile := flag_String (flag_output args) "checksums.json" in
  let ignorePaths := flag_String (flag_ignore args) "" in
  let ignorePatterns :=
    if negb (ignorePaths =? "") then strings.Split ignorePaths ","%char
    else [] in
  match filepath.Abs (os.Getwd sys) rootDir with
  | (_, Some err) =>
      Some (mkOutcome [Println "Error generating project dir:" err] None None)
  | (projectDir, None) =>
      match calculateChecksums fuel sys projectDir ignorePatterns with
      | None => None
      | Some (_, Some err) =>
          Some (mkOutcome [Println "Error calculating checksums:" err] None None)
      | Some (checksums, None) =>
          let checksumsFilePath := filepath.Join [projectDir; outputFile] in
          match saveToFile sys checksums checksumsFilePath with
          | (partial, Some err) =>
              Some (mkOutcome [Println "Error saving checksums:" err] None partial)
          | (w, None) => Some (mkOutcome [] w None)
          end
      end
  end.

(* ================================================================== *)
(** ** Directory trees *)

(** A directory tree as the [os] calls present it: a non-directory entry
    with what reading it gives, or a directory with its entries in the
    order [os.ReadDir] returns them and the failure of the listing, if
    any.  Symbolic links and special files are non-directory entries, as
    they are for [d.IsDir()]; a link to a directory is one that opens
    and cannot be read. *)
Inductive node : Type :=
| File (content : list byte + ReadFault)
| Dir (entries : list (string * node)) (err : option ListFault).

Definition isDir (n : node) : bool :=
  match n with
  | File _ => false
  | Dir _ _ => true
  end.

Definition entryOf (e : string * node) : DirEntry :=
  mkDirEntry (fst e) (isDir (snd e)).

Definition readError (path : string) (err : option ListFault) : option error :=
  match err with
  | Some f => Some (ListFault_error path f)
  | None => None
  end.

(** The system shows the tree [n] at [path]: reading a file there gives
    its content, reading a directory gives its entries, and each entry
    is shown at the path [WalkDir] forms for it. *)
Fixpoint represents (sys : System) (path : string) (n : node) : Prop :=
  match n with
  | File content => sys_readfile sys path = content
  | Dir entries err =>
      os.ReadDir sys path = (map entryOf entries, readError path err)
      /\ (fix all (l : list (string * node)) : Prop :=
            match l with
            | [] => True
            | e :: l' =>
                represents sys (filepath.Join [path; fst e]) (snd e) /\ all l'
            end) entries
  end.

(** The system shows [n] as the root of a walk. *)
Definition mounted (sys : System) (root : string) (n : node) : Prop :=
  (exists info, sys_lstat sys root = inl info /\ IsDir info = isDir n)
  /\ represents sys root n.

Fixpoint depth (n : node) : nat :=
  match n with
  | File _ => 0
  | Dir entries _ =>
      S ((fix deepest (l : list (string * node)) : nat :=
            match l with
            | [] => 0
            | e :: l' => Nat.max (depth (snd e)) (deepest l')
            end) entries)
  end.

Section TreeWalk.

Context {St : Type}.
Variable walkDirFn : WalkDirFunc St.

(** The walk as a function of the tree: [walkDir] with the directory
    listings taken from the tree. *)
Fixpoint treeWalk (path : string) (d : DirEntry) (n : node) (st : St)
  : option (St * option error) :=
  match walkDirFn st path (Some d) None with
  | (st1, Some err) => Some (st1, afterSkip d err)
  | (st1, None) =>
      match n with
      | File _ => Some (st1, None)
      | Dir entries rerr =>
          let walk :=
            walkEntries
              (fun e => treeWalk (filepath.Join [path; fst e]) (entryOf e) (snd e)) in
          match readError path rerr with
          | Some err =>
              match walkDirFn st1 path (Some d) (Some err) with
              | (st2, Some err2) => Some (st2, afterSkip d err2)
              | (st2, None) => walk entries st2
              end
          | None => walk entries st1
          end
      end
  end.

End TreeWalk.

(** *** A system built from a tree *)

(** Every entry of the tree with the path it is shown at. *)
Fixpoint table (path : string) (n : node) : list (string * node) :=
  (path, n) ::
  match n with
  | File _ => []
  | Dir entries _ =>
      (fix below (l : list (string * node)) : list (string * node) :=
         match l with
         | [] => []
         | e :: l' => table (filepath.Join [path; fst e]) (snd e) ++ below l'
         end) entries
  end.

Fixpoint lookup (path : string) (t : list (string * node)) : option node :=
  match t with
  | [] => None
  | (p, n) :: t' => if p =? path then Some n else lookup path t'
  end.

(** A system whose files are those of [n] at [root], with working
    directory [wd]; its kernel lists directories backwards, a directory
    read as a file opens and fails in the read, and every write
    succeeds. *)
Definition systemOf (wd root : string) (n : node) : System :=
  let t := table root n in
  {| sys_getwd := inl wd;
     sys_lstat := fun p =>
       match lookup p t with
       | Some n' => inl (mkDirEntry p (isDir n'))
       | None => inr ENOENT
       end;
     sys_opendir := fun p =>
       match lookup p t with
       | Some (Dir _ (Some (OpenDirFailed e))) => Some e
       | Some (Dir _ _) => None
       | Some (File _) => Some ENOTDIR
       | None => Some ENOENT
       end;
     sys_readdirent := fun p =>
       match lookup p t with
       | Some (Dir entries (Some (ListingFailed f))) =>
           (rev (map entryOf entries), Some f)
       | Some (Dir entries _) => (rev (map entryOf entries), None)
       | _ => ([], None)
       end;
     sys_readfile := fun p =>
       match lookup p t with
       | Some (File content) => content
       | Some (Dir _ _) => inr (ReadFailed EISDIR [])
       | None => inr (OpenFailed ENOENT)
       end;
     sys_writefile := fun _ _ => None |}.

Definition bytes (s : string) : list byte := list_byte_of_string s.

(** The tree of the end-to-end example: [a.txt] and [sub/b.txt]. *)
Definition exampleTree : node :=
  Dir [("a.txt", File (inl (bytes "hello")));
       ("sub", Dir [("b.txt", File (inl (bytes "world")))] None)] None.

(** The tree of the ignore example, with an unreadable file and an
    unreadable directory below [build]. *)
Definition ignoreTree : node :=
  Dir [("build", Dir [("locked", Dir [] (Some (OpenDirFailed EACCES)));
                      ("out.bin", File (inr (OpenFailed EACCES)))] None);
       ("build2", Dir [("out.bin", File (inl (bytes "two")))] None);
       ("src", Dir [("build.go", File (inl (bytes "package build")))] None)] None.

(* ================================================================== *)
(** ** The run as a function of the tree *)

Section Run.

Variable rootDir : string.
Variable ignorePatterns : list string.

(** Whether the entry at [path] is ignored. *)
Definition ignored (path : string) : bool :=
  fst (isIgnored path ignorePatterns rootDir).

(** The manifest entry of a file at [path] with content [data]. *)
Definition entryFor (path : string) (data : list byte) : FileChecksum :=
  mkFileChecksum (fst (filepath.Rel rootDir path))
                 (hex.EncodeToString (sha1.Sum data)).

(** What the walk does with the tree [n] at [path], the manifest so far
    being [st]: an ignored entry is passed over, a file is hashed and
    appended, the entries of a directory are taken in turn, and the
    first failure ends everything. *)
Fixpoint hashTree (path : string) (n : node) (st : slice FileChecksum)
  : slice FileChecksum * option error :=
  match isIgnored path ignorePatterns rootDir with
  | (_, Some err) => (st, Some err)
  | (true, None) => (st, None)
  | (false, None) =>
      match n with
      | File (inl data) => (append st (entryFor path data), None)
      | File (inr f) =>
          (st, Some (WrapError
                       ("failed to calculate checksum for " ++ path ++ ": ")
                       (ReadFault_error path f)))
      | Dir _ (Some f) => (st, Some (ListFault_error path f))
      | Dir entries None =>
          (fix each (l : list (string * node)) (st : slice FileChecksum)
             : slice FileChecksum * option error :=
             match l with
             | [] => (st, None)
             | e :: l' =>
                 match hashTree (filepath.Join [path; fst e]) (snd e) st with
                 | (st', Some err) => (st', Some err)
                 | (st', None) => each l' st'
                 end
             end) entries st
      end
  end.

(** The tree without its ignored entries: an ignored file is left out,
    an ignored directory is left out with everything below it. *)
Fixpoint prune (path : string) (n : node) : node :=
  match n with
  | File content => File content
  | Dir entries err =>
      Dir ((fix kept (l : list (string * node)) : list (string * node) :=
              match l with
              | [] => []
              | e :: l' =>
                  let path1 := filepath.Join [path; fst e] in
                  if ignored path1 then kept l'
                  else (fst e, prune path1 (snd e)) :: kept l'
              end) entries) err
  end.

(** Some entry that is not ignored, and has no ignored directory above
    it, cannot be read. *)
Fixpoint unreadable (path : string) (n : node) : bool :=
  if ignored path then false
  else
    match n with
    | File (inl _) => false
    | File (inr _) => true
    | Dir _ (Some _) => true
    | Dir entries None =>
        (fix some (l : list (string * node)) : bool :=
           match l with
           | [] => false
           | e :: l' => unreadable (filepath.Join [path; fst e]) (snd e) || some l'
           end) entries
    end.

(** The manifest entries of the files that are read, in the order of
    the walk: depth first, the entries of a directory in their order. *)
Fixpoint hashed (path : string) (n : node) : list FileChecksum :=
  if ignored path then []
  else
    match n with
    | File (inl data) => [entryFor path data]
    | File (inr _) => []
    | Dir entries _ =>
        (fix each (l : list (string * node)) : list FileChecksum :=
           match l with
           | [] => []
           | e :: l' => hashed (filepath.Join [path; fst e]) (snd e) ++ each l'
           end) entries
    end.

End Run.

(** The tree has a non-directory entry somewhere. *)
Fixpoint hasFile (n : node) : bool :=
  match n with
  | File _ => true
  | Dir entries _ =>
      (fix some (l : list (string * node)) : bool :=
         match l with
         | [] => false
         | e :: l' => hasFile (snd e) || some l'
         end) entries
  end.

(** Every directory of the tree can be read. *)
Fixpoint dirsReadable (n : node) : bool :=
  match n with
  | File _ => true
  | Dir entries err =>
      match err with Some _ => false | None => true end
      && (fix all (l : list (string * node)) : bool :=
            match l with
            | [] => true
            | e :: l' => dirsReadable (snd e) && all l'
            end) entries
  end.

(** The readable files of the tree with their paths. *)
Fixpoint filesOf (path : string) (n : node) : list (string * list byte) :=
  match n with
  | File (inl data) => [(path, data)]
  | File (inr _) => []
  | Dir entries _ =>
      (fix each (l : list (string * node)) : list (string * list byte) :=
         match l with
         | [] => []
         | e :: l' => filesOf (filepath.Join [path; fst e]) (snd e) ++ each l'
         end) entries
  end.

(** Directory entries, and entries of a tree, in the bytewise
    lexicographic order of their names. *)
Definition entryLe (a b : DirEntry) : Prop := String.leb (Name a) (Name b) = true.

Definition nameLe (a b : string * node) : Prop :=
  String.leb (fst a) (fst b) = true.

(** The entries of every directory of the tree are in the order of
    their names. *)
Fixpoint sortedTree (n : node) : Prop :=
  match n with
  | File _ => True
  | Dir entries _ =>
      Sorted nameLe entries
      /\ (fix all (l : list (string * node)) : Prop :=
            match l with
            | [] => True
            | e :: l' => sortedTree (snd e) /\ all l'
            end) entries
  end.

(** What [calculateChecksums] returns when the walk ends in [r]. *)
Definition walked (r : slice FileChecksum * option error)
  : slice FileChecksum * option error :=
  match r with
  | (_, Some err) => (Nil, Some (WrapError "error walking the directory: " err))
  | (checksums, None) => (checksums, None)
  end.

(** An empty directory, for the examples. *)
Definition emptyTree : node := Dir [] None.

(** The errors a walk of this program ends with: that of relating a
    path to the root, that of listing a directory (in the open, in the
    reading of the entries, or in the examination of one), and that of
    reading a file (in the open or in a read) wrapped with the path of
    the file. *)
Inductive walkError : error -> Prop :=
| walkError_Rel s : walkError (ErrorString s)
| walkError_read path f : walkError (ListFault_error path f)
| walkError_checksum path f :
    walkError (WrapError ("failed to calculate checksum for " ++ path ++ ": ")
                         (ReadFault_error path f)).

(** A checksum as the manifest holds them: forty lowercase hexadecimal
    digits. *)
Definition isChecksum (s : string) : Prop :=
  String.length s = 40 /\ hex.all_lower_hex s = true.

(** The patterns [main] passes on: the pieces of the [--ignore] value
    between its commas, and none for the empty value. *)
Definition ignorePatternsOf (args : Flags) : list string :=
  let ignorePaths := flag_String (flag_ignore args) "" in
  if negb (ignorePaths =? "") then strings.Split ignorePaths ","%char else [].

(** A tree of directories only. *)
Definition dirsOnlyTree : node :=
  Dir [("a", Dir [] None); ("b", Dir [("c", Dir [] None)] None)] None.

(** Showing that a concrete system shows a concrete tree. *)
Ltac show_mounted :=
  split; [eexists; split; reflexivity | vm_compute; repeat split].

(* ================================================================== *)
(** ** Reading the artifact back *)

(** The encoding of U+FFFD. *)
Definition replacement : string :=
  String (ascii_of_N 239) (String (ascii_of_N 191) (String (ascii_of_N 189) "")).

(** A string as it comes back from the artifact: every byte that is not
    part of a well-formed UTF-8 encoding is replaced by U+FFFD, as
    [appendString] writes it. *)
Fixpoint coerceUTF8 (src : string) : string :=
  match src with
  | EmptyString => ""
  | String b rest =>
      if (json.code b <? 128)%N then String b (coerceUTF8 rest)
      else
        match json.runeSize b rest, rest with
        | 2%nat, String c1 rest1 => String b (String c1 (coerceUTF8 rest1))
        | 3%nat, String c1 (String c2 rest2) =>
            String b (String c1 (String c2 (coerceUTF8 rest2)))
        | 4%nat, String c1 (String c2 (String c3 rest3)) =>
            String b (String c1 (String c2 (String c3 (coerceUTF8 rest3))))
        | _, _ => replacement ++ coerceUTF8 rest
        end
  end.

Fixpoint coerceValue (v : json.Value) : json.Value :=
  match v with
  | json.Null => json.Null
  | json.Str s => json.Str (coerceUTF8 s)
  | json.Array elems => json.Array (map coerceValue elems)
  | json.Object members =>
      json.Object (map (fun m => (coerceUTF8 (fst m), coerceValue (snd m))) members)
  end.

(** Token lists with a comma between them. *)
Fixpoint joinTokens (ls : list (list json.token)) : list json.token :=
  match ls with
  | [] => []
  | [x] => x
  | x :: xs => x ++ json.TComma :: joinTokens xs
  end.

(** The tokens of a document. *)
Fixpoint tokens (v : json.Value) : list json.token :=
  match v with
  | json.Null => [json.TNull]
  | json.Str s => [json.TString s]
  | json.Array elems =>
      json.TLBracket :: joinTokens (map tokens elems) ++ [json.TRBracket]
  | json.Object members =>
      json.TLBrace
        :: joinTokens
             (map (fun m => json.TString (fst m) :: json.TColon :: tokens (snd m))
                  members)
        ++ [json.TRBrace]
  end.

Definition punctuation (c : ascii) : option json.token :=
  (if json.code c =? 91 then Some json.TLBracket
   else if json.code c =? 93 then Some json.TRBracket
   else if json.code c =? 123 then Some json.TLBrace
   else if json.code c =? 125 then Some json.TRBrace
   else if json.code c =? 44 then Some json.TComma
   else if json.code c =? 58 then Some json.TColon
   else None)%N.

(** The text [s] consists of the tokens [ts]: the lexer as a relation,
    without fuel. *)
Inductive Lex : string -> list json.token -> Prop :=
| Lex_end : Lex "" []
| Lex_space c s ts : json.isSpace c = true -> Lex s ts -> Lex (String c s) ts
| Lex_punctuation c t s ts :
    punctuation c = Some t -> Lex s ts -> Lex (String c s) (t :: ts)
| Lex_string s str rest ts :
    json.scanString s = Some (str, rest) ->
    String.length rest <= String.length s ->
    Lex rest ts ->
    Lex (String json.dquote s) (json.TString str :: ts)
| Lex_null s ts : Lex s ts -> Lex ("null" ++ s) (json.TNull :: ts).

(** A token list that does not start with a closing bracket or brace. *)
Definition notClosing (ts : list json.token) : Prop :=
  match ts with
  | json.TRBracket :: _ => False
  | json.TRBrace :: _ => False
  | _ => True
  end.

(** *** The layout of the artifact, in the words of the specification *)

Definition lineBreak : string := String "010" "".

(** A string between quotes, nothing escaped. *)
Definition quoted (s : string) : string :=
  String json.dquote (s ++ String json.dquote "").

(** One object: its braces indented by two spaces, its two fields by
    four. *)
Definition objectText (c : FileChecksum) : string :=
  "  {" ++ lineBreak
    ++ "    " ++ quoted "path" ++ ": " ++ json.appendString (Path c) ++ "," ++ lineBreak
    ++ "    " ++ quoted "checksum" ++ ": " ++ quoted (Checksum c) ++ lineBreak
    ++ "  }".

(** A sequence of objects between brackets, one after the other with a
    comma at the end of the line. *)
Definition manifestText (l : list FileChecksum) : string :=
  "[" ++ lineBreak
    ++ String.concat ("," ++ lineBreak) (map objectText l) ++ lineBreak
    ++ "]".

(** The record read back for a manifest entry. *)
Definition decodedEntry (c : FileChecksum) : json.Value :=
  json.Object [("path", json.Str (coerceUTF8 (Path c)));
               ("checksum", json.Str (Checksum c))].

(** What holds of the manifest all along the walk: it is nil or not
    empty, and its checksums are forty lowercase hexadecimal digits. *)
Definition wellFormed (m : slice FileChecksum) : Prop :=
  match m with
  | Nil => True
  | Slice l => l <> [] /\ Forall (fun c => isChecksum (Checksum c)) l
  end.

(** What [main] leaves behind when the project directory shows the tree
    [t]: the error of the walk printed, or the error of the write, or
    the artifact written in the project directory. *)
Definition outcomeOn (sys : System) (args : Flags) (projectDir : string) (t : node)
  : Outcome :=
  let checksumsFilePath :=
    filepath.Join [projectDir; flag_String (flag_output args) "checksums.json"] in
  match hashTree projectDir (ignorePatternsOf args) projectDir t Nil with
  | (_, Some err) =>
      mkOutcome [Println "Error calculating checksums:"
                   (WrapError "error walking the directory: " err)] None None
  | (checksums, None) =>
      match os.WriteFile sys checksumsFilePath (fst (MarshalIndent checksums)) with
      | (partial, Some err) =>
          mkOutcome [Println "Error saving checksums:"
                       (WrapError "failed to write checksums to file: " err)]
                    None (fileNamed checksumsFilePath partial)
      | (_, None) =>
          mkOutcome [] (Some (checksumsFilePath, fst (MarshalIndent checksums))) None
      end
  end.

(** *** Reading the artifact into records

    [json.Unmarshal] into a [[]FileChecksum]: [null] gives the nil
    slice, an array gives one record per element; the fields of a record
    are found by their keys, a missing or [null] field is the empty
    string, and a field that is not a string is an error.  (The library
    also accepts keys that differ in case; the program never writes
    any.) *)
Fixpoint field (key : string) (members : list (string * json.Value))
  : option string :=
  match members with
  | [] => Some ""
  | (k, v) :: rest =>
      if k =? key then
        match v with
        | json.Str s => Some s
        | json.Null => Some ""
        | _ => None
        end
      else field key rest
  end.

Definition recordOf (v : json.Value) : option FileChecksum :=
  match v with
  | json.Null => Some (mkFileChecksum "" "")
  | json.Object members =>
      match field "path" members, field "checksum" members with
      | Some p, Some c => Some (mkFileChecksum p c)
      | _, _ => None
      end
  | _ => None
  end.

Fixpoint recordsOf (elems : list json.Value) : option (list FileChecksum) :=
  match elems with
  | [] => Some []
  | v :: rest =>
      match recordOf v, recordsOf rest with
      | Some c, Some l => Some (c :: l)
      | _, _ => None
      end
  end.

Definition Unmarshal (text : string) : option (slice FileChecksum) :=
  match json.decode text with
  | Some json.Null => Some Nil
  | Some (json.Array elems) =>
      match recordsOf elems with
      | Some l => Some (Slice l)
      | None => None
      end
  | _ => None
  end.

(** A manifest as it is read back: each path with its ill-formed bytes
    replaced. *)
Definition readBack (m : slice FileChecksum) : slice FileChecksum :=
  match m with
  | Nil => Nil
  | Slice l =>
      Slice (map (fun c => mkFileChecksum (coerceUTF8 (Path c)) (Checksum c)) l)
  end.

(* ================================================================== *)
(** ** More systems and notions for the further properties *)

(** The system [sys] with no working directory to report. *)
Definition withoutWorkingDir (sys : System) (e : Errno) : System :=
  {| sys_getwd := inr e;
     sys_lstat := sys_lstat sys;
     sys_opendir := sys_opendir sys;
     sys_readdirent := sys_readdirent sys;
     sys_readfile := sys_readfile sys;
     sys_writefile := sys_writefile sys |}.

(** The system [sys] with every write failing as [f] says. *)
Definition failingWrites (sys : System) (f : WriteFault) : System :=
  {| sys_getwd := sys_getwd sys;
     sys_lstat := sys_lstat sys;
     sys_opendir := sys_opendir sys;
     sys_readdirent := sys_readdirent sys;
     sys_readfile := sys_readfile sys;
     sys_writefile := fun _ _ => Some f |}.

(** A tree with a link to a directory: an entry that is no directory
    for the walk, and that opens and cannot be read. *)
Definition linkTree : node :=
  Dir [("a.txt", File (inl (bytes "hello")));
       ("link-dir", File (inr (ReadFailed EISDIR [])))] None.

(** The number of occurrences of a byte in a string. *)
Fixpoint countChar (c : ascii) (s : string) : nat :=
  match s with
  | EmptyString => 0
  | String x s' => (if Ascii.eqb x c then 1 else 0) + countChar c s'
  end.

(** [l1] is [l2] with some elements left out, the others in their
    order. *)
Inductive subseq {A : Type} : list A -> list A -> Prop :=
| subseq_nil : subseq [] []
| subseq_skip x l1 l2 : subseq l1 l2 -> subseq l1 (x :: l2)
| subseq_keep x l1 l2 : subseq l1 l2 -> subseq (x :: l1) (x :: l2).

(** The failures of reading: a directory that cannot be listed,
    whether it is the open, the reading of the entries or the
    examination of one that fails, and a file that cannot be read,
    whether it is the open or a read that fails. *)
Inductive readFailure : error -> Prop :=
| readFailure_dir path f : readFailure (ListFault_error path f)
| readFailure_file path f :
    readFailure (WrapError ("failed to calculate checksum for " ++ path ++ ": ")
                           (ReadFault_error path f)).

(** [utf8.ValidString]: the string is a sequence of well-formed
    encodings. *)
Fixpoint validUTF8 (s : string) : bool :=
  match s with
  | EmptyString => true
  | String b rest =>
      if (json.code b <? 128)%N then validUTF8 rest
      else
        match json.runeSize b rest, rest with
        | 2%nat, String c1 rest1 => validUTF8 rest1
        | 3%nat, String c1 (String c2 rest2) => validUTF8 rest2
        | 4%nat, String c1 (String c2 (String c3 rest3)) => validUTF8 rest3
        | _, _ => false
        end
  end.

(** A record as it is read back, whatever its fields hold. *)
Definition asRead (c : FileChecksum) : FileChecksum :=
  mkFileChecksum (coerceUTF8 (Path c)) (coerceUTF8 (Checksum c)).

Definition readBackAny (m : slice FileChecksum) : slice FileChecksum :=
  match m with
  | Nil => Nil
  | Slice l => Slice (map asRead l)
  end.

(** The fields of the manifest are well-formed UTF-8. *)
Definition validManifest (m : slice FileChecksum) : bool :=
  forallb (fun c => validUTF8 (Path c) && validUTF8 (Checksum c)) (elements m).

(** *** The walk by names

    A name as a directory holds it: not empty, not [.] or [..], and
    without a separator. *)
Definition properName (name : string) : bool :=
  negb (name =? "") && negb (name =? ".") && negb (name =? "..")
  && (countChar filepath.Separator name =? 0)%nat.

(** Every entry of the tree has such a name. *)
Fixpoint properTree (n : node) : bool :=
  match n with
  | File _ => true
  | Dir entries _ =>
      (fix all (l : list (string * node)) : bool :=
         match l with
         | [] => true
         | e :: l' => properName (fst e) && properTree (snd e) && all l'
         end) entries
  end.

(** The path of the entry reached from the root by [names], relative to
    the root. *)
Definition relOf (names : list string) : string :=
  match names with
  | [] => "."
  | _ => strings.Join names "/"
  end.

Section ByNames.

Variable ignorePatterns : list string.

(** Some pattern is a prefix of the relative path. *)
Definition ignoredName (names : list string) : bool :=
  existsb (fun pattern => strings.HasPrefix (relOf names) pattern) ignorePatterns.

(** The manifest entries of the tree [n] reached by [names], from the
    names and contents alone. *)
Fixpoint listed (names : list string) (n : node) : list FileChecksum :=
  if ignoredName names then []
  else
    match n with
    | File (inl data) =>
        [mkFileChecksum (relOf names) (hex.EncodeToString (sha1.Sum data))]
    | File (inr _) => []
    | Dir entries _ =>
        (fix each (l : list (string * node)) : list FileChecksum :=
           match l with
           | [] => []
           | e :: l' => listed (names ++ [fst e]) (snd e) ++ each l'
           end) entries
    end.

(** No pattern is a prefix of the path of the entry. *)
Definition kept (c : FileChecksum) : bool :=
  negb (existsb (fun pattern => strings.HasPrefix (Path c) pattern) ignorePatterns).

(** Some entry that is not ignored, nor below an ignored directory,
    cannot be read. *)
Fixpoint blocked (names : list string) (n : node) : bool :=
  if ignoredName names then false
  else
    match n with
    | File (inl _) => false
    | File (inr _) => true
    | Dir _ (Some _) => true
    | Dir entries None =>
        (fix some (l : list (string * node)) : bool :=
           match l with
           | [] => false
           | e :: l' => blocked (names ++ [fst e]) (snd e) || some l'
           end) entries
    end.

End ByNames.

(** No directory of the tree holds a name twice. *)
Fixpoint uniqueNames (n : node) : Prop :=
  match n with
  | File _ => True
  | Dir entries _ =>
      NoDup (map fst entries)
      /\ (fix all (l : list (string * node)) : Prop :=
            match l with
            | [] => True
            | e :: l' => uniqueNames (snd e) /\ all l'
            end) entries
  end.

(** The tree holds a readable file with content [data] at the end of
    the names [names]. *)
Inductive fileAt : node -> list string -> list byte -> Prop :=
| fileAt_here data : fileAt (File (inl data)) [] data
| fileAt_below entries rerr name sub names data :
    In (name, sub) entries -> fileAt sub names data ->
    fileAt (Dir entries rerr) (name :: names) data.

(* ================================================================== *)
(** * Properties *)

Arguments filepath.Join : simpl never.
Arguments filepath.Rel : simpl never.
Arguments filepath.Clean : simpl never.
Arguments sha1.Sum : simpl never.
Arguments isIgnored : simpl never.
Arguments os.ReadDir : simpl never.
Arguments String.append : simpl never.

(** ** Trees *)

(** Induction on trees, with the hypothesis for every entry of a
    directory. *)
Lemma node_ind' (P : node -> Prop)
  (HFile : forall content, P (File content))
  (HDir : forall entries err,
      Forall (fun e => P (snd e)) entries -> P (Dir entries err)) :
  forall n, P n.
Proof.
  fix IH 1. intros [content | entries err].
  - apply HFile.
  - apply HDir. induction entries as [| e l IHl]; constructor.
    + apply IH.
    + exact IHl.
Qed.

Lemma represents_Dir sys path entries err :
  represents sys path (Dir entries err) <->
  os.ReadDir sys path = (map entryOf entries, readError path err)
  /\ Forall (fun e => represents sys (filepath.Join [path; fst e]) (snd e)) entries.
Proof.
  simpl. split; intros [H1 H2]; (split; [exact H1 | clear H1]).
  - induction entries as [| e l IHl]; constructor;
      cbn beta iota in H2; destruct H2; auto.
  - induction entries as [| e l IHl]; [exact I |].
    inversion H2 as [| ? ? Ha Hb]; subst. split; [exact Ha | exact (IHl Hb)].
Qed.

Lemma depth_Dir entries err fuel :
  depth (Dir entries err) < S fuel ->
  Forall (fun e => depth (snd e) < fuel) entries.
Proof.
  simpl. intros H. apply Nat.succ_lt_mono in H.
  induction entries as [| e l IHl]; constructor.
  - lia.
  - apply IHl. lia.
Qed.

(** ** [WalkDir] on a tree *)

Section WalkRefinement.

Context {St : Type}.
Variable sys : System.
Variable walkDirFn : WalkDirFunc St.

Lemma walkEntries_ext {A B : Type}
  (f : A -> St -> option (St * option error))
  (g : B -> St -> option (St * option error)) (h : B -> A) (l : list B) :
  Forall (fun b => forall st, f (h b) st = g b st) l ->
  forall st, walkEntries f (map h l) st = walkEntries g l st.
Proof.
  induction 1 as [| b l Hb _ IH]; intros st; simpl; [reflexivity |].
  rewrite Hb. destruct (g b st) as [[st' [err |]] |]; auto.
Qed.

(** With enough fuel, walking a path where the system shows the tree
    [n] is the walk of [n]. *)
Lemma walkDir_treeWalk n :
  forall fuel path d st,
    represents sys path n -> IsDir d = isDir n -> depth n < fuel ->
    walkDir sys walkDirFn fuel path d st = treeWalk walkDirFn path d n st.
Proof.
  induction n as [content | entries err IH] using node_ind';
    intros fuel path d st Hrep Hd Hfuel;
    (destruct fuel as [| fuel]; [lia |]).
  - simpl. destruct (walkDirFn st path (Some d) None) as [st1 [e |]]; auto.
    rewrite Hd. reflexivity.
  - apply represents_Dir in Hrep. destruct Hrep as [Hread Hall].
    apply depth_Dir in Hfuel.
    assert (Hloop : forall st',
               walkEntries
                 (fun d1 => walkDir sys walkDirFn fuel
                              (filepath.Join [path; Name d1]) d1)
                 (map entryOf entries) st'
               = walkEntries
                   (fun e => treeWalk walkDirFn (filepath.Join [path; fst e])
                               (entryOf e) (snd e))
                   entries st').
    { apply walkEntries_ext.
      rewrite Forall_forall in *. intros e He st'.
      apply IH; auto. }
    simpl. destruct (walkDirFn st path (Some d) None) as [st1 [e |]]; auto.
    rewrite Hd, Hread. simpl.
    destruct (readError path err) as [rerr |]; auto.
    destruct (walkDirFn st1 path (Some d) (Some rerr)) as [st2 [e2 |]]; auto.
Qed.

End WalkRefinement.

(** ** The function passed to [WalkDir] *)

Lemma Rel_error base targ r err :
  filepath.Rel base targ = (r, Some err) ->
  err = ErrorString ("Rel: can't make " ++ targ ++ " relative to " ++ base).
Proof.
  unfold filepath.Rel.
  destruct (filepath.parts base) as [brooted bs], (filepath.parts targ) as [trooted ts].
  destruct (filepath.Clean targ =? filepath.Clean base); [discriminate |].
  destruct (negb (Bool.eqb brooted trooted)); [inversion 1; reflexivity |].
  destruct (filepath.dropCommon bs ts) as [base' targ'].
  match goal with |- context [if ?c then _ else _] => destruct c end;
    inversion 1; reflexivity.
Qed.

(** [isIgnored] is the prefix test on the relative path. *)
Lemma isIgnored_Rel path ignorePatterns rootDir :
  isIgnored path ignorePatterns rootDir =
  match filepath.Rel rootDir path with
  | (_, Some err) => (false, Some err)
  | (relativePath, None) =>
      (existsb (fun pattern => strings.HasPrefix relativePath pattern) ignorePatterns,
       None)
  end.
Proof.
  unfold isIgnored.
  destruct (filepath.Rel rootDir path) as [rel [err |]]; [reflexivity |].
  induction ignorePatterns as [| p l IH]; [reflexivity |].
  simpl. destruct (strings.HasPrefix rel p); [reflexivity | exact IH].
Qed.

Lemma isIgnored_ok path ignorePatterns rootDir b :
  isIgnored path ignorePatterns rootDir = (b, None) ->
  snd (filepath.Rel rootDir path) = None.
Proof.
  rewrite isIgnored_Rel.
  destruct (filepath.Rel rootDir path) as [rel [err |]]; [discriminate | reflexivity].
Qed.

Lemma isIgnored_error path ignorePatterns rootDir b err :
  isIgnored path ignorePatterns rootDir = (b, Some err) ->
  err = ErrorString ("Rel: can't make " ++ path ++ " relative to " ++ rootDir).
Proof.
  rewrite isIgnored_Rel.
  destruct (filepath.Rel rootDir path) as [rel [err' |]] eqn:E; [| discriminate].
  inversion 1; subst. eapply Rel_error; eauto.
Qed.

Lemma walkError_not_skip err :
  walkError err -> is_SkipDir err = false /\ is_SkipAll err = false.
Proof.
  destruct 1 as [s | path [e | [e | child e]] | path f]; split; reflexivity.
Qed.

Section RunLemmas.

Variable sys : System.
Variable rootDir : string.
Variable ignorePatterns : list string.

Let fn := calculateChecksums_func1 sys rootDir ignorePatterns.

Lemma hashTree_error n :
  forall path st st' err,
    hashTree rootDir ignorePatterns path n st = (st', Some err) -> walkError err.
Proof.
  induction n as [content | entries rerr IH] using node_ind';
    intros path st st' err; cbn [hashTree];
    destruct (isIgnored path ignorePatterns rootDir) as [[|] [e0 |]] eqn:Eig;
    try discriminate;
    try (inversion 1; subst; apply isIgnored_error in Eig; subst; constructor).
  - destruct content as [data | e]; inversion 1; subst. constructor.
  - destruct rerr as [e |]; [inversion 1; subst; constructor |].
    revert st. induction IH as [| e l He _ IHl]; intros st; [discriminate |].
    destruct (hashTree rootDir ignorePatterns (filepath.Join [path; fst e]) (snd e) st)
      as [st1 [err1 |]] eqn:E1.
    + inversion 1; subst. eapply He; eauto.
    + apply IHl.
Qed.

(** On a tree the system shows, the walk with the program's function
    is [hashTree]. *)
Lemma treeWalk_hashTree n :
  forall path d st,
    represents sys path n -> IsDir d = isDir n ->
    treeWalk fn path d n st
    = Some (hashTree rootDir ignorePatterns path n st).
Proof.
  induction n as [content | entries rerr IH] using node_ind';
    intros path d st Hrep Hd; cbn [treeWalk hashTree]; unfold fn at 1;
    unfold calculateChecksums_func1;
    destruct (isIgnored path ignorePatterns rootDir) as [ig [e0 |]] eqn:Eig;
    try (apply isIgnored_error in Eig; subst e0; destruct ig; reflexivity);
    unfold afterSkip; rewrite Hd; cbn [isDir];
    (destruct ig; [reflexivity |]).
  - simpl in Hrep. unfold generateSHA1Checksum, os.ReadFile. rewrite Hrep.
    destruct content as [data | [e | e sofar]]; [| reflexivity | reflexivity].
    apply isIgnored_ok in Eig. unfold entryFor.
    destruct (filepath.Rel rootDir path) as [rel [err |]]; [discriminate |].
    reflexivity.
  - apply represents_Dir in Hrep. destruct Hrep as [_ Hall].
    destruct rerr as [f |]; cbn [readError].
    + unfold fn, calculateChecksums_func1.
      destruct f as [e | [e | child e]]; reflexivity.
    + revert st. induction IH as [| e l He _ IHl]; intros st; [reflexivity |].
      inversion Hall as [| ? ? Ha Hb]; subst.
      cbn [walkEntries]. rewrite He by (auto; reflexivity).
      destruct (hashTree rootDir ignorePatterns (filepath.Join [path; fst e]) (snd e) st)
        as [st1 [err1 |]] eqn:E1.
      * apply hashTree_error in E1. apply walkError_not_skip in E1.
        destruct E1 as [E1 _]. rewrite E1. reflexivity.
      * apply IHl; [exact Hb | exact Hd].
Qed.

(** With enough fuel, [calculateChecksums] on a tree the system shows
    at the root is [hashTree] from the empty manifest. *)
Lemma calculateChecksums_mounted n fuel :
  mounted sys rootDir n -> depth n < fuel ->
  calculateChecksums fuel sys rootDir ignorePatterns
  = Some (walked (hashTree rootDir ignorePatterns rootDir n Nil)).
Proof.
  intros [[info [Hstat Hd]] Hrep] Hfuel.
  unfold calculateChecksums, WalkDir, os.Lstat. rewrite Hstat.
  rewrite (walkDir_treeWalk sys _ n) by assumption.
  fold fn. rewrite treeWalk_hashTree by assumption.
  destruct (hashTree rootDir ignorePatterns rootDir n Nil) as [m [err |]] eqn:E;
    [| reflexivity].
  apply hashTree_error in E. apply walkError_not_skip in E.
  destruct E as [E1 E2]. rewrite E1, E2. reflexivity.
Qed.

End RunLemmas.

(** ** Checksums *)

Lemma Sum_length data : List.length (sha1.Sum data) = sha1.Size.
Proof. reflexivity. Qed.

Lemma EncodeToString_length src :
  String.length (hex.EncodeToString src) = 2 * List.length src.
Proof.
  induction src as [| v rest IH]; [reflexivity |].
  cbn [hex.EncodeToString String.length List.length]. rewrite IH. lia.
Qed.

Lemma digits_lower_hex (v : byte) :
  hex.is_lower_hex (hex.digit (N.shiftr (Byte.to_N v) 4)) = true
  /\ hex.is_lower_hex (hex.digit (N.land (Byte.to_N v) 15)) = true.
Proof. destruct v; split; reflexivity. Qed.

Lemma EncodeToString_lower_hex src :
  hex.all_lower_hex (hex.EncodeToString src) = true.
Proof.
  induction src as [| v rest IH]; [reflexivity |].
  cbn [hex.EncodeToString hex.all_lower_hex].
  destruct (digits_lower_hex v) as [H1 H2]. rewrite H1, H2, IH. reflexivity.
Qed.

Lemma sha1_isChecksum data : isChecksum (hex.EncodeToString (sha1.Sum data)).
Proof.
  split.
  - rewrite EncodeToString_length, Sum_length. reflexivity.
  - apply EncodeToString_lower_hex.
Qed.

(** Test vectors of FIPS 180: the empty message, one block, two blocks. *)
Example sha1_empty :
  hex.EncodeToString (sha1.Sum []) = "da39a3ee5e6b4b0d3255bfef95601890afd80709".
Proof. vm_compute. reflexivity. Qed.

Example sha1_abc :
  hex.EncodeToString (sha1.Sum (bytes "abc"))
  = "a9993e364706816aba3e25717850c26c9cd0d89d".
Proof. vm_compute. reflexivity. Qed.

Example sha1_two_blocks :
  hex.EncodeToString
    (sha1.Sum (bytes "abcdbcdecdefdefgefghfghighijhijkijkljklmklmnlmnomnopnopq"))
  = "84983e441c3bd26ebaae4aa1f95129e5e54670f1".
Proof. vm_compute. reflexivity. Qed.

(** C1: the checksum of a file that can be read is the SHA-1 digest of
    its whole content in hexadecimal, forty lowercase digits; for the
    content [hello] it is aaf4c61ddcc5e8a2dabede0f3b482cd9aea9434d. *)
Theorem generateSHA1Checksum_digest sys filePath data :
  sys_readfile sys filePath = inl data ->
  generateSHA1Checksum sys filePath = (hex.EncodeToString (sha1.Sum data), None)
  /\ String.length (hex.EncodeToString (sha1.Sum data)) = 40
  /\ hex.all_lower_hex (hex.EncodeToString (sha1.Sum data)) = true
  /\ hex.EncodeToString (sha1.Sum (bytes "hello"))
     = "aaf4c61ddcc5e8a2dabede0f3b482cd9aea9434d".
Proof.
  intros Hread. unfold generateSHA1Checksum, os.ReadFile. rewrite Hread.
  destruct (sha1_isChecksum data) as [Hlen Hhex].
  repeat split; auto.
Qed.

Lemma generateSHA1Checksum_digest_witness :
  generateSHA1Checksum (systemOf "/" "/r" exampleTree) "/r/a.txt"
  = ("aaf4c61ddcc5e8a2dabede0f3b482cd9aea9434d", None).
Proof.
  pose proof (generateSHA1Checksum_digest (systemOf "/" "/r" exampleTree)
                "/r/a.txt" (bytes "hello") eq_refl) as [H [_ [_ Hhello]]].
  rewrite H. rewrite Hhello. reflexivity.
Defined.

(** ** The ignore filter *)

Lemma existsb_prefix rel ignorePatterns :
  existsb (fun pattern => strings.HasPrefix rel pattern) ignorePatterns = true
  <-> exists pattern, In pattern ignorePatterns /\ String.prefix pattern rel = true.
Proof.
  rewrite existsb_exists. unfold strings.HasPrefix. reflexivity.
Qed.

(** C2: an entry is ignored exactly when its path relative to the root
    starts with one of the patterns, as strings; with the pattern
    [build], the files [build/out.bin] and [build2/out.bin] are left out
    and [src/build.go] is kept. *)
Theorem isIgnored_iff_prefix path ignorePatterns rootDir relativePath :
  filepath.Rel rootDir path = (relativePath, None) ->
  (exists ignored,
      isIgnored path ignorePatterns rootDir = (ignored, None)
      /\ (ignored = true <->
          exists pattern,
            In pattern ignorePatterns /\ String.prefix pattern relativePath = true))
  /\ isIgnored "/r/build/out.bin" ["build"] "/r" = (true, None)
  /\ isIgnored "/r/build2/out.bin" ["build"] "/r" = (true, None)
  /\ isIgnored "/r/src/build.go" ["build"] "/r" = (false, None)
  /\ calculateChecksums 4 (systemOf "/" "/r" ignoreTree) "/r" ["build"]
     = Some (Slice [mkFileChecksum "src/build.go"
                      (hex.EncodeToString (sha1.Sum (bytes "package build")))],
             None).
Proof.
  intros Hrel. split; [| repeat split; vm_compute; reflexivity].
  rewrite isIgnored_Rel, Hrel. eexists. split; [reflexivity |].
  apply existsb_prefix.
Qed.

Lemma isIgnored_iff_prefix_witness :
  isIgnored "/r/build2/out.bin" ["build"; "docs"] "/r" = (true, None).
Proof.
  destruct (isIgnored_iff_prefix "/r/build2/out.bin" ["build"; "docs"] "/r"
              "build2/out.bin" eq_refl) as [[ignored [Heq Hiff]] _].
  rewrite Heq. f_equal. apply Hiff.
  exists "build". split; [left; reflexivity | reflexivity].
Defined.

(** ** Pruning *)

Section Pruning.

Variable rootDir : string.
Variable ignorePatterns : list string.

Lemma ignored_true path :
  ignored rootDir ignorePatterns path = true ->
  isIgnored path ignorePatterns rootDir = (true, None).
Proof.
  unfold ignored. rewrite isIgnored_Rel.
  destruct (filepath.Rel rootDir path) as [rel [err |]]; cbn [fst];
    [discriminate | intros ->; reflexivity].
Qed.

Lemma ignored_false path b err :
  isIgnored path ignorePatterns rootDir = (b, err) ->
  ignored rootDir ignorePatterns path = false ->
  b = false.
Proof. unfold ignored. intros ->. cbn [fst]. auto. Qed.

Lemma hashTree_ignored path n st :
  ignored rootDir ignorePatterns path = true ->
  hashTree rootDir ignorePatterns path n st = (st, None).
Proof.
  intros H. apply ignored_true in H.
  destruct n; cbn [hashTree]; rewrite H; reflexivity.
Qed.

(** Leaving the ignored entries out of the tree changes nothing. *)
Lemma hashTree_prune n :
  forall path st,
    hashTree rootDir ignorePatterns path (prune rootDir ignorePatterns path n) st
    = hashTree rootDir ignorePatterns path n st.
Proof.
  induction n as [content | entries rerr IH] using node_ind';
    intros path st; [reflexivity |].
  cbn [hashTree prune].
  destruct (isIgnored path ignorePatterns rootDir) as [[|] [e0 |]]; try reflexivity.
  destruct rerr as [e |]; [reflexivity |].
  revert st. induction IH as [| e l He _ IHl]; intros st; [reflexivity |].
  destruct (ignored rootDir ignorePatterns (filepath.Join [path; fst e])) eqn:Eig.
  - rewrite (hashTree_ignored _ (snd e) st Eig). apply IHl.
  - cbn [fst snd]. rewrite He.
    destruct (hashTree rootDir ignorePatterns (filepath.Join [path; fst e]) (snd e) st)
      as [st1 [err1 |]]; [reflexivity | apply IHl].
Qed.

Lemma depth_prune n :
  forall path, depth (prune rootDir ignorePatterns path n) <= depth n.
Proof.
  induction n as [content | entries rerr IH] using node_ind';
    intros path; [reflexivity |].
  cbn [depth prune]. apply le_n_S.
  induction IH as [| e l He _ IHl]; [reflexivity |].
  destruct (ignored rootDir ignorePatterns (filepath.Join [path; fst e])).
  - lia.
  - cbn [snd]. specialize (He (filepath.Join [path; fst e])). lia.
Qed.

End Pruning.

(** C3: an ignored entry ends its walk at once, without an error and
    without reading anything, whatever the system holds there, so the
    walk goes on with the next entry; and the run on a tree is the run on
    the tree without its ignored files and without its ignored
    directories and all they contain. *)
Theorem ignored_pruned rootDir ignorePatterns :
  (forall sys fuel path d st,
      isIgnored path ignorePatterns rootDir = (true, None) ->
      walkDir sys (calculateChecksums_func1 sys rootDir ignorePatterns)
              (S fuel) path d st
      = Some (st, None))
  /\ (forall sys1 sys2 t fuel,
         mounted sys1 rootDir t ->
         mounted sys2 rootDir (prune rootDir ignorePatterns rootDir t) ->
         depth t < fuel ->
         calculateChecksums fuel sys1 rootDir ignorePatterns
         = calculateChecksums fuel sys2 rootDir ignorePatterns).
Proof.
  split.
  - intros sys fuel path d st Hig. cbn [walkDir].
    unfold calculateChecksums_func1 at 1. rewrite Hig.
    unfold afterSkip. destruct (IsDir d); reflexivity.
  - intros sys1 sys2 t fuel H1 H2 Hfuel.
    rewrite (calculateChecksums_mounted sys1 _ _ t) by assumption.
    rewrite (calculateChecksums_mounted sys2 _ _ (prune rootDir ignorePatterns rootDir t)).
    + rewrite hashTree_prune. reflexivity.
    + assumption.
    + pose proof (depth_prune rootDir ignorePatterns t rootDir). lia.
Qed.

Lemma ignored_pruned_witness :
  walkDir (systemOf "/" "/r" ignoreTree)
          (calculateChecksums_func1 (systemOf "/" "/r" ignoreTree) "/r" ["build"])
          1 "/r/build" (mkDirEntry "build" true) Nil
  = Some (Nil, None)
  /\ calculateChecksums 4 (systemOf "/" "/r" ignoreTree) "/r" ["build"]
     = calculateChecksums 4
         (systemOf "/" "/r" (prune "/r" ["build"] "/r" ignoreTree)) "/r" ["build"].
Proof.
  destruct (ignored_pruned "/r" ["build"]) as [Hlocal Hglobal]. split.
  - apply Hlocal. reflexivity.
  - apply (Hglobal _ _ ignoreTree).
    + show_mounted.
    + show_mounted.
    + vm_compute. lia.
Defined.

(** ** Failures *)

Section Failures.

Variable rootDir : string.
Variable ignorePatterns : list string.

(** An unreadable entry that the walk would reach makes it fail. *)
Lemma unreadable_fails n :
  forall path st,
    unreadable rootDir ignorePatterns path n = true ->
    exists st' err, hashTree rootDir ignorePatterns path n st = (st', Some err).
Proof.
  induction n as [content | entries rerr IH] using node_ind';
    intros path st; cbn [unreadable hashTree]; unfold ignored;
    destruct (isIgnored path ignorePatterns rootDir) as [[|] [e0 |]];
    cbn [fst]; try discriminate; eauto.
  - destruct content as [data | e]; [discriminate | eauto].
  - destruct rerr as [e |]; [eauto |].
    revert st. induction IH as [| e l He _ IHl]; intros st; [discriminate |].
    intros H. apply orb_true_iff in H.
    destruct (hashTree rootDir ignorePatterns (filepath.Join [path; fst e]) (snd e) st)
      as [st1 [err1 |]] eqn:E1; [eauto |].
    destruct H as [H | H].
    + destruct (He _ st H) as [st' [err E]]. congruence.
    + apply IHl. exact H.
Qed.

End Failures.

(** C4: a root that cannot be examined, a reachable directory that
    cannot be read and a reachable file that cannot be read each make
    [calculateChecksums] return a nil manifest and an error wrapped as a
    walk error, the failure of a checksum being wrapped with the path of
    the file, whether the file does not open or, as a link to a
    directory, opens and fails in the read; [main] then prints the error
    and writes no file. *)
Theorem errors_abort sys rootDir ignorePatterns fuel :
  (forall e,
      sys_lstat sys rootDir = inr e ->
      calculateChecksums fuel sys rootDir ignorePatterns
      = Some (Nil, Some (WrapError "error walking the directory: "
                           (PathError "lstat" rootDir e))))
  /\ (forall t,
         mounted sys rootDir t -> depth t < fuel ->
         unreadable rootDir ignorePatterns rootDir t = true ->
         exists err,
           walkError err
           /\ calculateChecksums fuel sys rootDir ignorePatterns
              = Some (Nil, Some (WrapError "error walking the directory: " err)))
  /\ (forall path d st e,
         sys_readfile sys path = inr (OpenFailed e) ->
         isIgnored path ignorePatterns rootDir = (false, None) ->
         IsDir d = false ->
         calculateChecksums_func1 sys rootDir ignorePatterns st path (Some d) None
         = (st, Some (WrapError ("failed to calculate checksum for " ++ path ++ ": ")
                        (PathError "open" path e))))
  /\ (forall path d st e sofar,
         sys_readfile sys path = inr (ReadFailed e sofar) ->
         isIgnored path ignorePatterns rootDir = (false, None) ->
         IsDir d = false ->
         calculateChecksums_func1 sys rootDir ignorePatterns st path (Some d) None
         = (st, Some (WrapError ("failed to calculate checksum for " ++ path ++ ": ")
                        (PathError "read" path e))))
  /\ (forall path d st err,
         calculateChecksums_func1 sys rootDir ignorePatterns st path d (Some err)
         = (st, Some err))
  /\ (forall args m err,
         filepath.Abs (os.Getwd sys) (flag_String (flag_dir args) ".")
         = (rootDir, None) ->
         ignorePatterns = ignorePatternsOf args ->
         calculateChecksums fuel sys rootDir ignorePatterns = Some (m, Some err) ->
         main fuel sys args
         = Some (mkOutcome [Println "Error calculating checksums:" err] None None)).
Proof.
  repeat split.
  - intros e He. unfold calculateChecksums, WalkDir, os.Lstat. rewrite He.
    reflexivity.
  - intros t Hm Hfuel Hun.
    rewrite (calculateChecksums_mounted sys _ _ t) by assumption.
    destruct (unreadable_fails rootDir ignorePatterns t rootDir Nil Hun)
      as [st' [err E]].
    exists err. split.
    + eapply hashTree_error; eauto.
    + rewrite E. reflexivity.
  - intros path d st e Hread Hig Hd. unfold calculateChecksums_func1.
    rewrite Hig, Hd. unfold generateSHA1Checksum, os.ReadFile. rewrite Hread.
    reflexivity.
  - intros path d st e sofar Hread Hig Hd. unfold calculateChecksums_func1.
    rewrite Hig, Hd. unfold generateSHA1Checksum, os.ReadFile. rewrite Hread.
    reflexivity.
  - intros args m err HAbs Hpat Hcalc. unfold main. rewrite HAbs.
    unfold ignorePatternsOf in Hpat. cbv zeta in Hpat. rewrite <- Hpat, Hcalc.
    reflexivity.
Qed.

Lemma errors_abort_witness :
  (exists err,
      walkError err
      /\ calculateChecksums 4 (systemOf "/" "/r" ignoreTree) "/r" []
         = Some (Nil, Some (WrapError "error walking the directory: " err)))
  /\ main 4 (systemOf "/" "/r" ignoreTree) (mkFlags (Some "/r") None None)
     = Some (mkOutcome
               [Println "Error calculating checksums:"
                  (WrapError "error walking the directory: "
                     (PathError "open" "/r/build/locked" EACCES))]
               None None)
  /\ main 2 (systemOf "/" "/r" linkTree) (mkFlags (Some "/r") None None)
     = Some (mkOutcome
               ["Error calculating checksums: error walking the directory: failed to calculate checksum for /r/link-dir: read /r/link-dir: is a directory"]
               None None).
Proof.
  destruct (errors_abort (systemOf "/" "/r" ignoreTree) "/r" [] 4)
    as [_ [Htree [_ [_ [_ Hmain]]]]].
  destruct (errors_abort (systemOf "/" "/r" linkTree) "/r" [] 2)
    as [_ [_ [_ [_ [_ Hlink]]]]].
  split; [| split].
  - apply (Htree ignoreTree).
    + show_mounted.
    + vm_compute. lia.
    + reflexivity.
  - apply (Hmain _ Nil); reflexivity.
  - exact (eq_trans
             (Hlink (mkFlags (Some "/r") None None) Nil _ eq_refl eq_refl eq_refl)
             eq_refl).
Defined.

(** ** Absolute paths *)

Lemma IsAbs_String path :
  filepath.IsAbs path = true -> exists rest, path = String "/" rest.
Proof.
  destruct path as [| c rest]; [discriminate |].
  unfold filepath.IsAbs, strings.HasPrefix. cbn [String.prefix].
  destruct (ascii_dec "/" c) as [<- | ]; [eauto | discriminate].
Qed.

Lemma cleanElems_rooted elems :
  forall stack,
    ~ In ".." stack -> ~ In ".." (filepath.cleanElems true elems stack).
Proof.
  induction elems as [| e rest IH]; intros stack Hs; cbn [filepath.cleanElems].
  - rewrite <- in_rev. exact Hs.
  - destruct ((e =? "") || (e =? ".")); [auto |].
    destruct (e =? "..") eqn:Edd.
    + destruct stack as [| top below]; [auto |].
      destruct (top =? "..") eqn:Etop.
      * apply String.eqb_eq in Etop. subst. exfalso. apply Hs. left. reflexivity.
      * apply IH. intros Hin. apply Hs. right. exact Hin.
    + apply IH. intros [H | H]; [| auto].
      subst. rewrite String.eqb_refl in Edd. discriminate.
Qed.

Lemma parts_abs path :
  filepath.IsAbs path = true ->
  exists elems, filepath.parts path = (true, elems) /\ ~ In ".." elems.
Proof.
  intros H. unfold filepath.parts. rewrite H. eexists. split; [reflexivity |].
  apply cleanElems_rooted. intros [].
Qed.

Lemma dropCommon_base base :
  forall targ x, In x (fst (filepath.dropCommon base targ)) -> In x base.
Proof.
  induction base as [| b base' IH]; intros [| t targ'] x;
    cbn [filepath.dropCommon fst]; auto.
  destruct (b =? t); cbn [fst]; auto.
  intros H. right. eapply IH. exact H.
Qed.

(** Relating two absolute paths cannot fail. *)
Lemma Rel_abs base targ :
  filepath.IsAbs base = true -> filepath.IsAbs targ = true ->
  snd (filepath.Rel base targ) = None.
Proof.
  intros Hb Ht. unfold filepath.Rel.
  destruct (parts_abs base Hb) as [bs [-> Hbs]].
  destruct (parts_abs targ Ht) as [ts [-> _]].
  destruct (filepath.Clean targ =? filepath.Clean base); [reflexivity |].
  cbn [Bool.eqb negb].
  pose proof (dropCommon_base bs ts) as Hin.
  destruct (filepath.dropCommon bs ts) as [[| b l1] l2]; try reflexivity.
  cbn [fst snd] in *.
  destruct (b =? "..") eqn:E; [| reflexivity].
  apply String.eqb_eq in E. subst. exfalso. apply Hbs, Hin. left. reflexivity.
Qed.

Lemma prefix_empty s : String.prefix "" s = true.
Proof. destruct s; reflexivity. Qed.

Lemma IsAbs_slash rest : filepath.IsAbs (String "/" rest) = true.
Proof.
  unfold filepath.IsAbs, strings.HasPrefix. cbn [String.prefix].
  destruct (ascii_dec "/" "/") as [_ | H]; [apply prefix_empty | congruence].
Qed.

Lemma IsAbs_Clean path :
  filepath.IsAbs path = true -> filepath.IsAbs (filepath.Clean path) = true.
Proof.
  intros H. unfold filepath.Clean. destruct (parts_abs path H) as [elems [-> _]].
  apply IsAbs_slash.
Qed.

Lemma IsAbs_Join path name :
  filepath.IsAbs path = true -> filepath.IsAbs (filepath.Join [path; name]) = true.
Proof.
  intros H. destruct (IsAbs_String path H) as [rest ->].
  unfold filepath.Join. cbn [String.eqb].
  apply IsAbs_Clean. apply IsAbs_slash.
Qed.

Lemma isIgnored_abs path ignorePatterns rootDir :
  filepath.IsAbs rootDir = true -> filepath.IsAbs path = true ->
  snd (isIgnored path ignorePatterns rootDir) = None.
Proof.
  intros Hr Hp. rewrite isIgnored_Rel.
  pose proof (Rel_abs rootDir path Hr Hp) as H.
  destruct (filepath.Rel rootDir path) as [rel [err |]]; [discriminate | reflexivity].
Qed.

(** ** Directories and files *)

Section Entries.

Variable rootDir : string.
Variable ignorePatterns : list string.

(** Every entry the walk adds to the manifest is that of a readable
    file of the tree that is not ignored. *)
Lemma hashTree_elements n :
  forall path st st' err c,
    hashTree rootDir ignorePatterns path n st = (st', err) ->
    In c (elements st') ->
    In c (elements st)
    \/ exists p data,
        In (p, data) (filesOf path n)
        /\ ignored rootDir ignorePatterns p = false
        /\ c = entryFor rootDir p data.
Proof.
  induction n as [content | entries rerr IH] using node_ind';
    intros path st st' err c; cbn [hashTree filesOf];
    destruct (isIgnored path ignorePatterns rootDir) as [[|] [e0 |]] eqn:Eig;
    try solve [inversion 1; subst; auto].
  - destruct content as [data | e]; inversion 1; subst; auto.
    cbn [elements append]. rewrite in_app_iff. intros [Hc | [Hc | []]]; auto.
    right. exists path, data. repeat split; auto.
    + left. reflexivity.
    + unfold ignored. rewrite Eig. reflexivity.
  - destruct rerr as [e |]; [inversion 1; subst; auto |].
    clear Eig. revert st.
    induction IH as [| e l He _ IHl]; intros st; [inversion 1; subst; auto |].
    destruct (hashTree rootDir ignorePatterns (filepath.Join [path; fst e]) (snd e) st)
      as [st1 [err1 |]] eqn:E1.
    + intros E2 Hc. inversion E2; subst.
      destruct (He _ _ _ _ _ E1 Hc) as [Hin | [p [data [H1 H2]]]]; auto.
      right. exists p, data. split; [apply in_or_app; auto | exact H2].
    + intros E2 Hc. destruct (IHl _ E2 Hc) as [Hin | [p [data [H1 H2]]]].
      * destruct (He _ _ _ _ _ E1 Hin) as [Hin' | [p [data [H1 H2]]]]; auto.
        right. exists p, data. split; [apply in_or_app; auto | exact H2].
      * right. exists p, data. split; [apply in_or_app; auto | exact H2].
Qed.

(** A tree without files leaves the manifest as it is. *)
Lemma hashTree_no_file n :
  forall path st,
    hasFile n = false ->
    fst (hashTree rootDir ignorePatterns path n st) = st.
Proof.
  induction n as [content | entries rerr IH] using node_ind';
    intros path st; cbn [hasFile hashTree]; [discriminate |].
  destruct (isIgnored path ignorePatterns rootDir) as [[|] [e0 |]];
    try reflexivity.
  destruct rerr as [e |]; [reflexivity |].
  revert st. induction IH as [| e l He _ IHl]; intros st; [reflexivity |].
  intros H. apply orb_false_iff in H. destruct H as [H1 H2].
  specialize (He (filepath.Join [path; fst e]) st H1).
  destruct (hashTree rootDir ignorePatterns (filepath.Join [path; fst e]) (snd e) st)
    as [st1 [err1 |]]; cbn [fst] in *; subst; [reflexivity | auto].
Qed.

(** A tree of readable directories below an absolute root is walked
    without an error. *)
Lemma hashTree_dirs_ok n :
  forall path st,
    filepath.IsAbs rootDir = true -> filepath.IsAbs path = true ->
    hasFile n = false -> dirsReadable n = true ->
    snd (hashTree rootDir ignorePatterns path n st) = None.
Proof.
  induction n as [content | entries rerr IH] using node_ind';
    intros path st Hroot Hpath; cbn [hasFile dirsReadable hashTree];
    [discriminate |].
  pose proof (isIgnored_abs path ignorePatterns rootDir Hroot Hpath) as Hig.
  destruct (isIgnored path ignorePatterns rootDir) as [[|] [e0 |]];
    try discriminate; try reflexivity.
  destruct rerr as [e |]; [discriminate |]. cbn [andb].
  revert st. induction IH as [| e l He _ IHl]; intros st; [reflexivity |].
  intros H1 H2. apply orb_false_iff in H1. apply andb_true_iff in H2.
  destruct H1 as [H1 H1'], H2 as [H2 H2'].
  specialize (He (filepath.Join [path; fst e]) st Hroot
                 (IsAbs_Join path (fst e) Hpath) H1 H2).
  destruct (hashTree rootDir ignorePatterns (filepath.Join [path; fst e]) (snd e) st)
    as [st1 [err1 |]]; [discriminate | auto].
Qed.

End Entries.

(** C5: every entry of the manifest is that of a non-directory entry of
    the tree that was read and is not ignored, so no directory
    contributes one; for a tree of directories only the manifest is the
    empty (nil) sequence, and the run succeeds when the directories are
    readable and the root is absolute. *)
Theorem directories_not_listed sys rootDir ignorePatterns t fuel :
  mounted sys rootDir t -> depth t < fuel ->
  exists m err,
    calculateChecksums fuel sys rootDir ignorePatterns = Some (m, err)
    /\ (forall c,
           In c (elements m) ->
           exists path data,
             In (path, data) (filesOf rootDir t)
             /\ ignored rootDir ignorePatterns path = false
             /\ c = entryFor rootDir path data)
    /\ (hasFile t = false ->
        m = Nil
        /\ (dirsReadable t = true -> filepath.IsAbs rootDir = true -> err = None)).
Proof.
  intros Hm Hfuel.
  rewrite (calculateChecksums_mounted sys _ _ t) by assumption.
  destruct (hashTree rootDir ignorePatterns rootDir t Nil) as [m [err |]] eqn:E;
    cbn [walked]; do 2 eexists; (split; [reflexivity |]); split.
  - intros c [].
  - intros Hno. split; [reflexivity |]. intros Hread Habs.
    pose proof (hashTree_dirs_ok rootDir ignorePatterns t rootDir Nil
                  Habs Habs Hno Hread) as H.
    rewrite E in H. discriminate.
  - intros c Hc.
    destruct (hashTree_elements _ _ _ _ _ _ _ _ E Hc) as [[] | H]. exact H.
  - intros Hno. split; [| reflexivity].
    pose proof (hashTree_no_file rootDir ignorePatterns t rootDir Nil Hno) as H.
    rewrite E in H. exact H.
Qed.

Lemma directories_not_listed_witness :
  calculateChecksums 4 (systemOf "/" "/r" dirsOnlyTree) "/r" [] = Some (Nil, None).
Proof.
  assert (Hm : mounted (systemOf "/" "/r" dirsOnlyTree) "/r" dirsOnlyTree)
    by show_mounted.
  assert (Hd : depth dirsOnlyTree < 4) by (vm_compute; lia).
  destruct (directories_not_listed (systemOf "/" "/r" dirsOnlyTree) "/r" []
              dirsOnlyTree 4 Hm Hd) as [m [err [Heq [_ Hno]]]].
  destruct (Hno eq_refl) as [-> Herr].
  rewrite (Herr eq_refl eq_refl) in Heq. exact Heq.
Defined.

(** ** Determinism *)

(** C7: the checksum string is a function of the content read, wherever
    the file is, and two runs on systems that show the same tree at the
    root return the same result, entry for entry, whatever else differs
    between the systems and however much fuel each run has. *)
Theorem checksums_deterministic :
  (forall sys1 sys2 path1 path2 data,
      sys_readfile sys1 path1 = inl data ->
      sys_readfile sys2 path2 = inl data ->
      generateSHA1Checksum sys1 path1 = generateSHA1Checksum sys2 path2)
  /\ (forall sys1 sys2 rootDir ignorePatterns t fuel1 fuel2,
         mounted sys1 rootDir t -> mounted sys2 rootDir t ->
         depth t < fuel1 -> depth t < fuel2 ->
         calculateChecksums fuel1 sys1 rootDir ignorePatterns
         = calculateChecksums fuel2 sys2 rootDir ignorePatterns).
Proof.
  split.
  - intros sys1 sys2 path1 path2 data H1 H2.
    unfold generateSHA1Checksum, os.ReadFile. rewrite H1, H2. reflexivity.
  - intros sys1 sys2 rootDir ignorePatterns t fuel1 fuel2 H1 H2 Hf1 Hf2.
    rewrite (calculateChecksums_mounted sys1 _ _ t) by assumption.
    rewrite (calculateChecksums_mounted sys2 _ _ t) by assumption.
    reflexivity.
Qed.

Lemma checksums_deterministic_witness :
  generateSHA1Checksum (systemOf "/" "/r" exampleTree) "/r/a.txt"
  = generateSHA1Checksum (systemOf "/" "/q" exampleTree) "/q/a.txt"
  /\ calculateChecksums 3 (systemOf "/" "/r" exampleTree) "/r" []
     = calculateChecksums 7 (systemOf "/home" "/r" exampleTree) "/r" [].
Proof.
  destruct checksums_deterministic as [Hfile Hrun]. split.
  - apply (Hfile _ _ _ _ (bytes "hello")); reflexivity.
  - apply (Hrun _ _ _ _ exampleTree); try show_mounted; vm_compute; lia.
Defined.

(** ** The output file *)

(** A write that succeeds leaves the file with the data. *)
Lemma WriteFile_ok sys name data held :
  os.WriteFile sys name data = (held, None) -> held = Some data.
Proof.
  unfold os.WriteFile.
  destruct (sys_writefile sys name data) as [[e | e partial | e partial] |];
    inversion 1; reflexivity.
Qed.

(** A write that fails is a failure of the system's, reported under its
    operation, and leaves what that failure left. *)
Lemma WriteFile_error sys name data partial err :
  os.WriteFile sys name data = (partial, Some err) ->
  exists f,
    sys_writefile sys name data = Some f
    /\ err = WriteFault_error name f
    /\ partial = match f with
                 | CreateFailed _ => None
                 | WriteFailed _ p | CloseFailed _ p => Some p
                 end.
Proof.
  unfold os.WriteFile.
  destruct (sys_writefile sys name data) as [[e | e p | e p] |];
    inversion 1; subst; eexists; repeat split.
Qed.

(** With enough fuel, [main] on a project directory that shows a tree
    returns, and leaves [outcomeOn]. *)
Lemma main_mounted sys args fuel projectDir t :
  filepath.Abs (os.Getwd sys) (flag_String (flag_dir args) ".") = (projectDir, None) ->
  mounted sys projectDir t -> depth t < fuel ->
  main fuel sys args = Some (outcomeOn sys args projectDir t).
Proof.
  intros HAbs Hm Hfuel. unfold main, outcomeOn. rewrite HAbs.
  pose proof (calculateChecksums_mounted sys projectDir (ignorePatternsOf args)
                t fuel Hm Hfuel) as Hcalc.
  unfold ignorePatternsOf in *. cbv zeta in *. rewrite Hcalc.
  match goal with |- context [hashTree ?r ?p ?q ?n ?st] =>
    destruct (hashTree r p q n st) as [checksums [err |]] end;
    cbn [walked]; [reflexivity |].
  unfold saveToFile, MarshalIndent. cbn [fst].
  match goal with |- context [os.WriteFile ?s ?n ?d] =>
    destruct (os.WriteFile s n d) as [held [err |]] eqn:E end; [reflexivity |].
  apply WriteFile_ok in E. subst held. reflexivity.
Qed.

(** C8: a run that writes a file writes it at the root directory, made
    absolute, joined with the [--output] value, which is
    [checksums.json] when the flag is not given; and on a project
    directory that shows a tree the run returns, and writes that file
    whenever the walk and the write succeed. *)
Theorem output_path sys args fuel :
  (forall out path data,
      main fuel sys args = Some out ->
      written out = Some (path, data) ->
      exists projectDir,
        filepath.Abs (os.Getwd sys) (flag_String (flag_dir args) ".")
        = (projectDir, None)
        /\ path
           = filepath.Join [projectDir; flag_String (flag_output args) "checksums.json"]
        /\ (flag_output args = None ->
            path = filepath.Join [projectDir; "checksums.json"])
        /\ (forall outputFile,
               flag_output args = Some outputFile ->
               path = filepath.Join [projectDir; outputFile]))
  /\ (forall projectDir t,
         filepath.Abs (os.Getwd sys) (flag_String (flag_dir args) ".")
         = (projectDir, None) ->
         mounted sys projectDir t -> depth t < fuel ->
         main fuel sys args = Some (outcomeOn sys args projectDir t)
         /\ (forall checksums,
                hashTree projectDir (ignorePatternsOf args) projectDir t Nil
                = (checksums, None) ->
                sys_writefile sys
                  (filepath.Join
                     [projectDir; flag_String (flag_output args) "checksums.json"])
                  (fst (MarshalIndent checksums)) = None ->
                written (outcomeOn sys args projectDir t)
                = Some (filepath.Join
                          [projectDir;
                           flag_String (flag_output args) "checksums.json"],
                        fst (MarshalIndent checksums)))).
Proof.
  split.
  - intros out path data. unfold main.
    destruct (filepath.Abs (os.Getwd sys) (flag_String (flag_dir args) "."))
      as [projectDir [err |]]; [inversion 1; subst; discriminate |].
    match goal with |- context [calculateChecksums ?f ?s ?r ?p] =>
      destruct (calculateChecksums f s r p) as [[checksums [err |]] |] end;
      try discriminate; [inversion 1; subst; discriminate |].
    unfold saveToFile, MarshalIndent.
    match goal with |- context [os.WriteFile ?s ?n ?d] =>
      destruct (os.WriteFile s n d) as [held [err |]] eqn:E end;
      inversion 1; subst; cbn [written]; [discriminate |].
    apply WriteFile_ok in E. subst held. cbn [fileNamed].
    inversion 1; subst. exists projectDir.
    split; [reflexivity |]. split; [reflexivity |].
    split; [intros -> | intros o ->]; reflexivity.
  - intros projectDir t HAbs Hm Hfuel.
    split; [apply main_mounted; assumption |].
    intros checksums Hwalk Hwrite. unfold outcomeOn, os.WriteFile.
    rewrite Hwalk, Hwrite. reflexivity.
Qed.

Lemma output_path_witness :
  main 3 (systemOf "/home" "/home/r" exampleTree) (mkFlags (Some "r") None None)
  = Some (outcomeOn (systemOf "/home" "/home/r" exampleTree)
            (mkFlags (Some "r") None None) "/home/r" exampleTree)
  /\ written (outcomeOn (systemOf "/home" "/home/r" exampleTree)
                (mkFlags (Some "r") None None) "/home/r" exampleTree)
     = Some ("/home/r/checksums.json",
             fst (MarshalIndent
                    (Slice [entryFor "/home/r" "/home/r/a.txt" (bytes "hello");
                            entryFor "/home/r" "/home/r/sub/b.txt" (bytes "world")])))
  /\ exists projectDir,
      filepath.Abs (os.Getwd (systemOf "/home" "/home/r" exampleTree)) "r"
      = (projectDir, None)
      /\ "/home/r/checksums.json" = filepath.Join [projectDir; "checksums.json"].
Proof.
  destruct (output_path (systemOf "/home" "/home/r" exampleTree)
              (mkFlags (Some "r") None None) 3) as [Hany Htree].
  assert (Hm : mounted (systemOf "/home" "/home/r" exampleTree) "/home/r" exampleTree)
    by show_mounted.
  assert (Hd : depth exampleTree < 3) by (vm_compute; lia).
  destruct (Htree "/home/r" exampleTree eq_refl Hm Hd) as [Hmain Hwritten].
  split; [exact Hmain |]. split.
  - apply (Hwritten _ eq_refl eq_refl).
  - destruct (Hany _ "/home/r/checksums.json" _ Hmain (Hwritten _ eq_refl eq_refl))
      as [projectDir [H1 [H2 _]]].
    exists projectDir. split; [exact H1 | exact H2].
Defined.

(** ** An empty pattern *)

Lemma Split_nonempty s sep : strings.Split s sep <> [].
Proof.
  destruct s as [| c s]; cbn [strings.Split]; [discriminate |].
  destruct (Ascii.eqb c sep); [discriminate |].
  destruct (strings.Split s sep); discriminate.
Qed.

(** Splitting at a separator splits both sides. *)
Lemma Split_app a b sep :
  strings.Split (a ++ String sep b) sep
  = (strings.Split a sep ++ strings.Split b sep)%list.
Proof.
  induction a as [| c a IH].
  - change ("" ++ String sep b)%string with (String sep b).
    cbn [strings.Split]. rewrite Ascii.eqb_refl. reflexivity.
  - change (String c a ++ String sep b)%string with (String c (a ++ String sep b)).
    cbn [strings.Split]. rewrite IH.
    destruct (Ascii.eqb c sep); [reflexivity |].
    pose proof (Split_nonempty a sep) as Hne.
    destruct (strings.Split a sep) as [| piece rest]; [congruence | reflexivity].
Qed.

Lemma Rel_self rootDir : filepath.Rel rootDir rootDir = (".", None).
Proof.
  unfold filepath.Rel. destruct (filepath.parts rootDir) as [rooted elems].
  rewrite String.eqb_refl. reflexivity.
Qed.

Lemma isIgnored_empty_pattern path ignorePatterns rootDir :
  In "" ignorePatterns ->
  snd (filepath.Rel rootDir path) = None ->
  isIgnored path ignorePatterns rootDir = (true, None).
Proof.
  intros Hin Hrel. rewrite isIgnored_Rel.
  destruct (filepath.Rel rootDir path) as [rel [err |]]; [discriminate |].
  f_equal. apply existsb_prefix. exists "". split; [exact Hin | apply prefix_empty].
Qed.

Lemma calculateChecksums_empty_pattern sys fuel rootDir ignorePatterns info :
  In "" ignorePatterns ->
  sys_lstat sys rootDir = inl info ->
  calculateChecksums (S fuel) sys rootDir ignorePatterns = Some (Nil, None).
Proof.
  intros Hin Hstat.
  unfold calculateChecksums, WalkDir, os.Lstat. rewrite Hstat.
  cbn [walkDir]. unfold calculateChecksums_func1 at 1.
  rewrite (isIgnored_empty_pattern rootDir ignorePatterns rootDir Hin)
    by (rewrite Rel_self; reflexivity).
  unfold afterSkip. destruct (IsDir info); reflexivity.
Qed.

(** C9: a leading, trailing or doubled comma in the [--ignore] value
    gives an empty pattern; an empty pattern is a prefix of every
    relative path, that of the root included, so the walk ends at the
    root and the run produces the empty (nil) manifest whatever the tree
    holds. *)
Theorem empty_pattern_ignores_all :
  (forall a b,
      In "" (strings.Split (String "," a) ",")
      /\ In "" (strings.Split (a ++ ",") ",")
      /\ In "" (strings.Split (a ++ ",," ++ b) ","))
  /\ (forall path ignorePatterns rootDir,
         In "" ignorePatterns ->
         snd (filepath.Rel rootDir path) = None ->
         isIgnored path ignorePatterns rootDir = (true, None))
  /\ (forall sys fuel args ignorePaths projectDir info,
         flag_ignore args = Some ignorePaths ->
         ignorePaths <> "" ->
         In "" (strings.Split ignorePaths ",") ->
         filepath.Abs (os.Getwd sys) (flag_String (flag_dir args) ".")
         = (projectDir, None) ->
         sys_lstat sys projectDir = inl info ->
         calculateChecksums (S fuel) sys projectDir (ignorePatternsOf args)
         = Some (Nil, None)
         /\ main (S fuel) sys args
            = Some
                (let checksumsFilePath :=
                   filepath.Join
                     [projectDir; flag_String (flag_output args) "checksums.json"] in
                 match os.WriteFile sys checksumsFilePath "null" with
                 | (partial, Some err) =>
                     mkOutcome
                       [Println "Error saving checksums:"
                          (WrapError "failed to write checksums to file: " err)]
                       None (fileNamed checksumsFilePath partial)
                 | (_, None) =>
                     mkOutcome [] (Some (checksumsFilePath, "null")) None
                 end)).
Proof.
  split; [| split].
  - intros a b. repeat split.
    + cbn [strings.Split]. rewrite Ascii.eqb_refl. left. reflexivity.
    + rewrite Split_app. apply in_or_app. right. left. reflexivity.
    + change (a ++ ",," ++ b)%string with (a ++ String "," (String "," b))%string.
      rewrite Split_app. apply in_or_app. right.
      cbn [strings.Split]. rewrite Ascii.eqb_refl. left. reflexivity.
  - exact isIgnored_empty_pattern.
  - intros sys fuel args ignorePaths projectDir info Hflag Hne Hin HAbs Hstat.
    assert (Hpat : ignorePatternsOf args = strings.Split ignorePaths ",").
    { unfold ignorePatternsOf. rewrite Hflag. cbn [flag_String].
      apply String.eqb_neq in Hne. rewrite Hne. reflexivity. }
    assert (Hcalc : calculateChecksums (S fuel) sys projectDir (ignorePatternsOf args)
                    = Some (Nil, None)).
    { rewrite Hpat. eapply calculateChecksums_empty_pattern; eauto. }
    split; [exact Hcalc |].
    unfold main. rewrite HAbs.
    unfold ignorePatternsOf in Hcalc. cbv zeta in Hcalc. rewrite Hcalc.
    unfold saveToFile, MarshalIndent. cbn [checksums_json json.encode].
    destruct (os.WriteFile sys _ "null") as [held [err |]] eqn:E; [reflexivity |].
    apply WriteFile_ok in E. subst held. reflexivity.
Qed.

Lemma empty_pattern_ignores_all_witness :
  main 1 (systemOf "/" "/r" exampleTree) (mkFlags (Some "/r") None (Some "sub,"))
  = Some (mkOutcome [] (Some ("/r/checksums.json", "null")) None).
Proof.
  destruct empty_pattern_ignores_all as [Hsplit [_ Hrun]].
  destruct (Hrun (systemOf "/" "/r" exampleTree) 0
              (mkFlags (Some "/r") None (Some "sub,")) "sub," "/r"
              (mkDirEntry "/r" true) eq_refl) as [_ Hmain].
  - discriminate.
  - apply (Hsplit "sub" "").
  - reflexivity.
  - reflexivity.
  - rewrite Hmain. reflexivity.
Defined.

(** ** The order of the manifest *)

Lemma insert_HdRel d a l :
  entryLe a d -> HdRel entryLe a l -> HdRel entryLe a (os.insert d l).
Proof.
  intros Had Hal. destruct l as [| d' rest]; cbn [os.insert].
  - constructor. exact Had.
  - destruct (String.leb (Name d) (Name d')); constructor.
    + exact Had.
    + inversion Hal; assumption.
Qed.

Lemma insert_Sorted d l : Sorted entryLe l -> Sorted entryLe (os.insert d l).
Proof.
  induction 1 as [| a l Hl IH Ha]; cbn [os.insert].
  - repeat constructor.
  - destruct (String.leb (Name d) (Name a)) eqn:E.
    + constructor; [constructor; assumption | constructor; exact E].
    + constructor; [exact IH |].
      apply insert_HdRel; [| exact Ha].
      destruct (String.leb_total (Name d) (Name a)) as [H | H];
        [congruence | exact H].
Qed.

(** [os.ReadDir] returns the entries in the order of their names. *)
Lemma sortByName_Sorted dirs : Sorted entryLe (os.sortByName dirs).
Proof.
  induction dirs as [| d rest IH]; cbn [os.sortByName].
  - constructor.
  - apply insert_Sorted. exact IH.
Qed.

Lemma insert_Permutation d l : Permutation (d :: l) (os.insert d l).
Proof.
  induction l as [| d' rest IH]; cbn [os.insert]; [reflexivity |].
  destruct (String.leb (Name d) (Name d')); [reflexivity |].
  rewrite perm_swap. constructor. exact IH.
Qed.

(** It returns all of them. *)
Lemma sortByName_Permutation dirs : Permutation dirs (os.sortByName dirs).
Proof.
  induction dirs as [| d rest IH]; cbn [os.sortByName]; [constructor |].
  rewrite <- insert_Permutation. constructor. exact IH.
Qed.

Lemma Sorted_entryOf entries :
  Sorted entryLe (map entryOf entries) -> Sorted nameLe entries.
Proof.
  induction entries as [| e l IH]; [constructor |].
  cbn [map]. inversion 1 as [| ? ? Hs Hh]; subst. constructor; [auto |].
  destruct l as [| e' l']; [constructor |].
  cbn [map] in Hh. inversion Hh; subst. constructor. assumption.
Qed.

(** A tree the system shows has the entries of every directory in the
    order of their names. *)
Lemma represents_sortedTree sys n :
  forall path, represents sys path n -> sortedTree n.
Proof.
  induction n as [content | entries rerr IH] using node_ind';
    intros path Hrep; [exact I |].
  apply represents_Dir in Hrep. destruct Hrep as [Hread Hall].
  cbn [sortedTree]. split.
  - apply Sorted_entryOf. unfold os.ReadDir in Hread.
    destruct (sys_readdir sys path) as [dirs err]. injection Hread as Hd He.
    rewrite <- Hd. apply sortByName_Sorted.
  - clear Hread. induction IH as [| e l He _ IHl]; [exact I |].
    inversion Hall as [| ? ? Ha Hb]; subst.
    split; [eapply He; exact Ha | exact (IHl Hb)].
Qed.

(** The order of names is transitive. *)
Lemma compare_trans s1 :
  forall s2 s3,
    String.compare s1 s2 <> Gt -> String.compare s2 s3 <> Gt ->
    String.compare s1 s3 <> Gt.
Proof.
  induction s1 as [| a s1 IH]; intros [| b s2] [| c s3]; cbn [String.compare];
    try congruence.
  unfold Ascii.compare.
  destruct (N.compare_spec (N_of_ascii a) (N_of_ascii b)) as [Hab | Hab | Hab];
    destruct (N.compare_spec (N_of_ascii b) (N_of_ascii c)) as [Hbc | Hbc | Hbc];
    destruct (N.compare_spec (N_of_ascii a) (N_of_ascii c)) as [Hac | Hac | Hac];
    intros H1 H2; try congruence; try (exfalso; lia).
  apply IH with (s2 := s2); assumption.
Qed.

Lemma leb_trans s1 s2 s3 :
  String.leb s1 s2 = true -> String.leb s2 s3 = true -> String.leb s1 s3 = true.
Proof.
  unfold String.leb. intros H1 H2.
  pose proof (compare_trans s1 s2 s3) as H.
  destruct (String.compare s1 s2), (String.compare s2 s3), (String.compare s1 s3);
    try reflexivity; try discriminate; exfalso; apply H; congruence.
Qed.

Lemma entryLe_trans a b c : entryLe a b -> entryLe b c -> entryLe a c.
Proof. unfold entryLe. apply leb_trans. Qed.

Lemma sortByName_StronglySorted dirs : StronglySorted entryLe (os.sortByName dirs).
Proof.
  apply Sorted_StronglySorted; [| apply sortByName_Sorted].
  intros a b c. apply entryLe_trans.
Qed.

(** Two sorted listings of the same entries, no two with the same name,
    are the same listing. *)
Lemma sorted_unique l1 :
  forall l2,
    StronglySorted entryLe l1 -> StronglySorted entryLe l2 ->
    Permutation l1 l2 -> NoDup (map Name l1) -> l1 = l2.
Proof.
  induction l1 as [| a l1 IH]; intros l2 H1 H2 Hperm Hnd.
  - apply Permutation_nil in Hperm. congruence.
  - destruct l2 as [| b l2];
      [apply Permutation_sym, Permutation_nil in Hperm; discriminate |].
    inversion H1 as [| ? ? Hs1 Ha]; subst. inversion H2 as [| ? ? Hs2 Hb]; subst.
    rewrite Forall_forall in Ha, Hb.
    assert (Hab : a = b).
    { assert (Hina : In a (b :: l2))
        by (eapply Permutation_in; [exact Hperm | left; reflexivity]).
      assert (Hinb : In b (a :: l1))
        by (eapply Permutation_in;
            [apply Permutation_sym; exact Hperm | left; reflexivity]).
      destruct Hina as [Hina | Hina]; [congruence |].
      destruct Hinb as [Hinb | Hinb]; [congruence |].
      pose proof (String.leb_antisym _ _ (Ha _ Hinb) (Hb _ Hina)) as Hname.
      inversion Hnd as [| ? ? Hnotin _]; subst. exfalso. apply Hnotin.
      rewrite Hname. apply in_map. exact Hinb. }
    subst b. f_equal. apply IH; auto.
    + eapply Permutation_cons_inv. exact Hperm.
    + inversion Hnd; assumption.
Qed.

(** The order the kernel lists a directory in does not show through
    [os.ReadDir]. *)
Lemma sortByName_kernel_order dirs1 dirs2 :
  Permutation dirs1 dirs2 -> NoDup (map Name dirs1) ->
  os.sortByName dirs1 = os.sortByName dirs2.
Proof.
  intros Hperm Hnd. apply sorted_unique.
  - apply sortByName_StronglySorted.
  - apply sortByName_StronglySorted.
  - rewrite <- (sortByName_Permutation dirs1), <- (sortByName_Permutation dirs2).
    exact Hperm.
  - eapply Permutation_NoDup; [| exact Hnd].
    apply Permutation_map. apply sortByName_Permutation.
Qed.

Section Order.

Variable rootDir : string.
Variable ignorePatterns : list string.

(** A walk that succeeds appends the entries of the files in the order
    of the tree. *)
Lemma hashTree_hashed n :
  forall path st st',
    hashTree rootDir ignorePatterns path n st = (st', None) ->
    elements st' = (elements st ++ hashed rootDir ignorePatterns path n)%list.
Proof.
  induction n as [content | entries rerr IH] using node_ind';
    intros path st st'; cbn [hashTree hashed]; unfold ignored;
    destruct (isIgnored path ignorePatterns rootDir) as [[|] [e0 |]];
    cbn [fst]; try discriminate;
    try solve [inversion 1; subst; rewrite app_nil_r; reflexivity].
  - destruct content as [data | e]; inversion 1; subst. reflexivity.
  - destruct rerr as [e |]; [discriminate |].
    revert st. induction IH as [| e l He _ IHl]; intros st;
      [inversion 1; subst; rewrite app_nil_r; reflexivity |].
    destruct (hashTree rootDir ignorePatterns (filepath.Join [path; fst e]) (snd e) st)
      as [st1 [err1 |]] eqn:E1; [discriminate |].
    intros E2. rewrite (IHl _ E2), (He _ _ _ E1), app_assoc. reflexivity.
Qed.

End Order.

(** C10: the manifest of a successful run lists the files that were read
    in depth-first order, the entries of each directory in the order
    [os.ReadDir] gives them, which is the bytewise lexicographic order of
    their names whatever order the kernel lists them in; the order is
    therefore a function of the tree. *)
Theorem manifest_order sys rootDir ignorePatterns t fuel m :
  mounted sys rootDir t -> depth t < fuel ->
  calculateChecksums fuel sys rootDir ignorePatterns = Some (m, None) ->
  elements m = hashed rootDir ignorePatterns rootDir t
  /\ sortedTree t
  /\ (forall path,
         Sorted entryLe (fst (os.ReadDir sys path))
         /\ Permutation (fst (sys_readdir sys path)) (fst (os.ReadDir sys path)))
  /\ (forall sys' path,
         Permutation (fst (sys_readdir sys path)) (fst (sys_readdir sys' path)) ->
         NoDup (map Name (fst (sys_readdir sys path))) ->
         fst (os.ReadDir sys path) = fst (os.ReadDir sys' path)).
Proof.
  intros Hm Hfuel Hcalc.
  rewrite (calculateChecksums_mounted sys _ _ t) in Hcalc by assumption.
  destruct (hashTree rootDir ignorePatterns rootDir t Nil) as [m' [err |]] eqn:E;
    [discriminate |].
  inversion Hcalc; subst. split; [| split; [| split]].
  - apply (hashTree_hashed _ _ _ _ _ _ E).
  - destruct Hm as [_ Hrep]. eapply represents_sortedTree; eauto.
  - intros path. unfold os.ReadDir.
    destruct (sys_readdir sys path) as [dirs err]. cbn [fst].
    split; [apply sortByName_Sorted | apply sortByName_Permutation].
  - intros sys' path. unfold os.ReadDir.
    destruct (sys_readdir sys path) as [dirs err].
    destruct (sys_readdir sys' path) as [dirs' err']. cbn [fst].
    apply sortByName_kernel_order.
Qed.

Lemma manifest_order_witness :
  elements (Slice [entryFor "/r" "/r/a.txt" (bytes "hello");
                   entryFor "/r" "/r/sub/b.txt" (bytes "world")])
  = hashed "/r" [] "/r" exampleTree
  /\ sortedTree exampleTree.
Proof.
  assert (Hm : mounted (systemOf "/" "/r" exampleTree) "/r" exampleTree)
    by show_mounted.
  assert (Hd : depth exampleTree < 3) by (vm_compute; lia).
  destruct (manifest_order (systemOf "/" "/r" exampleTree) "/r" [] exampleTree 3
              _ Hm Hd eq_refl) as [H1 [H2 _]].
  split; [exact H1 | exact H2].
Defined.

(** ** Strings in the artifact *)

Lemma append_assoc (a b c : string) : ((a ++ b) ++ c = a ++ (b ++ c))%string.
Proof.
  induction a as [| x a IH]; [reflexivity |].
  change (String x ((a ++ b) ++ c) = String x (a ++ (b ++ c)))%string.
  rewrite IH. reflexivity.
Qed.

Lemma append_nil_r (a : string) : (a ++ "")%string = a.
Proof.
  induction a as [| x a IH]; [reflexivity |].
  change (String x (a ++ "") = String x a)%string. rewrite IH. reflexivity.
Qed.

Lemma append_length (a b : string) :
  String.length (a ++ b) = String.length a + String.length b.
Proof.
  induction a as [| x a IH]; [reflexivity |].
  change (S (String.length (a ++ b)) = S (String.length a + String.length b)).
  rewrite IH. reflexivity.
Qed.

Lemma prepend_Some pre s rest :
  json.prepend pre (Some (s, rest)) = Some ((pre ++ s)%string, rest).
Proof. reflexivity. Qed.

(** An escaped byte below 128 is read back as the byte. *)
Lemma scanString_escapeByte b tail :
  (json.code b <? 128)%N = true ->
  json.scanString (json.escapeByte b ++ tail)
  = json.prepend (String b "") (json.scanString tail).
Proof.
  destruct b as [[] [] [] [] [] [] [] []]; intros H;
    first [discriminate H | reflexivity].
Qed.

(** A byte from 128 on is read back as it is. *)
Lemma scanString_raw b tail :
  (json.code b <? 128)%N = false ->
  json.scanString (String b tail)
  = json.prepend (String b "") (json.scanString tail).
Proof.
  destruct b as [[] [] [] [] [] [] [] []]; intros H;
    first [discriminate H | reflexivity].
Qed.

Lemma between_high lo hi c :
  (128 <= lo)%N -> json.between lo hi c = true -> (json.code c <? 128)%N = false.
Proof.
  unfold json.between. intros Hlo H. apply andb_true_iff in H.
  destruct H as [H _]. apply N.leb_le in H. apply N.ltb_ge. lia.
Qed.

Lemma cont_high c : json.cont c = true -> (json.code c <? 128)%N = false.
Proof. apply between_high. lia. Qed.

Lemma lead3_high b c1 : json.lead3 b c1 = true -> (json.code c1 <? 128)%N = false.
Proof.
  unfold json.lead3, json.cont. rewrite !orb_true_iff, !andb_true_iff.
  intros [[[[_ H] | [_ H]] | [_ H]] | [_ H]];
    (eapply between_high; [| exact H]); lia.
Qed.

Lemma lead4_high b c1 : json.lead4 b c1 = true -> (json.code c1 <? 128)%N = false.
Proof.
  unfold json.lead4, json.cont. rewrite !orb_true_iff, !andb_true_iff.
  intros [[[_ H] | [_ H]] | [_ H]];
    (eapply between_high; [| exact H]); lia.
Qed.

Lemma code_eq c n : (json.code c =? n)%N = true -> c = ascii_of_N n.
Proof.
  intros H. apply N.eqb_eq in H. rewrite <- H. unfold json.code.
  symmetry. apply ascii_N_embedding.
Qed.

Lemma scanString_replacement tail :
  json.scanString (json.escapedReplacement ++ tail)
  = json.prepend replacement (json.scanString tail).
Proof. reflexivity. Qed.

(** What [appendString] writes between the quotes is read back, up to
    the closing quote, as the string with its ill-formed bytes
    replaced. *)
Lemma scanString_appendBody_bounded n :
  forall src rest,
    String.length src <= n ->
    json.scanString (json.appendBody src ++ String json.dquote rest)
    = Some (coerceUTF8 src, rest).
Proof.
  induction n as [| n IH]; intros src rest Hlen.
  - destruct src; [reflexivity | cbn [String.length] in Hlen; lia].
  - destruct src as [| b r]; [reflexivity |].
    cbn [String.length] in Hlen.
    assert (Hfallback :
              (json.code b <? 128)%N = false ->
              json.scanString ((json.escapedReplacement ++ json.appendBody r)
                                 ++ String json.dquote rest)
              = Some ((replacement ++ coerceUTF8 r)%string, rest)).
    { intros _. rewrite append_assoc, scanString_replacement.
      rewrite IH by lia. reflexivity. }
    cbn [json.appendBody coerceUTF8].
    destruct (json.code b <? 128)%N eqn:Eb.
    + rewrite append_assoc, scanString_escapeByte by exact Eb.
      rewrite IH by lia. reflexivity.
    + specialize (Hfallback eq_refl). unfold json.runeSize.
      destruct r as [| c1 r1]; [exact Hfallback |].
      destruct (json.lead2 b).
      { destruct (json.cont c1) eqn:Ec1; [| exact Hfallback].
        apply cont_high in Ec1.
        change (String b (String c1 (json.appendBody r1)) ++ String json.dquote rest)%string
          with (String b (String c1 (json.appendBody r1 ++ String json.dquote rest))).
        rewrite (scanString_raw b), (scanString_raw c1) by assumption.
        cbn [String.length] in Hlen. rewrite IH by lia. reflexivity. }
      destruct r1 as [| c2 r2]; [exact Hfallback |].
      destruct (json.lead3 b c1) eqn:E3.
      { destruct (json.cont c2) eqn:Ec2; [| exact Hfallback].
        apply cont_high in Ec2. apply lead3_high in E3.
        cbn [String.length] in Hlen.
        destruct ((json.code b =? 226)%N && (json.code c1 =? 128)%N
                  && ((json.code c2 =? 168)%N || (json.code c2 =? 169)%N)) eqn:Esep.
        - apply andb_true_iff in Esep. destruct Esep as [Esep E2].
          apply andb_true_iff in Esep. destruct Esep as [E0 E1].
          apply code_eq in E0, E1. subst b c1.
          apply orb_true_iff in E2.
          assert (Hr2 : String.length r2 <= n) by lia.
          destruct E2 as [E2 | E2]; apply code_eq in E2; subst c2;
            match goal with
            | |- json.scanString _ = Some (String ?x (String ?y (String ?z _)), _) =>
                change (json.prepend (String x (String y (String z "")))
                          (json.scanString
                             (json.appendBody r2 ++ String json.dquote rest))
                        = Some (String x (String y (String z (coerceUTF8 r2))), rest))
            end;
            rewrite (IH r2 rest Hr2); reflexivity.
        - change (String b (String c1 (String c2 (json.appendBody r2)))
                    ++ String json.dquote rest)%string
            with (String b (String c1 (String c2
                    (json.appendBody r2 ++ String json.dquote rest)))).
          rewrite (scanString_raw b), (scanString_raw c1), (scanString_raw c2)
            by assumption.
          rewrite IH by lia. reflexivity. }
      destruct r2 as [| c3 r3]; [exact Hfallback |].
      destruct (json.lead4 b c1) eqn:E4; [| exact Hfallback].
      destruct (json.cont c2 && json.cont c3) eqn:Ec; [| exact Hfallback].
      apply andb_true_iff in Ec. destruct Ec as [Ec2 Ec3].
      apply cont_high in Ec2, Ec3. apply lead4_high in E4.
      cbn [String.length] in Hlen.
      change (String b (String c1 (String c2 (String c3 (json.appendBody r3))))
                ++ String json.dquote rest)%string
        with (String b (String c1 (String c2 (String c3
                (json.appendBody r3 ++ String json.dquote rest))))).
      rewrite (scanString_raw b), (scanString_raw c1), (scanString_raw c2),
        (scanString_raw c3) by assumption.
      rewrite IH by lia. reflexivity.
Qed.

Lemma scanString_appendBody src rest :
  json.scanString (json.appendBody src ++ String json.dquote rest)
  = Some (coerceUTF8 src, rest).
Proof. apply (scanString_appendBody_bounded (String.length src)). lia. Qed.

(** ** The tokens of the artifact *)

Lemma Value_ind' (P : json.Value -> Prop)
  (HNull : P json.Null)
  (HStr : forall s, P (json.Str s))
  (HArray : forall elems, Forall P elems -> P (json.Array elems))
  (HObject : forall members,
      Forall (fun m => P (snd m)) members -> P (json.Object members)) :
  forall v, P v.
Proof.
  fix IH 1. intros [| s | elems | members].
  - exact HNull.
  - apply HStr.
  - apply HArray. induction elems as [| e l IHl]; constructor; [apply IH | exact IHl].
  - apply HObject.
    induction members as [| m l IHl]; constructor; [apply IH | exact IHl].
Qed.

Lemma punctuation_not_space c t :
  punctuation c = Some t -> json.isSpace c = false.
Proof.
  unfold punctuation, json.isSpace.
  repeat match goal with
         | |- context [(json.code c =? ?k)%N] =>
             lazymatch k with
             | 32%N => fail | 9%N => fail | 13%N => fail | 10%N => fail
             | _ => destruct (N.eqb_spec (json.code c) k) as [-> | _];
                    [intros _; reflexivity |]
             end
         end.
  discriminate.
Qed.

(** The lexer finds the tokens of a text when its fuel exceeds the
    length of the text. *)
Lemma Lex_lex s ts :
  Lex s ts -> forall fuel, String.length s < fuel -> json.lex fuel s = Some ts.
Proof.
  induction 1 as [| c s ts Hc _ IH | c t s ts Hc _ IH
                  | s str rest ts Hscan Hlen _ IH | s ts _ IH];
    intros [| fuel] Hfuel; try lia; cbn [String.length] in Hfuel.
  - reflexivity.
  - cbn [json.lex]. rewrite Hc. apply IH. lia.
  - cbn [json.lex]. rewrite (punctuation_not_space c t Hc).
    rewrite (IH fuel) by lia. unfold punctuation in Hc.
    repeat match goal with
           | |- context [(json.code c =? ?k)%N] =>
               destruct (json.code c =? k)%N;
               [inversion Hc; subst; reflexivity |]
           end.
    discriminate.
  - cbn. rewrite Hscan. rewrite (IH fuel) by lia. reflexivity.
  - change ("null" ++ s)%string
      with (String "n" (String "u" (String "l" (String "l" s)))) in *.
    cbn [String.length] in Hfuel. cbn. rewrite (IH fuel) by lia. reflexivity.
Qed.

Lemma Lex_spaces n rest ts :
  Lex rest ts -> Lex (String.concat "" (repeat "  " n) ++ rest) ts.
Proof.
  intros H. induction n as [| n IH]; [exact H |].
  assert (Hstep : forall tail, Lex tail ts -> Lex ("  " ++ tail) ts).
  { intros tail Ht. do 2 (apply Lex_space; [reflexivity |]). exact Ht. }
  destruct n as [| n].
  - apply Hstep. exact H.
  - change (String.concat "" (repeat "  " (S (S n))))
      with ("  " ++ "" ++ String.concat "" (repeat "  " (S n)))%string.
    rewrite !append_assoc. apply Hstep. exact IH.
Qed.

Lemma Lex_newline depth rest ts :
  Lex rest ts -> Lex (json.newline depth ++ rest) ts.
Proof.
  intros H. unfold json.newline.
  change (String "010" (String.concat "" (repeat "  " depth)) ++ rest)%string
    with (String "010" (String.concat "" (repeat "  " depth) ++ rest)).
  apply Lex_space; [reflexivity |]. apply Lex_spaces. exact H.
Qed.

Lemma Lex_appendString s rest ts :
  Lex rest ts ->
  Lex (json.appendString s ++ rest) (json.TString (coerceUTF8 s) :: ts).
Proof.
  intros H. unfold json.appendString.
  change (String json.dquote (json.appendBody s ++ String json.dquote "") ++ rest)%string
    with (String json.dquote ((json.appendBody s ++ String json.dquote "") ++ rest)).
  rewrite append_assoc.
  change (String json.dquote "" ++ rest)%string with (String json.dquote rest).
  eapply Lex_string; [apply scanString_appendBody | | exact H].
  rewrite append_length. cbn [String.length]. lia.
Qed.

Lemma Lex_char c t rest ts :
  punctuation c = Some t -> Lex rest ts -> Lex (String c "" ++ rest) (t :: ts).
Proof. intros Hc H. apply Lex_punctuation; assumption. Qed.

(** The text of the elements of an array or the members of an object,
    given that of each. *)
Lemma Lex_concat {A : Type} (text : A -> string) (toks : A -> list json.token)
  depth (l : list A) :
  Forall (fun a => forall rest ts,
              Lex rest ts -> Lex (text a ++ rest) (toks a ++ ts)) l ->
  forall rest ts,
    Lex rest ts ->
    Lex (String.concat ("," ++ json.newline depth) (map text l) ++ rest)
        (joinTokens (map toks l) ++ ts).
Proof.
  induction 1 as [| a l Ha Hl IH]; intros rest ts H; [exact H |].
  destruct l as [| a' l'].
  - cbn [map String.concat joinTokens]. apply Ha. exact H.
  - change (String.concat ("," ++ json.newline depth) (map text (a :: a' :: l')))
      with (text a ++ ("," ++ json.newline depth)
              ++ String.concat ("," ++ json.newline depth) (map text (a' :: l')))%string.
    change (joinTokens (map toks (a :: a' :: l')))
      with (toks a ++ json.TComma :: joinTokens (map toks (a' :: l'))).
    rewrite !append_assoc, <- app_assoc. apply Ha.
    cbn [app]. apply (Lex_char ","%char); [reflexivity |].
    apply Lex_newline. apply IH. exact H.
Qed.

(** The text of a document consists of its tokens. *)
Lemma Lex_encode v :
  forall depth rest ts,
    Lex rest ts ->
    Lex (json.encode depth v ++ rest) (tokens (coerceValue v) ++ ts).
Proof.
  induction v as [| s | elems IH | members IH] using Value_ind';
    intros depth rest ts H.
  - apply Lex_null. exact H.
  - apply Lex_appendString. exact H.
  - destruct elems as [| e es].
    + apply (Lex_char "["%char); [reflexivity |].
      apply (Lex_char "]"%char); [reflexivity |]. exact H.
    + remember (e :: es) as l eqn:El.
      change (json.encode depth (json.Array l))
        with (match l with
              | [] => "[]"
              | _ =>
                  ("[" ++ json.newline (S depth)
                      ++ String.concat ("," ++ json.newline (S depth))
                           (map (json.encode (S depth)) l)
                      ++ json.newline depth ++ "]")%string
              end).
      rewrite El at 1. rewrite !append_assoc.
      cbn [coerceValue tokens]. rewrite map_map. cbn [app].
      rewrite <- app_assoc. cbn [app].
      apply (Lex_char "["%char); [reflexivity |].
      apply Lex_newline.
      apply (Lex_concat (json.encode (S depth)) (fun x => tokens (coerceValue x))).
      * clear El. induction IH as [| x l' Hx _ IHl]; constructor; auto.
      * apply Lex_newline. apply (Lex_char "]"%char); [reflexivity |]. exact H.
  - destruct members as [| m ms].
    + apply (Lex_char "{"%char); [reflexivity |].
      apply (Lex_char "}"%char); [reflexivity |]. exact H.
    + remember (m :: ms) as l eqn:El.
      change (json.encode depth (json.Object l))
        with (match l with
              | [] => "{}"
              | _ =>
                  ("{" ++ json.newline (S depth)
                      ++ String.concat ("," ++ json.newline (S depth))
                           (map (fun m => json.appendString (fst m) ++ ": "
                                            ++ json.encode (S depth) (snd m)) l)
                      ++ json.newline depth ++ "}")%string
              end).
      rewrite El at 1. rewrite !append_assoc.
      cbn [coerceValue tokens]. rewrite map_map. cbn [app fst snd].
      rewrite <- app_assoc. cbn [app].
      apply (Lex_char "{"%char); [reflexivity |].
      apply Lex_newline.
      apply (Lex_concat
               (fun m => json.appendString (fst m) ++ ": "
                           ++ json.encode (S depth) (snd m))%string
               (fun m => json.TString (coerceUTF8 (fst m)) :: json.TColon
                           :: tokens (coerceValue (snd m)))).
      * clear El. induction IH as [| x l' Hx _ IHl]; constructor; [| exact IHl].
        intros rest' ts' H'. rewrite !append_assoc. cbn [app].
        apply Lex_appendString.
        apply (Lex_char ":"%char); [reflexivity |].
        apply Lex_space; [reflexivity |]. apply Hx. exact H'.
      * apply Lex_newline. apply (Lex_char "}"%char); [reflexivity |]. exact H.
Qed.

(** ** Parsing the tokens *)

Lemma tokens_notClosing v rest : notClosing (tokens v ++ rest).
Proof. destruct v; exact I. Qed.

Lemma joinTokens_notClosing e es rest :
  notClosing (joinTokens (map tokens (e :: es)) ++ rest).
Proof.
  destruct es as [| e' es']; cbn [map joinTokens].
  - apply tokens_notClosing.
  - rewrite <- app_assoc. apply tokens_notClosing.
Qed.

Lemma parseValue_array fuel ts :
  notClosing ts ->
  json.parseValue (S fuel) (json.TLBracket :: ts)
  = match json.parseElems fuel ts with
    | Some (es, r) => Some (json.Array es, r)
    | None => None
    end.
Proof. destruct ts as [| [] ts']; cbn [notClosing]; intros H; try reflexivity; tauto. Qed.

Section Parsing.

Let parsed (v : json.Value) : Prop :=
  forall rest fuel,
    List.length (tokens v) <= fuel ->
    json.parseValue fuel (tokens v ++ rest) = Some (v, rest).

Lemma parseElems_tokens elems :
  Forall parsed elems -> elems <> [] ->
  forall rest fuel,
    List.length (joinTokens (map tokens elems)) + 1 <= fuel ->
    json.parseElems fuel (joinTokens (map tokens elems) ++ json.TRBracket :: rest)
    = Some (elems, rest).
Proof.
  induction 1 as [| e l He Hl IH]; intros Hne rest [| fuel] Hfuel;
    try congruence; try lia.
  destruct l as [| e' l'].
  - cbn [map joinTokens] in *. cbn [json.parseElems].
    rewrite He by lia. reflexivity.
  - change (joinTokens (map tokens (e :: e' :: l')))
      with (tokens e ++ json.TComma :: joinTokens (map tokens (e' :: l'))) in *.
    rewrite length_app in Hfuel. cbn [List.length] in Hfuel.
    rewrite <- app_assoc. cbn [app json.parseElems].
    rewrite He by lia. rewrite IH by (try discriminate; lia). reflexivity.
Qed.

Lemma parseMembers_tokens members :
  Forall (fun m => parsed (snd m)) members -> members <> [] ->
  forall rest fuel,
    List.length
      (joinTokens
         (map (fun m => json.TString (fst m) :: json.TColon :: tokens (snd m))
              members)) + 1 <= fuel ->
    json.parseMembers fuel
      (joinTokens
         (map (fun m => json.TString (fst m) :: json.TColon :: tokens (snd m))
              members)
         ++ json.TRBrace :: rest)
    = Some (members, rest).
Proof.
  induction 1 as [| [k v] l He Hl IH]; intros Hne rest [| fuel] Hfuel;
    try congruence; try lia.
  cbn [fst snd] in He. destruct l as [| m' l'].
  - cbn [map joinTokens fst snd List.length app] in *. cbn [json.parseMembers].
    rewrite He by lia. reflexivity.
  - remember (m' :: l') as l eqn:El.
    change (joinTokens
              (map (fun m => json.TString (fst m) :: json.TColon :: tokens (snd m))
                   ((k, v) :: l)))
      with (match
               map (fun m => json.TString (fst m) :: json.TColon :: tokens (snd m)) l
             with
             | [] => json.TString k :: json.TColon :: tokens v
             | _ =>
                 (json.TString k :: json.TColon :: tokens v)
                   ++ json.TComma
                   :: joinTokens
                        (map (fun m => json.TString (fst m) :: json.TColon
                                         :: tokens (snd m)) l)
             end) in *.
    rewrite El in Hfuel at 1. rewrite El at 1. cbn [map] in *.
    rewrite length_app in Hfuel. cbn [List.length] in Hfuel.
    rewrite <- app_assoc. cbn [app json.parseMembers].
    rewrite He by lia. rewrite IH by (subst; try discriminate; lia). reflexivity.
Qed.

(** The parser reads the tokens of a document back as the document. *)
Lemma parseValue_tokens v : parsed v.
Proof.
  induction v as [| s | elems IH | members IH] using Value_ind';
    intros rest [| fuel] Hfuel; cbn [tokens List.length] in Hfuel; try lia;
    try reflexivity.
  - cbn [tokens]. rewrite length_app in Hfuel. cbn [List.length] in Hfuel.
    destruct elems as [| e es]; [reflexivity |].
    cbn [app]. rewrite <- app_assoc. cbn [app].
    rewrite parseValue_array by apply joinTokens_notClosing.
    rewrite parseElems_tokens by (try discriminate; auto; lia). reflexivity.
  - cbn [tokens]. rewrite length_app in Hfuel. cbn [List.length] in Hfuel.
    destruct members as [| [k v] ms]; [reflexivity |].
    cbn [app]. rewrite <- app_assoc. cbn [app].
    pose proof (parseMembers_tokens ((k, v) :: ms) IH ltac:(discriminate) rest fuel
                  ltac:(lia)) as Hm.
    destruct ms as [| m' ms'].
    + cbn [map joinTokens fst snd app] in *. cbn [json.parseValue].
      rewrite Hm. reflexivity.
    + change (joinTokens
                (map (fun m => json.TString (fst m) :: json.TColon :: tokens (snd m))
                     ((k, v) :: m' :: ms')))
        with ((json.TString k :: json.TColon :: tokens v)
                ++ json.TComma
                :: joinTokens
                     (map (fun m => json.TString (fst m) :: json.TColon
                                      :: tokens (snd m)) (m' :: ms'))) in *.
      cbn [app] in *. cbn [json.parseValue]. rewrite Hm. reflexivity.
Qed.

End Parsing.

(** Decoding the text of a document gives the document, its strings
    with their ill-formed bytes replaced. *)
Lemma decode_encode depth v :
  json.decode (json.encode depth v) = Some (coerceValue v).
Proof.
  unfold json.decode.
  pose proof (Lex_encode v depth "" [] Lex_end) as H.
  rewrite append_nil_r, app_nil_r in H.
  rewrite (Lex_lex _ _ H) by lia.
  rewrite <- (app_nil_r (tokens (coerceValue v))) at 2.
  rewrite parseValue_tokens by lia. reflexivity.
Qed.

(** ** The manifest along the walk *)

Section Invariant.

Context {St : Type}.
Variable sys : System.
Variable walkDirFn : WalkDirFunc St.
Variable Inv : St -> Prop.
Hypothesis Inv_fn :
  forall st path d err st' e,
    walkDirFn st path d err = (st', e) -> Inv st -> Inv st'.

Lemma walkEntries_invariant {A : Type}
  (walk : A -> St -> option (St * option error)) (l : list A) :
  (forall a st st' e, walk a st = Some (st', e) -> Inv st -> Inv st') ->
  forall st st' e,
    walkEntries walk l st = Some (st', e) -> Inv st -> Inv st'.
Proof.
  intros Hwalk. induction l as [| a l IH]; intros st st' e; cbn [walkEntries].
  - inversion 1; subst. auto.
  - destruct (walk a st) as [[st1 [err |]] |] eqn:E; try discriminate.
    + destruct (is_SkipDir err); inversion 1; subst; eauto.
    + intros H Hst. eapply IH; eauto.
Qed.

(** What the function preserves, the walk preserves. *)
Lemma walkDir_invariant fuel :
  forall path d st st' e,
    walkDir sys walkDirFn fuel path d st = Some (st', e) -> Inv st -> Inv st'.
Proof.
  induction fuel as [| fuel IH]; intros path d st st' e; [discriminate |].
  cbn [walkDir].
  destruct (walkDirFn st path (Some d) None) as [st1 [err |]] eqn:E1.
  - inversion 1; subst. eauto.
  - destruct (negb (IsDir d)); [inversion 1; subst; eauto |].
    destruct (os.ReadDir sys path) as [dirs [rerr |]].
    + destruct (walkDirFn st1 path (Some d) (Some rerr)) as [st2 [err2 |]] eqn:E2.
      * inversion 1; subst. eauto.
      * intros H Hst. eapply walkEntries_invariant; [| exact H | eauto].
        intros a. apply IH.
    + intros H Hst. eapply walkEntries_invariant; [| exact H | eauto].
      intros a. apply IH.
Qed.

End Invariant.

Lemma append_wellFormed m data rel :
  wellFormed m ->
  wellFormed (append m (mkFileChecksum rel (hex.EncodeToString (sha1.Sum data)))).
Proof.
  intros H. unfold append. cbn [wellFormed]. split.
  - destruct (elements m); discriminate.
  - apply Forall_app. split.
    + destruct m as [| l]; [constructor | apply H].
    + constructor; [apply sha1_isChecksum | constructor].
Qed.

Lemma func1_wellFormed sys rootDir ignorePatterns st path d err st' e :
  calculateChecksums_func1 sys rootDir ignorePatterns st path d err = (st', e) ->
  wellFormed st -> wellFormed st'.
Proof.
  unfold calculateChecksums_func1.
  destruct err as [err |]; [intros [= <- <-]; exact (fun H => H) |].
  destruct (isIgnored path ignorePatterns rootDir) as [ig [e0 |]];
    [intros [= <- <-]; exact (fun H => H) |].
  destruct d as [d |]; [| intros [= <- <-]; exact (fun H => H)].
  destruct ig; [destruct (IsDir d); intros [= <- <-]; exact (fun H => H) |].
  destruct (IsDir d); [intros [= <- <-]; exact (fun H => H) |].
  unfold generateSHA1Checksum.
  destruct (os.ReadFile sys path) as [data [e1 |]];
    [intros [= <- <-]; exact (fun H => H) |].
  cbv zeta.
  destruct (filepath.Rel rootDir path) as [rel [e2 |]];
    [intros [= <- <-]; exact (fun H => H) |].
  intros H H'. apply (f_equal fst) in H. cbn [fst] in H. subst st'.
  apply append_wellFormed. exact H'.
Qed.

(** The manifest of a run is nil or not empty, and its checksums are
    checksums. *)
Lemma calculateChecksums_wellFormed fuel sys rootDir ignorePatterns m err :
  calculateChecksums fuel sys rootDir ignorePatterns = Some (m, err) ->
  wellFormed m.
Proof.
  unfold calculateChecksums, WalkDir.
  destruct (os.Lstat sys rootDir) as [[info |] [e0 |]].
  - destruct (calculateChecksums_func1 sys rootDir ignorePatterns Nil rootDir None (Some e0))
      as [st [e1 |]] eqn:E; cbn [calculateChecksums_func1] in E;
      inversion E; subst.
    destruct (is_SkipDir e1 || is_SkipAll e1); inversion 1; subst; exact I.
  - destruct (walkDir sys (calculateChecksums_func1 sys rootDir ignorePatterns)
                fuel rootDir info Nil) as [[st [e1 |]] |] eqn:E; try discriminate.
    + destruct (is_SkipDir e1 || is_SkipAll e1); inversion 1; subst; try exact I.
      eapply (walkDir_invariant sys _ wellFormed); [| exact E | exact I].
      intros; eapply func1_wellFormed; eauto.
    + inversion 1; subst.
      eapply (walkDir_invariant sys _ wellFormed); [| exact E | exact I].
      intros; eapply func1_wellFormed; eauto.
  - destruct (calculateChecksums_func1 sys rootDir ignorePatterns Nil rootDir None (Some e0))
      as [st [e1 |]] eqn:E; cbn [calculateChecksums_func1] in E;
      inversion E; subst.
    destruct (is_SkipDir e1 || is_SkipAll e1); inversion 1; subst; exact I.
  - inversion 1; subst. exact I.
Qed.

(** ** The artifact *)

Lemma lower_hex_safe c :
  hex.is_lower_hex c = true ->
  (json.code c <? 128)%N = true /\ json.escapeByte c = String c "".
Proof.
  destruct c as [[] [] [] [] [] [] [] []]; intros H;
    first [discriminate H | split; reflexivity].
Qed.

Lemma append_String c (a b : string) : (String c a ++ b)%string = String c (a ++ b).
Proof. reflexivity. Qed.

Lemma append_empty (b : string) : ("" ++ b)%string = b.
Proof. reflexivity. Qed.

(** A checksum is written between quotes as it is. *)
Lemma appendBody_lower_hex s :
  hex.all_lower_hex s = true -> json.appendBody s = s.
Proof.
  induction s as [| c s IH]; [reflexivity |].
  cbn [hex.all_lower_hex json.appendBody]. intros H.
  apply andb_true_iff in H. destruct H as [Hc Hs].
  destruct (lower_hex_safe c Hc) as [H1 H2]. rewrite H1, H2, (IH Hs).
  reflexivity.
Qed.

(** A checksum is read back as it is. *)
Lemma coerceUTF8_lower_hex s :
  hex.all_lower_hex s = true -> coerceUTF8 s = s.
Proof.
  induction s as [| c s IH]; [reflexivity |].
  cbn [hex.all_lower_hex coerceUTF8]. intros H.
  apply andb_true_iff in H. destruct H as [Hc Hs].
  destruct (lower_hex_safe c Hc) as [H1 _]. rewrite H1, (IH Hs). reflexivity.
Qed.

Ltac normalize_append :=
  repeat (rewrite ?append_assoc, ?append_String, ?append_empty).

Lemma encode_entry c :
  hex.all_lower_hex (Checksum c) = true ->
  ("  " ++ json.encode 1 (FileChecksum_json c))%string = objectText c.
Proof.
  intros H. unfold objectText, FileChecksum_json, lineBreak.
  cbn [json.encode map fst snd String.concat].
  replace (json.appendString "path") with (quoted "path") by reflexivity.
  replace (json.appendString "checksum") with (quoted "checksum") by reflexivity.
  replace (json.appendString (Checksum c)) with (quoted (Checksum c))
    by (unfold json.appendString, quoted; rewrite appendBody_lower_hex; auto).
  change (json.newline 2) with (String "010" "    ").
  change (json.newline 1) with (String "010" "  ").
  unfold quoted. normalize_append. reflexivity.
Qed.

Lemma concat_indented l :
  l <> [] ->
  Forall (fun c => isChecksum (Checksum c)) l ->
  ("  " ++ String.concat ("," ++ json.newline 1)
             (map (json.encode 1) (map FileChecksum_json l)))%string
  = String.concat ("," ++ lineBreak) (map objectText l).
Proof.
  intros Hne Hall. induction Hall as [| c l [_ Hc] Hl IH]; [congruence |].
  destruct l as [| c' l'].
  - cbn [map String.concat]. apply encode_entry. exact Hc.
  - remember (c' :: l') as l1 eqn:El.
    assert (Hstep : forall (sep : string) (f : FileChecksum -> string),
               String.concat sep (map f (c :: l1))
               = (f c ++ sep ++ String.concat sep (map f l1))%string).
    { intros sep f. rewrite El. reflexivity. }
    rewrite map_map, Hstep, Hstep.
    rewrite <- IH by (subst; discriminate).
    rewrite <- (encode_entry c Hc), map_map.
    change (json.newline 1) with (lineBreak ++ "  ")%string.
    rewrite !append_assoc. reflexivity.
Qed.

(** The text of a manifest that is not empty is laid out as the
    specification says. *)
Lemma encode_manifest l :
  l <> [] ->
  Forall (fun c => isChecksum (Checksum c)) l ->
  json.encode 0 (json.Array (map FileChecksum_json l)) = manifestText l.
Proof.
  intros Hne Hall. unfold manifestText. rewrite <- (concat_indented l Hne Hall).
  destruct l as [| c l']; [congruence |].
  remember (c :: l') as l eqn:El.
  change (json.encode 0 (json.Array (map FileChecksum_json l)))
    with (match map FileChecksum_json l with
          | [] => "[]"
          | _ =>
              ("[" ++ json.newline 1
                  ++ String.concat ("," ++ json.newline 1)
                       (map (json.encode 1) (map FileChecksum_json l))
                  ++ json.newline 0 ++ "]")%string
          end).
  rewrite El at 1. cbn [map].
  change (json.newline 1) with (lineBreak ++ "  ")%string.
  change (json.newline 0) with lineBreak.
  rewrite !append_assoc. reflexivity.
Qed.

Lemma coerceValue_entry c :
  isChecksum (Checksum c) -> coerceValue (FileChecksum_json c) = decodedEntry c.
Proof.
  intros [_ H]. unfold FileChecksum_json, decodedEntry.
  cbn [coerceValue map fst snd]. rewrite (coerceUTF8_lower_hex _ H). reflexivity.
Qed.

Lemma recordsOf_decodedEntry l :
  recordsOf (map decodedEntry l)
  = Some (map (fun c => mkFileChecksum (coerceUTF8 (Path c)) (Checksum c)) l).
Proof.
  induction l as [| c l IH]; [reflexivity |].
  cbn [map recordsOf]. rewrite IH. reflexivity.
Qed.

(** C6, as the code has it: the checksums of the manifest of a
    successful run are forty lowercase hexadecimal digits; the file
    written holds the text of the manifest; reading the text into
    records gives the manifest back, each path with its ill-formed bytes
    replaced and each checksum as it was; a manifest that is not empty
    is written as a bracketed sequence of objects with the two string
    fields [path] and [checksum], indented by two spaces a level; the
    empty manifest, which is nil, is written as [null], which is no
    sequence. *)
Theorem artifact_round_trip fuel sys rootDir ignorePatterns m :
  calculateChecksums fuel sys rootDir ignorePatterns = Some (m, None) ->
  (forall c, In c (elements m) -> isChecksum (Checksum c))
  /\ (forall outputFile w,
         saveToFile sys m outputFile = (Some w, None) ->
         w = (outputFile, fst (MarshalIndent m)))
  /\ Unmarshal (fst (MarshalIndent m)) = Some (readBack m)
  /\ match m with
     | Nil =>
         fst (MarshalIndent m) = "null"
         /\ json.decode (fst (MarshalIndent m)) = Some json.Null
     | Slice l =>
         l <> []
         /\ fst (MarshalIndent m) = manifestText l
         /\ json.decode (fst (MarshalIndent m))
            = Some (json.Array (map decodedEntry l))
     end.
Proof.
  intros Hcalc. apply calculateChecksums_wellFormed in Hcalc.
  assert (Hdecode : forall l,
             l <> [] -> Forall (fun c => isChecksum (Checksum c)) l ->
             json.decode (fst (MarshalIndent (Slice l)))
             = Some (json.Array (map decodedEntry l))).
  { intros l Hne Hall. unfold MarshalIndent. cbn [fst checksums_json].
    rewrite decode_encode. cbn [coerceValue]. rewrite map_map.
    do 2 f_equal. apply map_ext_in. intros c Hc.
    apply coerceValue_entry. rewrite Forall_forall in Hall. auto. }
  split; [| split; [| split]].
  - destruct m as [| l]; [intros c [] |].
    destruct Hcalc as [_ Hall]. rewrite Forall_forall in Hall. exact Hall.
  - intros outputFile w. unfold saveToFile.
    destruct (MarshalIndent m) as [outputData [err |]] eqn:E; [discriminate |].
    destruct (os.WriteFile sys outputFile outputData) as [held [err |]] eqn:Ew;
      [discriminate |].
    apply WriteFile_ok in Ew. subst held. cbn [fileNamed].
    intros [= <-]. reflexivity.
  - destruct m as [| l]; [reflexivity |].
    destruct Hcalc as [Hne Hall]. unfold Unmarshal.
    rewrite (Hdecode l Hne Hall), recordsOf_decodedEntry. reflexivity.
  - destruct m as [| l]; [split; reflexivity |].
    destruct Hcalc as [Hne Hall]. split; [exact Hne |]. split.
    + unfold MarshalIndent. cbn [fst checksums_json].
      apply encode_manifest; assumption.
    + apply Hdecode; assumption.
Qed.

Lemma artifact_round_trip_witness :
  json.decode
    (fst (MarshalIndent
            (Slice [entryFor "/r" "/r/a.txt" (bytes "hello");
                    entryFor "/r" "/r/sub/b.txt" (bytes "world")])))
  = Some (json.Array
            [decodedEntry (entryFor "/r" "/r/a.txt" (bytes "hello"));
             decodedEntry (entryFor "/r" "/r/sub/b.txt" (bytes "world"))]).
Proof.
  destruct (artifact_round_trip 3 (systemOf "/" "/r" exampleTree) "/r" [] _ eq_refl)
    as [_ [_ [_ [_ [_ H]]]]].
  exact H.
Defined.

(** C6 as stated fails: the run on an empty directory succeeds with the
    nil manifest, whose artifact is [null] and not a sequence. *)
Lemma artifact_null_counterexample :
  ~ (forall fuel sys rootDir ignorePatterns m,
        calculateChecksums fuel sys rootDir ignorePatterns = Some (m, None) ->
        exists elems,
          json.decode (fst (MarshalIndent m)) = Some (json.Array elems)).
Proof.
  intros H.
  destruct (H 2 (systemOf "/" "/r" emptyTree) "/r" [] Nil eq_refl) as [elems He].
  vm_compute in He. discriminate He.
Qed.

(** ** The end-to-end example *)

(** The root holds [a.txt] with the bytes [hello] and [sub/b.txt] with
    the bytes [world], and nothing is ignored. *)
Example end_to_end :
  calculateChecksums 3 (systemOf "/" "/r" exampleTree) "/r" []
  = Some (Slice [mkFileChecksum "a.txt" "aaf4c61ddcc5e8a2dabede0f3b482cd9aea9434d";
                 mkFileChecksum "sub/b.txt" "7c211433f02071597741e6ff5a8ea34789abbf43"],
          None).
Proof. vm_compute. reflexivity. Qed.

(** The run on an empty directory writes [null]. *)
Example empty_directory :
  main 2 (systemOf "/" "/r" emptyTree) (mkFlags (Some "/r") None None)
  = Some (mkOutcome [] (Some ("/r/checksums.json", "null")) None).
Proof. vm_compute. reflexivity. Qed.

(* ================================================================== *)
(** * Further properties *)

(** ** The project directory *)

(** X1: the working directory is asked for only when [--dir] is
    relative, as the default [.] is; when it is and the working directory
    cannot be had, [main] prints that error and neither walks nor writes,
    whatever the fuel; and when [--dir] or the working directory is
    absolute, so are the project directory and the path of the
    artifact. *)
Theorem main_project_dir sys args fuel :
  (filepath.IsAbs (flag_String (flag_dir args) ".") = true ->
   filepath.Abs (os.Getwd sys) (flag_String (flag_dir args) ".")
   = (filepath.Clean (flag_String (flag_dir args) "."), None))
  /\ (forall e,
         filepath.IsAbs (flag_String (flag_dir args) ".") = false ->
         sys_getwd sys = inr e ->
         main fuel sys args
         = Some (mkOutcome
                   [Println "Error generating project dir:" (SyscallError "getwd" e)]
                   None None))
  /\ (forall projectDir,
         filepath.Abs (os.Getwd sys) (flag_String (flag_dir args) ".")
         = (projectDir, None) ->
         filepath.IsAbs (flag_String (flag_dir args) ".") = true
         \/ (exists wd, sys_getwd sys = inl wd /\ filepath.IsAbs wd = true) ->
         filepath.IsAbs projectDir = true
         /\ filepath.IsAbs
              (filepath.Join
                 [projectDir; flag_String (flag_output args) "checksums.json"])
            = true).
Proof.
  split; [| split].
  - intros Habs. unfold filepath.Abs. rewrite Habs. reflexivity.
  - intros e Hrel Hwd. unfold main, filepath.Abs, os.Getwd.
    rewrite Hrel, Hwd. reflexivity.
  - intros projectDir HAbs Hsome.
    assert (Hp : filepath.IsAbs projectDir = true).
    { unfold filepath.Abs, os.Getwd in HAbs.
      destruct (filepath.IsAbs (flag_String (flag_dir args) ".")) eqn:Edir.
      - injection HAbs as <-. apply IsAbs_Clean. exact Edir.
      - destruct Hsome as [Hdir | [wd [Hwd Hwdabs]]]; [discriminate |].
        rewrite Hwd in HAbs. injection HAbs as <-.
        apply IsAbs_Join. exact Hwdabs. }
    split; [exact Hp | apply IsAbs_Join; exact Hp].
Qed.

Lemma main_project_dir_witness :
  main 0 (withoutWorkingDir (systemOf "/" "/r" exampleTree) ENOENT)
       (mkFlags None None None)
  = Some (mkOutcome
            ["Error generating project dir: getwd: no such file or directory"]
            None None)
  /\ filepath.Abs (os.Getwd (withoutWorkingDir (systemOf "/" "/r" exampleTree) ENOENT))
                  "/r/../r/sub"
     = ("/r/sub", None)
  /\ filepath.IsAbs (filepath.Join ["/home/r"; "checksums.json"]) = true.
Proof.
  destruct (main_project_dir
              (withoutWorkingDir (systemOf "/" "/r" exampleTree) ENOENT)
              (mkFlags None None None) 0) as [_ [Hfail _]].
  destruct (main_project_dir
              (withoutWorkingDir (systemOf "/" "/r" exampleTree) ENOENT)
              (mkFlags (Some "/r/../r/sub") None None) 0) as [Habs _].
  destruct (main_project_dir (systemOf "/home" "/home/r" exampleTree)
              (mkFlags (Some "r") None None) 0) as [_ [_ Hout]].
  split; [| split].
  - exact (eq_trans (Hfail ENOENT eq_refl eq_refl) eq_refl).
  - exact (eq_trans (Habs eq_refl) eq_refl).
  - apply (Hout "/home/r" eq_refl). right. exists "/home". split; reflexivity.
Defined.

(** ** A write that fails *)

(** X2: [saveToFile] can fail only in the write, never in the encoding,
    and then reports the failure wrapped, under the operation that
    failed: the open when the file cannot be created or truncated, which
    leaves nothing, and the write or the close afterwards, which leave
    the file with what reached it; in [main], after a walk that
    succeeded, the failure is printed with that operation, the path of
    the artifact and the cause. *)
Theorem write_failure_reported sys :
  (forall checksums outputFile w err,
      saveToFile sys checksums outputFile = (w, Some err) ->
      exists f,
        sys_writefile sys outputFile (fst (MarshalIndent checksums)) = Some f
        /\ err = WrapError "failed to write checksums to file: "
                   (WriteFault_error outputFile f)
        /\ w = match f with
               | CreateFailed _ => None
               | WriteFailed _ partial | CloseFailed _ partial =>
                   Some (outputFile, partial)
               end)
  /\ (forall args fuel projectDir t checksums f,
         filepath.Abs (os.Getwd sys) (flag_String (flag_dir args) ".")
         = (projectDir, None) ->
         mounted sys projectDir t -> depth t < fuel ->
         hashTree projectDir (ignorePatternsOf args) projectDir t Nil
         = (checksums, None) ->
         sys_writefile sys
           (filepath.Join [projectDir; flag_String (flag_output args) "checksums.json"])
           (fst (MarshalIndent checksums)) = Some f ->
         main fuel sys args
         = Some
             (let checksumsFilePath :=
                filepath.Join
                  [projectDir; flag_String (flag_output args) "checksums.json"] in
              match f with
              | CreateFailed e =>
                  mkOutcome
                    [("Error saving checksums: failed to write checksums to file: open "
                        ++ checksumsFilePath ++ ": " ++ Errno_Error e)%string]
                    None None
              | WriteFailed e partial =>
                  mkOutcome
                    [("Error saving checksums: failed to write checksums to file: write "
                        ++ checksumsFilePath ++ ": " ++ Errno_Error e)%string]
                    None (Some (checksumsFilePath, partial))
              | CloseFailed e partial =>
                  mkOutcome
                    [("Error saving checksums: failed to write checksums to file: close "
                        ++ checksumsFilePath ++ ": " ++ Errno_Error e)%string]
                    None (Some (checksumsFilePath, partial))
              end)).
Proof.
  split.
  - intros checksums outputFile w err. unfold saveToFile, MarshalIndent.
    cbn [fst].
    destruct (os.WriteFile sys outputFile (json.encode 0 (checksums_json checksums)))
      as [partial [werr |]] eqn:E; [| discriminate].
    intros [= <- <-]. apply WriteFile_error in E.
    destruct E as (f & Hf & -> & ->). exists f.
    split; [exact Hf |]. split; [reflexivity |].
    destruct f; reflexivity.
  - intros args fuel projectDir t checksums f HAbs Hm Hfuel Hwalk Hwrite.
    rewrite (main_mounted sys args fuel projectDir t HAbs Hm Hfuel).
    unfold outcomeOn, os.WriteFile. rewrite Hwalk, Hwrite.
    destruct f; reflexivity.
Qed.

Lemma write_failure_reported_witness :
  main 3 (failingWrites (systemOf "/" "/r" exampleTree) (WriteFailed ENOSPC ""))
       (mkFlags (Some "/r") (Some "out/sums.json") None)
  = Some (mkOutcome
            ["Error saving checksums: failed to write checksums to file: write /r/out/sums.json: no space left on device"]
            None (Some ("/r/out/sums.json", ""))).
Proof.
  destruct (write_failure_reported
              (failingWrites (systemOf "/" "/r" exampleTree) (WriteFailed ENOSPC "")))
    as [_ Hmain].
  assert (Hm : mounted (failingWrites (systemOf "/" "/r" exampleTree)
                          (WriteFailed ENOSPC "")) "/r" exampleTree)
    by show_mounted.
  assert (Hd : depth exampleTree < 3) by (vm_compute; lia).
  exact (eq_trans
           (Hmain (mkFlags (Some "/r") (Some "out/sums.json") None) 3 "/r"
              exampleTree _ (WriteFailed ENOSPC "") eq_refl Hm Hd eq_refl eq_refl)
           eq_refl).
Defined.

(** ** No pattern *)

Lemma ignored_no_pattern rootDir path : ignored rootDir [] path = false.
Proof.
  unfold ignored. rewrite isIgnored_Rel.
  destruct (filepath.Rel rootDir path) as [rel [err |]]; reflexivity.
Qed.

Lemma hashed_no_pattern rootDir n :
  forall path,
    hashed rootDir [] path n
    = map (fun pd => entryFor rootDir (fst pd) (snd pd)) (filesOf path n).
Proof.
  induction n as [content | entries rerr IH] using node_ind'; intros path;
    cbn [hashed filesOf]; rewrite ignored_no_pattern.
  - destruct content; reflexivity.
  - induction IH as [| e l He _ IHl]; [reflexivity |].
    rewrite map_app, <- He, <- IHl. reflexivity.
Qed.

Lemma hashTree_success_readable rootDir ignorePatterns path n st st' :
  hashTree rootDir ignorePatterns path n st = (st', None) ->
  unreadable rootDir ignorePatterns path n = false.
Proof.
  intros H. destruct (unreadable rootDir ignorePatterns path n) eqn:E; [| reflexivity].
  destruct (unreadable_fails rootDir ignorePatterns n path st E) as [st1 [err H']].
  congruence.
Qed.

(** X3: without [--ignore], or with an empty value, there is no pattern,
    and a run that succeeds lists every non-directory entry of the tree,
    each once, in the order of the walk; none of them was unreadable. *)
Theorem nothing_ignored_by_default sys args fuel rootDir t m :
  flag_ignore args = None \/ flag_ignore args = Some "" ->
  mounted sys rootDir t -> depth t < fuel ->
  calculateChecksums fuel sys rootDir (ignorePatternsOf args) = Some (m, None) ->
  ignorePatternsOf args = []
  /\ elements m
     = map (fun pd => entryFor rootDir (fst pd) (snd pd)) (filesOf rootDir t)
  /\ unreadable rootDir [] rootDir t = false.
Proof.
  intros Hflag Hm Hfuel Hcalc.
  assert (Hpat : ignorePatternsOf args = [])
    by (unfold ignorePatternsOf; destruct Hflag as [-> | ->]; reflexivity).
  rewrite Hpat in Hcalc. split; [exact Hpat |].
  rewrite (calculateChecksums_mounted sys _ _ t) in Hcalc by assumption.
  destruct (hashTree rootDir [] rootDir t Nil) as [m' [err |]] eqn:E;
    [discriminate |].
  injection Hcalc as <-. split.
  - rewrite (hashTree_hashed _ _ _ _ _ _ E), hashed_no_pattern. reflexivity.
  - eapply hashTree_success_readable. exact E.
Qed.

Lemma nothing_ignored_by_default_witness :
  elements (Slice [entryFor "/r" "/r/a.txt" (bytes "hello");
                   entryFor "/r" "/r/sub/b.txt" (bytes "world")])
  = map (fun pd => entryFor "/r" (fst pd) (snd pd)) (filesOf "/r" exampleTree).
Proof.
  assert (Hm : mounted (systemOf "/" "/r" exampleTree) "/r" exampleTree)
    by show_mounted.
  assert (Hd : depth exampleTree < 3) by (vm_compute; lia).
  destruct (nothing_ignored_by_default (systemOf "/" "/r" exampleTree)
              (mkFlags None None (Some "")) 3 "/r" exampleTree _
              (or_intror eq_refl) Hm Hd eq_refl) as [_ [H _]].
  exact H.
Defined.

(** ** The patterns of [--ignore] *)

Lemma concat_String sep c piece rest :
  String.concat sep (String c piece :: rest)
  = String c (String.concat sep (piece :: rest)).
Proof. destruct rest; reflexivity. Qed.

(** Joining the pieces with the separator gives the string back. *)
Lemma Join_Split s sep : strings.Join (strings.Split s sep) (String sep "") = s.
Proof.
  unfold strings.Join. induction s as [| c s IH]; [reflexivity |].
  cbn [strings.Split]. destruct (Ascii.eqb_spec c sep) as [-> | Hne].
  - pose proof (Split_nonempty s sep) as Hnil.
    destruct (strings.Split s sep) as [| piece rest] eqn:E; [congruence |].
    change (String.concat (String sep "") ("" :: piece :: rest))
      with (String sep (String.concat (String sep "") (piece :: rest))).
    rewrite IH. reflexivity.
  - pose proof (Split_nonempty s sep) as Hnil.
    destruct (strings.Split s sep) as [| piece rest] eqn:E; [congruence |].
    rewrite concat_String, IH. reflexivity.
Qed.

Lemma Split_count s sep :
  List.length (strings.Split s sep) = S (countChar sep s)
  /\ Forall (fun piece => countChar sep piece = 0) (strings.Split s sep).
Proof.
  induction s as [| c s [IHn IHf]]; [split; [reflexivity | repeat constructor] |].
  cbn [strings.Split countChar]. destruct (Ascii.eqb c sep) eqn:Ec.
  - split; [cbn [List.length]; rewrite IHn; reflexivity |].
    constructor; [reflexivity | exact IHf].
  - destruct (strings.Split s sep) as [| piece rest];
      [cbn [List.length] in IHn; lia |].
    split; [exact IHn |].
    inversion IHf as [| ? ? Hp Hr]; subst. constructor; [| exact Hr].
    cbn [countChar]. rewrite Ec, Hp. reflexivity.
Qed.

(** X4: the patterns of a non-empty [--ignore] value are its pieces
    between the commas, one more than there are commas, taken as they are
    (nothing is trimmed or unescaped): joined by commas they give the
    value back, and no pattern holds a comma. *)
Theorem ignore_patterns_pieces args ignorePaths :
  flag_ignore args = Some ignorePaths -> ignorePaths <> "" ->
  strings.Join (ignorePatternsOf args) "," = ignorePaths
  /\ List.length (ignorePatternsOf args) = S (countChar "," ignorePaths)
  /\ (forall pattern,
         In pattern (ignorePatternsOf args) -> countChar "," pattern = 0).
Proof.
  intros Hflag Hne.
  assert (Hpat : ignorePatternsOf args = strings.Split ignorePaths ",").
  { unfold ignorePatternsOf. rewrite Hflag. cbn [flag_String].
    apply String.eqb_neq in Hne. rewrite Hne. reflexivity. }
  rewrite Hpat. destruct (Split_count ignorePaths ",") as [Hn Hf].
  split; [apply Join_Split |]. split; [exact Hn |].
  rewrite Forall_forall in Hf. exact Hf.
Qed.

Lemma ignore_patterns_pieces_witness :
  ignorePatternsOf (mkFlags None None (Some "build, docs,,x")) = ["build"; " docs"; ""; "x"]
  /\ strings.Join (ignorePatternsOf (mkFlags None None (Some "build, docs,,x"))) ","
     = "build, docs,,x".
Proof.
  split; [reflexivity |].
  apply (ignore_patterns_pieces (mkFlags None None (Some "build, docs,,x"))
           "build, docs,,x" eq_refl).
  discriminate.
Defined.

(** ** More patterns *)

Lemma ignored_app rootDir a b path :
  ignored rootDir (a ++ b) path
  = ignored rootDir a path || ignored rootDir b path.
Proof.
  unfold ignored. rewrite !isIgnored_Rel.
  destruct (filepath.Rel rootDir path) as [rel [err |]]; cbn [fst];
    [reflexivity | apply existsb_app].
Qed.

Lemma isIgnored_snd rootDir ignorePatterns path :
  snd (isIgnored path ignorePatterns rootDir) = snd (filepath.Rel rootDir path).
Proof.
  rewrite isIgnored_Rel.
  destruct (filepath.Rel rootDir path) as [rel [err |]]; reflexivity.
Qed.

Lemma existsb_Permutation {A : Type} (f : A -> bool) l1 l2 :
  Permutation l1 l2 -> existsb f l1 = existsb f l2.
Proof.
  induction 1 as [| x l l' _ IH | x y l | l l' l'' _ IH1 _ IH2]; cbn [existsb].
  - reflexivity.
  - rewrite IH. reflexivity.
  - destruct (f x), (f y); reflexivity.
  - congruence.
Qed.

(** X5: whether a path is ignored depends on the patterns as a set: a
    path is ignored under two lists of patterns together exactly when it
    is under one of them, the order of the patterns does not matter, and
    the error, if any, is that of relating the path to the root,
    whatever the patterns. *)
Theorem isIgnored_patterns path rootDir a b :
  fst (isIgnored path (a ++ b) rootDir)
  = fst (isIgnored path a rootDir) || fst (isIgnored path b rootDir)
  /\ snd (isIgnored path a rootDir) = snd (isIgnored path b rootDir)
  /\ (Permutation a b -> isIgnored path a rootDir = isIgnored path b rootDir).
Proof.
  split; [apply ignored_app |]. split.
  - rewrite !isIgnored_snd. reflexivity.
  - intros Hperm. rewrite !isIgnored_Rel.
    destruct (filepath.Rel rootDir path) as [rel [err |]]; [reflexivity |].
    rewrite (existsb_Permutation _ a b Hperm). reflexivity.
Qed.

Lemma isIgnored_patterns_witness :
  isIgnored "/r/docs/x.md" ["build"; "docs"] "/r"
  = isIgnored "/r/docs/x.md" ["docs"; "build"] "/r".
Proof.
  destruct (isIgnored_patterns "/r/docs/x.md" "/r" ["build"; "docs"] ["docs"; "build"])
    as [_ [_ H]].
  apply H. apply perm_swap.
Defined.

Lemma subseq_refl {A : Type} (l : list A) : subseq l l.
Proof. induction l; constructor; assumption. Qed.

Lemma subseq_empty {A : Type} (l : list A) : subseq [] l.
Proof. induction l; constructor; assumption. Qed.

Lemma subseq_app {A : Type} (l1 l1' l2 l2' : list A) :
  subseq l1 l1' -> subseq l2 l2' -> subseq (l1 ++ l2) (l1' ++ l2').
Proof.
  induction 1 as [| x l1 l1' _ IH | x l1 l1' _ IH]; intros H2; cbn [app].
  - exact H2.
  - apply subseq_skip, IH, H2.
  - apply subseq_keep, IH, H2.
Qed.

Section MorePatterns.

Variable rootDir : string.
Variables ignorePatterns more : list string.

(** With more patterns, the files read are among those read before, in
    the same order. *)
Lemma hashed_more n :
  forall path,
    subseq (hashed rootDir (ignorePatterns ++ more) path n)
           (hashed rootDir ignorePatterns path n).
Proof.
  induction n as [content | entries rerr IH] using node_ind'; intros path;
    cbn [hashed]; rewrite ignored_app;
    destruct (ignored rootDir ignorePatterns path); cbn [orb];
    try apply subseq_refl;
    destruct (ignored rootDir more path); try apply subseq_empty;
    try apply subseq_refl.
  induction IH as [| e l He _ IHl]; [constructor |].
  apply subseq_app; [apply He | exact IHl].
Qed.

(** With more patterns, a walk that succeeded still succeeds. *)
Lemma hashTree_more n :
  forall path st st1 st',
    hashTree rootDir ignorePatterns path n st = (st1, None) ->
    snd (hashTree rootDir (ignorePatterns ++ more) path n st') = None.
Proof.
  induction n as [content | entries rerr IH] using node_ind';
    intros path st st1 st'; cbn [hashTree]; rewrite !isIgnored_Rel;
    (destruct (filepath.Rel rootDir path) as [rel [err |]]; [discriminate |]);
    rewrite existsb_app;
    (destruct (existsb (fun pattern => strings.HasPrefix rel pattern) ignorePatterns);
     cbn [orb]; [reflexivity |]);
    (destruct (existsb (fun pattern => strings.HasPrefix rel pattern) more);
     [reflexivity |]).
  - destruct content; [reflexivity | discriminate].
  - destruct rerr as [e |]; [discriminate |].
    revert st st'. induction IH as [| e l He _ IHl]; intros st st'; [reflexivity |].
    destruct (hashTree rootDir ignorePatterns (filepath.Join [path; fst e]) (snd e) st)
      as [st2 [err2 |]] eqn:E2; [discriminate |].
    intros E3. specialize (He _ _ _ st' E2).
    destruct (hashTree rootDir (ignorePatterns ++ more)
                (filepath.Join [path; fst e]) (snd e) st') as [st3 [err3 |]];
      [discriminate |].
    eapply IHl. exact E3.
Qed.

End MorePatterns.

(** X6: ignoring more never breaks a run and never adds an entry: when
    the run with some patterns succeeds, the run with further patterns
    succeeds too, and its manifest is the first one with some entries
    left out, the others in their order. *)
Theorem more_patterns_fewer_entries sys rootDir ignorePatterns more t fuel m :
  mounted sys rootDir t -> depth t < fuel ->
  calculateChecksums fuel sys rootDir ignorePatterns = Some (m, None) ->
  exists m',
    calculateChecksums fuel sys rootDir (ignorePatterns ++ more) = Some (m', None)
    /\ subseq (elements m') (elements m).
Proof.
  intros Hm Hfuel Hcalc.
  rewrite (calculateChecksums_mounted sys rootDir ignorePatterns t) in Hcalc
    by assumption.
  rewrite (calculateChecksums_mounted sys rootDir (ignorePatterns ++ more) t)
    by assumption.
  destruct (hashTree rootDir ignorePatterns rootDir t Nil) as [m0 [err |]] eqn:E;
    [discriminate |].
  injection Hcalc as <-.
  pose proof (hashTree_more rootDir ignorePatterns more t _ _ _ Nil E) as Hok.
  destruct (hashTree rootDir (ignorePatterns ++ more) rootDir t Nil)
    as [m' [err' |]] eqn:E'; [discriminate |].
  exists m'. split; [reflexivity |].
  rewrite (hashTree_hashed _ _ _ _ _ _ E), (hashTree_hashed _ _ _ _ _ _ E').
  apply hashed_more.
Qed.

Lemma more_patterns_fewer_entries_witness :
  exists m',
    calculateChecksums 3 (systemOf "/" "/r" exampleTree) "/r" ([] ++ ["sub"])
    = Some (m', None)
    /\ subseq (elements m')
              [entryFor "/r" "/r/a.txt" (bytes "hello");
               entryFor "/r" "/r/sub/b.txt" (bytes "world")].
Proof.
  assert (Hm : mounted (systemOf "/" "/r" exampleTree) "/r" exampleTree)
    by show_mounted.
  assert (Hd : depth exampleTree < 3) by (vm_compute; lia).
  exact (more_patterns_fewer_entries (systemOf "/" "/r" exampleTree) "/r" []
           ["sub"] exampleTree 3 _ Hm Hd eq_refl).
Defined.

(** ** The root entry *)

Lemma isIgnored_root rootDir ignorePatterns :
  isIgnored rootDir ignorePatterns rootDir
  = (existsb (fun pattern => String.prefix pattern ".") ignorePatterns, None).
Proof. rewrite isIgnored_Rel, Rel_self. reflexivity. Qed.

(** X7: the root is tested under the relative path [.], so the pattern
    [.] ignores the root and with it the whole tree: the run returns the
    nil manifest whatever the tree holds, although below the root the
    same pattern ignores only the names that start with a dot. *)
Theorem dot_pattern_ignores_all sys fuel rootDir ignorePatterns info :
  In "." ignorePatterns ->
  sys_lstat sys rootDir = inl info ->
  calculateChecksums (S fuel) sys rootDir ignorePatterns = Some (Nil, None)
  /\ (forall path relativePath,
         filepath.Rel rootDir path = (relativePath, None) ->
         String.prefix "." relativePath = false ->
         isIgnored path ["."] rootDir = (false, None)).
Proof.
  intros Hin Hstat. split.
  - unfold calculateChecksums, WalkDir, os.Lstat. rewrite Hstat.
    cbn [walkDir]. unfold calculateChecksums_func1 at 1.
    rewrite isIgnored_root.
    assert (Hex : existsb (fun pattern => String.prefix pattern ".") ignorePatterns
                  = true)
      by (apply existsb_exists; exists "."; split; [exact Hin | reflexivity]).
    rewrite Hex. unfold afterSkip. destruct (IsDir info); reflexivity.
  - intros path rel Hrel Hprefix. rewrite isIgnored_Rel, Hrel.
    cbn [existsb]. unfold strings.HasPrefix. rewrite Hprefix. reflexivity.
Qed.

Lemma dot_pattern_ignores_all_witness :
  calculateChecksums 3 (systemOf "/" "/r" exampleTree) "/r" ["."] = Some (Nil, None)
  /\ isIgnored "/r/sub/b.txt" ["."] "/r" = (false, None).
Proof.
  destruct (dot_pattern_ignores_all (systemOf "/" "/r" exampleTree) 2 "/r" ["."]
              (mkDirEntry "/r" true) (or_introl eq_refl) eq_refl) as [H1 H2].
  split; [exact H1 |].
  apply (H2 "/r/sub/b.txt" "sub/b.txt"); reflexivity.
Defined.

(** X8: when the root is not a directory, it is the only entry visited:
    unless a pattern ignores [.], the manifest is the single entry with
    the path [.] and the checksum of the root's content, and a root that
    cannot be read fails the run, with the error of the open when it
    does not open and with the error of the read when, as a link to a
    directory, it opens and cannot be read. *)
Theorem root_file sys fuel rootDir ignorePatterns content :
  mounted sys rootDir (File content) ->
  existsb (fun pattern => String.prefix pattern ".") ignorePatterns = false ->
  calculateChecksums (S fuel) sys rootDir ignorePatterns
  = Some
      (match content with
       | inl data =>
           (Slice [mkFileChecksum "." (hex.EncodeToString (sha1.Sum data))], None)
       | inr (OpenFailed e) =>
           (Nil,
            Some (WrapError "error walking the directory: "
                    (WrapError
                       ("failed to calculate checksum for " ++ rootDir ++ ": ")
                       (PathError "open" rootDir e))))
       | inr (ReadFailed e _) =>
           (Nil,
            Some (WrapError "error walking the directory: "
                    (WrapError
                       ("failed to calculate checksum for " ++ rootDir ++ ": ")
                       (PathError "read" rootDir e))))
       end).
Proof.
  intros Hm Hex.
  rewrite (calculateChecksums_mounted sys _ _ (File content))
    by (try assumption; cbn [depth]; lia).
  cbn [hashTree]. rewrite isIgnored_root, Hex.
  destruct content as [data | [e | e sofar]]; [| reflexivity | reflexivity].
  unfold entryFor. rewrite Rel_self. reflexivity.
Qed.

Lemma root_file_witness :
  calculateChecksums 1 (systemOf "/" "/r/a.txt" (File (inl (bytes "hello"))))
                     "/r/a.txt" ["a"; "build"]
  = Some (Slice [mkFileChecksum "." (hex.EncodeToString (sha1.Sum (bytes "hello")))],
          None)
  /\ calculateChecksums 1 (systemOf "/" "/r/link" (File (inr (ReadFailed EISDIR []))))
                        "/r/link" []
     = Some (Nil,
             Some (WrapError "error walking the directory: "
                     (WrapError "failed to calculate checksum for /r/link: "
                        (PathError "read" "/r/link" EISDIR)))).
Proof.
  split.
  - apply (root_file (systemOf "/" "/r/a.txt" (File (inl (bytes "hello")))) 0
             "/r/a.txt" ["a"; "build"] (inl (bytes "hello"))).
    + show_mounted.
    + reflexivity.
  - apply (root_file (systemOf "/" "/r/link" (File (inr (ReadFailed EISDIR [])))) 0
             "/r/link" [] (inr (ReadFailed EISDIR []))).
    + show_mounted.
    + reflexivity.
Defined.

(** ** Relating paths does not fail *)

Section AbsoluteRoot.

Variable rootDir : string.
Variable ignorePatterns : list string.
Hypothesis rootDir_abs : filepath.IsAbs rootDir = true.

Lemma hashTree_readFailure n :
  forall path st st' err,
    filepath.IsAbs path = true ->
    hashTree rootDir ignorePatterns path n st = (st', Some err) ->
    readFailure err.
Proof.
  induction n as [content | entries rerr IH] using node_ind';
    intros path st st' err Hpath; cbn [hashTree];
    pose proof (isIgnored_abs path ignorePatterns rootDir rootDir_abs Hpath) as Hig;
    destruct (isIgnored path ignorePatterns rootDir) as [[|] [e0 |]];
    try discriminate.
  - destruct content as [data | e]; [discriminate |].
    intros [= <- <-]. constructor.
  - destruct rerr as [e |]; [intros [= <- <-]; constructor |].
    revert st. induction IH as [| e l He _ IHl]; intros st; [discriminate |].
    destruct (hashTree rootDir ignorePatterns (filepath.Join [path; fst e]) (snd e) st)
      as [st1 [err1 |]] eqn:E1.
    + intros [= <- <-]. eapply He; [| exact E1].
      apply IsAbs_Join. exact Hpath.
    + apply IHl.
Qed.

(** Under an absolute root a walk fails only where something that is
    reached cannot be read. *)
Lemma hashTree_unreadable n :
  forall path st st' err,
    filepath.IsAbs path = true ->
    hashTree rootDir ignorePatterns path n st = (st', Some err) ->
    unreadable rootDir ignorePatterns path n = false -> False.
Proof.
  induction n as [content | entries rerr IH] using node_ind';
    intros path st st' err Hpath; cbn [hashTree unreadable]; unfold ignored;
    pose proof (isIgnored_abs path ignorePatterns rootDir rootDir_abs Hpath) as Hig;
    destruct (isIgnored path ignorePatterns rootDir) as [[|] [e0 |]];
    cbn [fst]; try discriminate.
  - destruct content as [data | f]; discriminate.
  - destruct rerr as [f |]; [discriminate |].
    revert st. induction IH as [| e l He _ IHl]; intros st; [discriminate |].
    destruct (hashTree rootDir ignorePatterns (filepath.Join [path; fst e]) (snd e) st)
      as [st1 [err1 |]] eqn:E1.
    + intros _ Hun. apply orb_false_iff in Hun. destruct Hun as [Hun _].
      eapply He; [| exact E1 | exact Hun]. apply IsAbs_Join. exact Hpath.
    + intros Hrest Hun. apply orb_false_iff in Hun. destruct Hun as [_ Hun].
      eapply IHl; eassumption.
Qed.

End AbsoluteRoot.

(** The operations a failure of reading is reported under. *)
Lemma readFailure_operation cause :
  readFailure cause ->
  (exists op path e,
      cause = PathError op path e /\ In op ["open"; "readdirent"; "lstat"])
  \/ (exists op path e,
         cause = WrapError ("failed to calculate checksum for " ++ path ++ ": ")
                   (PathError op path e)
         /\ In op ["open"; "read"]).
Proof.
  intros [path [e | [e | child e]] | path [e | e sofar]].
  - left. do 3 eexists. split; [reflexivity | cbn [In]; auto].
  - left. do 3 eexists. split; [reflexivity | cbn [In]; auto].
  - left. do 3 eexists. split; [reflexivity | cbn [In]; auto].
  - right. do 3 eexists. split; [reflexivity | cbn [In]; auto].
  - right. do 3 eexists. split; [reflexivity | cbn [In]; auto].
Qed.

(** X9: under an absolute root, as [main] passes when [--dir] or the
    working directory is absolute, relating a path of the walk to the
    root never fails: a run that fails fails by a directory that cannot
    be listed, in the open, in the reading of its entries or in the
    examination of one, or by a file that cannot be read, in the open or
    in a read; and a tree without such entries is walked to the end. *)
Theorem absolute_root_failures sys rootDir ignorePatterns t fuel :
  filepath.IsAbs rootDir = true ->
  mounted sys rootDir t -> depth t < fuel ->
  (forall m err,
      calculateChecksums fuel sys rootDir ignorePatterns = Some (m, Some err) ->
      exists cause,
        err = WrapError "error walking the directory: " cause
        /\ readFailure cause
        /\ ((exists op path e,
                cause = PathError op path e
                /\ In op ["open"; "readdirent"; "lstat"])
            \/ (exists op path e,
                   cause
                   = WrapError ("failed to calculate checksum for " ++ path ++ ": ")
                       (PathError op path e)
                   /\ In op ["open"; "read"])))
  /\ (forall path,
         filepath.IsAbs path = true ->
         snd (isIgnored path ignorePatterns rootDir) = None
         /\ snd (filepath.Rel rootDir path) = None)
  /\ (unreadable rootDir ignorePatterns rootDir t = false ->
      exists m, calculateChecksums fuel sys rootDir ignorePatterns = Some (m, None)).
Proof.
  intros Habs Hm Hfuel. split; [| split].
  - intros m err Hcalc.
    rewrite (calculateChecksums_mounted sys _ _ t) in Hcalc by assumption.
    destruct (hashTree rootDir ignorePatterns rootDir t Nil) as [m' [cause |]] eqn:E;
      [| discriminate].
    injection Hcalc as <- <-. exists cause. split; [reflexivity |].
    assert (Hcause : readFailure cause)
      by (eapply hashTree_readFailure; [exact Habs | exact Habs | exact E]).
    split; [exact Hcause | apply readFailure_operation; exact Hcause].
  - intros path Hpath. split.
    + apply isIgnored_abs; assumption.
    + apply Rel_abs; assumption.
  - intros Hun.
    rewrite (calculateChecksums_mounted sys _ _ t) by assumption.
    destruct (hashTree rootDir ignorePatterns rootDir t Nil) as [m' [cause |]] eqn:E;
      [| exists m'; reflexivity].
    exfalso. revert E Hun. apply hashTree_unreadable; exact Habs.
Qed.

Lemma absolute_root_failures_witness :
  (exists cause,
      WrapError "error walking the directory: "
        (PathError "open" "/r/build/locked" EACCES)
      = WrapError "error walking the directory: " cause
      /\ readFailure cause
      /\ ((exists op path e,
              cause = PathError op path e
              /\ In op ["open"; "readdirent"; "lstat"])
          \/ (exists op path e,
                 cause
                 = WrapError ("failed to calculate checksum for " ++ path ++ ": ")
                     (PathError op path e)
                 /\ In op ["open"; "read"])))
  /\ (exists cause,
         WrapError "error walking the directory: "
           (WrapError "failed to calculate checksum for /r/link-dir: "
              (PathError "read" "/r/link-dir" EISDIR))
         = WrapError "error walking the directory: " cause
         /\ readFailure cause
         /\ ((exists op path e,
                 cause = PathError op path e
                 /\ In op ["open"; "readdirent"; "lstat"])
             \/ (exists op path e,
                    cause
                    = WrapError ("failed to calculate checksum for " ++ path ++ ": ")
                        (PathError op path e)
                    /\ In op ["open"; "read"]))).
Proof.
  assert (Hm : mounted (systemOf "/" "/r" ignoreTree) "/r" ignoreTree)
    by show_mounted.
  assert (Hd : depth ignoreTree < 4) by (vm_compute; lia).
  assert (Hm' : mounted (systemOf "/" "/r" linkTree) "/r" linkTree)
    by show_mounted.
  assert (Hd' : depth linkTree < 2) by (vm_compute; lia).
  destruct (absolute_root_failures (systemOf "/" "/r" ignoreTree) "/r" []
              ignoreTree 4 eq_refl Hm Hd) as [H _].
  destruct (absolute_root_failures (systemOf "/" "/r" linkTree) "/r" []
              linkTree 2 eq_refl Hm' Hd') as [H' _].
  split; [exact (H Nil _ eq_refl) | exact (H' Nil _ eq_refl)].
Defined.

(** ** Any manifest read back *)

Lemma runeSize_2 b c1 r r' :
  json.runeSize b (String c1 r) = 2 -> json.runeSize b (String c1 r') = 2.
Proof.
  unfold json.runeSize. destruct (json.lead2 b).
  - destruct (json.cont c1); [reflexivity | discriminate].
  - destruct r as [| c2 [| c3 r3]]; try discriminate.
    + destruct (json.lead3 b c1); [destruct (json.cont c2) |]; discriminate.
    + destruct (json.lead3 b c1); [destruct (json.cont c2); discriminate |].
      destruct (json.lead4 b c1); [| discriminate].
      destruct (json.cont c2 && json.cont c3); discriminate.
Qed.

Lemma runeSize_3 b c1 c2 r r' :
  json.runeSize b (String c1 (String c2 r)) = 3 ->
  json.runeSize b (String c1 (String c2 r')) = 3.
Proof.
  unfold json.runeSize. destruct (json.lead2 b).
  - destruct (json.cont c1); discriminate.
  - destruct (json.lead3 b c1).
    + destruct (json.cont c2); [reflexivity | discriminate].
    + destruct r as [| c3 r3]; [discriminate |].
      destruct (json.lead4 b c1); [| discriminate].
      destruct (json.cont c2 && json.cont c3); discriminate.
Qed.

Lemma runeSize_4 b c1 c2 c3 r r' :
  json.runeSize b (String c1 (String c2 (String c3 r))) = 4 ->
  json.runeSize b (String c1 (String c2 (String c3 r'))) = 4.
Proof.
  unfold json.runeSize. destruct (json.lead2 b).
  - destruct (json.cont c1); discriminate.
  - destruct (json.lead3 b c1).
    + destruct (json.cont c2); discriminate.
    + destruct (json.lead4 b c1); [| discriminate].
      destruct (json.cont c2 && json.cont c3); [reflexivity | discriminate].
Qed.

Lemma validUTF8_replacement s :
  validUTF8 (replacement ++ s) = validUTF8 s.
Proof. reflexivity. Qed.

(** What is read back is well-formed. *)
Lemma coerceUTF8_valid s : validUTF8 (coerceUTF8 s) = true.
Proof.
  remember (String.length s) as n eqn:Hn.
  assert (Hle : String.length s <= n) by lia. clear Hn.
  revert s Hle. induction n as [| n IH]; intros [| b rest] Hle;
    try reflexivity; cbn [String.length] in Hle; [lia |].
  assert (Hrest : validUTF8 (replacement ++ coerceUTF8 rest) = true)
    by (rewrite validUTF8_replacement; apply IH; lia).
  cbn [coerceUTF8]. destruct (json.code b <? 128)%N eqn:Hb.
  - cbn [validUTF8]. rewrite Hb. apply IH. lia.
  - destruct (json.runeSize b rest) as [| [| [| [| [| k]]]]] eqn:Hsize;
      try exact Hrest;
      destruct rest as [| c1 [| c2 [| c3 r3]]]; try exact Hrest;
      cbn [String.length] in Hle; cbn [validUTF8]; rewrite Hb.
    + rewrite (runeSize_2 _ _ _ _ Hsize). apply IH. cbn [String.length]. lia.
    + rewrite (runeSize_2 _ _ _ _ Hsize). apply IH. cbn [String.length]. lia.
    + rewrite (runeSize_2 _ _ _ _ Hsize). apply IH. cbn [String.length]. lia.
    + rewrite (runeSize_3 _ _ _ _ _ Hsize). apply IH. cbn [String.length]. lia.
    + rewrite (runeSize_3 _ _ _ _ _ Hsize). apply IH. cbn [String.length]. lia.
    + rewrite (runeSize_4 _ _ _ _ _ _ Hsize). apply IH. lia.
Qed.

(** A well-formed string is read back as it is. *)
Lemma validUTF8_coerce s : validUTF8 s = true -> coerceUTF8 s = s.
Proof.
  remember (String.length s) as n eqn:Hn.
  assert (Hle : String.length s <= n) by lia. clear Hn.
  revert s Hle. induction n as [| n IH]; intros [| b rest] Hle;
    try reflexivity; cbn [String.length] in Hle; [lia |].
  cbn [coerceUTF8 validUTF8]. destruct (json.code b <? 128)%N.
  - intros H. rewrite IH; [reflexivity | lia | exact H].
  - destruct (json.runeSize b rest) as [| [| [| [| [| k]]]]];
      try discriminate;
      destruct rest as [| c1 [| c2 [| c3 r3]]]; try discriminate;
      cbn [String.length] in Hle; intros H;
      rewrite IH; try reflexivity; try exact H; cbn [String.length]; lia.
Qed.

Lemma recordsOf_asRead l :
  recordsOf (map coerceValue (map FileChecksum_json l)) = Some (map asRead l).
Proof.
  induction l as [| c l IH]; [reflexivity |].
  cbn [map recordsOf]. rewrite IH. reflexivity.
Qed.

Lemma Unmarshal_MarshalIndent m :
  Unmarshal (fst (MarshalIndent m)) = Some (readBackAny m).
Proof.
  unfold Unmarshal, MarshalIndent. cbn [fst]. rewrite decode_encode.
  destruct m as [| l]; [reflexivity |].
  cbn [checksums_json coerceValue]. rewrite recordsOf_asRead. reflexivity.
Qed.

Lemma validManifest_readBackAny m :
  validManifest m = true -> readBackAny m = m.
Proof.
  destruct m as [| l]; [reflexivity |].
  unfold validManifest. cbn [elements readBackAny]. intros H. f_equal.
  induction l as [| c l IH]; [reflexivity |].
  cbn [forallb] in H. apply andb_true_iff in H. destruct H as [Hc Hl].
  apply andb_true_iff in Hc. destruct Hc as [Hp Hs].
  cbn [map]. rewrite (IH Hl). f_equal.
  destruct c as [p s]. unfold asRead. cbn [Path Checksum] in *.
  rewrite (validUTF8_coerce _ Hp), (validUTF8_coerce _ Hs). reflexivity.
Qed.

(** X10: the text written for any manifest, run or no run, can be read
    into records: reading gives the manifest with each field's
    ill-formed bytes replaced by U+FFFD; what is read is well-formed
    UTF-8 and is read back as itself when it is written again; the nil
    manifest and the empty one are told apart, the one written [null]
    and the other a pair of brackets. *)
Theorem any_manifest_read_back (m : slice FileChecksum) :
  snd (MarshalIndent m) = None
  /\ Unmarshal (fst (MarshalIndent m)) = Some (readBackAny m)
  /\ validManifest (readBackAny m) = true
  /\ Unmarshal (fst (MarshalIndent (readBackAny m))) = Some (readBackAny m)
  /\ (fst (MarshalIndent m) = "null" <-> m = Nil)
  /\ (fst (MarshalIndent m) = "[]" <-> m = Slice []).
Proof.
  assert (Hvalid : validManifest (readBackAny m) = true).
  { destruct m as [| l]; [reflexivity |].
    unfold validManifest. cbn [readBackAny elements].
    apply forallb_forall. intros c Hc. apply in_map_iff in Hc.
    destruct Hc as [c0 [<- _]]. unfold asRead. cbn [Path Checksum].
    rewrite !coerceUTF8_valid. reflexivity. }
  split; [reflexivity |]. split; [apply Unmarshal_MarshalIndent |].
  split; [exact Hvalid |]. split.
  - rewrite Unmarshal_MarshalIndent.
    rewrite (validManifest_readBackAny _ Hvalid). reflexivity.
  - split; (split; [| intros ->; reflexivity]).
    + destruct m as [| [| c l]]; [reflexivity | discriminate |].
      unfold MarshalIndent. cbn [fst checksums_json map json.encode].
      discriminate.
    + destruct m as [| [| c l]]; [discriminate | reflexivity |].
      unfold MarshalIndent. cbn [fst checksums_json map json.encode].
      discriminate.
Qed.

(** X11: a manifest whose fields are well-formed UTF-8 is read back
    from its text exactly, so that two such manifests with the same
    text are the same manifest. *)
Theorem manifest_text_injective (m1 m2 : slice FileChecksum) :
  validManifest m1 = true -> validManifest m2 = true ->
  Unmarshal (fst (MarshalIndent m1)) = Some m1
  /\ (fst (MarshalIndent m1) = fst (MarshalIndent m2) -> m1 = m2).
Proof.
  intros H1 H2.
  assert (Hread : forall m, validManifest m = true ->
                            Unmarshal (fst (MarshalIndent m)) = Some m).
  { intros m H. rewrite Unmarshal_MarshalIndent, (validManifest_readBackAny _ H).
    reflexivity. }
  split; [apply Hread; exact H1 |].
  intros Htext. pose proof (Hread m1 H1) as E1. rewrite Htext, (Hread m2 H2) in E1.
  congruence.
Qed.

Lemma manifest_text_injective_witness :
  Unmarshal (fst (MarshalIndent (Slice [mkFileChecksum "a b.txt" "not a digest"])))
  = Some (Slice [mkFileChecksum "a b.txt" "not a digest"])
  /\ (fst (MarshalIndent (Slice [mkFileChecksum "a b.txt" "not a digest"]))
      = fst (MarshalIndent (Slice [mkFileChecksum "a b.txt" "not a digest"])) ->
      Slice [mkFileChecksum "a b.txt" "not a digest"]
      = Slice [mkFileChecksum "a b.txt" "not a digest"]).
Proof.
  apply (manifest_text_injective
           (Slice [mkFileChecksum "a b.txt" "not a digest"])
           (Slice [mkFileChecksum "a b.txt" "not a digest"])); reflexivity.
Defined.

(** ** Paths as lists of names *)

Lemma properName_spec name :
  properName name = true ->
  (name =? "") = false /\ (name =? ".") = false /\ (name =? "..") = false
  /\ countChar "/" name = 0.
Proof.
  unfold properName. intros H.
  repeat (apply andb_true_iff in H; destruct H as [H ?]).
  repeat match goal with
         | H : negb _ = true |- _ => apply negb_true_iff in H
         end.
  repeat split; try assumption. apply Nat.eqb_eq. assumption.
Qed.

Lemma Split_whole s sep : countChar sep s = 0 -> strings.Split s sep = [s].
Proof.
  induction s as [| c s IH]; [reflexivity |].
  cbn [countChar strings.Split]. destruct (Ascii.eqb c sep); [discriminate |].
  intros H. rewrite (IH H). reflexivity.
Qed.

Lemma Split_Join l sep :
  Forall (fun piece => countChar sep piece = 0) l ->
  strings.Split (strings.Join l (String sep "")) sep
  = match l with [] => [""] | _ => l end.
Proof.
  unfold strings.Join. induction 1 as [| x l Hx Hl IH]; [reflexivity |].
  destruct l as [| y l'].
  - cbn [String.concat]. apply Split_whole. exact Hx.
  - change (String.concat (String sep "") (x :: y :: l'))
      with (x ++ String sep (String.concat (String sep "") (y :: l')))%string.
    rewrite Split_app, IH, (Split_whole _ _ Hx). reflexivity.
Qed.

Lemma cleanElems_proper rooted l :
  Forall (fun name => properName name = true) l ->
  forall stack, filepath.cleanElems rooted l stack = (rev stack ++ l)%list.
Proof.
  induction 1 as [| e l He Hl IH]; intros stack.
  - cbn [filepath.cleanElems]. rewrite app_nil_r. reflexivity.
  - destruct (properName_spec e He) as (H1 & H2 & H3 & _).
    cbn [filepath.cleanElems]. rewrite H1, H2, H3. cbn [orb].
    rewrite IH. cbn [rev]. rewrite <- app_assoc. reflexivity.
Qed.

Lemma cleanElems_snoc rooted name :
  properName name = true ->
  forall l stack,
    filepath.cleanElems rooted (l ++ [name]) stack
    = (filepath.cleanElems rooted l stack ++ [name])%list.
Proof.
  intros Hname. destruct (properName_spec name Hname) as (H1 & H2 & H3 & _).
  induction l as [| e l IH]; intros stack.
  - cbn [app filepath.cleanElems]. rewrite H1, H2, H3. reflexivity.
  - cbn [app filepath.cleanElems].
    destruct ((e =? "") || (e =? ".")); [apply IH |].
    destruct (e =? ".."); [| apply IH].
    destruct stack as [| top below]; [destruct rooted; apply IH |].
    destruct (top =? ".."); apply IH.
Qed.

(** What [Clean] keeps of a rooted path are names. *)
Lemma cleanElems_names l :
  Forall (fun piece => countChar "/" piece = 0) l ->
  forall stack,
    Forall (fun name => properName name = true) stack ->
    Forall (fun name => properName name = true) (filepath.cleanElems true l stack).
Proof.
  induction 1 as [| e l He Hl IH]; intros stack Hstack.
  - cbn [filepath.cleanElems]. apply Forall_rev. exact Hstack.
  - cbn [filepath.cleanElems].
    destruct (e =? "") eqn:E1; [apply IH; exact Hstack |].
    destruct (e =? ".") eqn:E2; [apply IH; exact Hstack |]. cbn [orb].
    destruct (e =? "..") eqn:E3.
    + destruct stack as [| top below]; [apply IH; constructor |].
      inversion Hstack as [| ? ? Htop Hbelow]; subst.
      destruct (properName_spec top Htop) as (_ & _ & H3 & _). rewrite H3.
      apply IH. exact Hbelow.
    + apply IH. constructor; [| exact Hstack].
      unfold properName. rewrite E1, E2, E3.
      change filepath.Separator with "/"%char. rewrite He. reflexivity.
Qed.

Lemma parts_names path :
  filepath.IsAbs path = true ->
  exists elems,
    filepath.parts path = (true, elems)
    /\ Forall (fun name => properName name = true) elems.
Proof.
  intros Habs. unfold filepath.parts. rewrite Habs. eexists. split; [reflexivity |].
  apply cleanElems_names; [| constructor].
  apply (proj2 (Split_count path "/")).
Qed.

Lemma proper_no_separator l :
  Forall (fun name => properName name = true) l ->
  Forall (fun piece => countChar "/" piece = 0) l.
Proof.
  intros H. eapply Forall_impl; [| exact H].
  intros name Hname. apply (properName_spec name Hname).
Qed.

(** A rooted sequence of names is the cleaned path of its text. *)
Lemma parts_unparts l :
  Forall (fun name => properName name = true) l ->
  filepath.parts (filepath.unparts (true, l)) = (true, l).
Proof.
  intros Hl. unfold filepath.unparts, filepath.parts.
  change ("/" ++ strings.Join l "/")%string with (String "/" (strings.Join l "/")).
  rewrite IsAbs_slash. f_equal.
  change (String "/" (strings.Join l "/"))
    with ("" ++ String filepath.Separator (strings.Join l "/"))%string.
  rewrite Split_app. change filepath.Separator with "/"%char.
  rewrite (Split_Join l "/" (proper_no_separator l Hl)).
  destruct l as [| x l']; [reflexivity |].
  change (strings.Split "" "/") with [""]. cbn [app filepath.cleanElems].
  cbn [String.eqb orb]. apply (cleanElems_proper true _ Hl []).
Qed.

(** Joining a name to a rooted path adds the name to its elements. *)
Lemma Join_name path name elems :
  filepath.IsAbs path = true ->
  filepath.parts path = (true, elems) ->
  properName name = true ->
  filepath.Join [path; name] = filepath.unparts (true, (elems ++ [name])%list).
Proof.
  intros Habs Hparts Hname.
  destruct (IsAbs_String path Habs) as [rest ->].
  destruct (properName_spec name Hname) as (_ & _ & _ & Hsep).
  unfold filepath.Join. cbn [String.eqb].
  change (strings.Join [String "/" rest; name] "/")
    with (String "/" rest ++ String filepath.Separator name)%string.
  unfold filepath.Clean. f_equal. unfold filepath.parts in *.
  rewrite append_String, IsAbs_slash. rewrite IsAbs_slash in Hparts.
  f_equal. rewrite <- append_String, Split_app.
  change filepath.Separator with "/"%char in *.
  rewrite (Split_whole name "/" Hsep), (cleanElems_snoc true name Hname).
  apply (f_equal snd) in Hparts. cbn [snd] in Hparts. rewrite Hparts. reflexivity.
Qed.

Lemma parts_Join path name elems :
  filepath.IsAbs path = true ->
  filepath.parts path = (true, elems) ->
  Forall (fun name => properName name = true) elems ->
  properName name = true ->
  filepath.parts (filepath.Join [path; name]) = (true, (elems ++ [name])%list).
Proof.
  intros Habs Hparts Helems Hname.
  rewrite (Join_name path name elems Habs Hparts Hname).
  apply parts_unparts. apply Forall_app. split; [exact Helems |].
  constructor; [exact Hname | constructor].
Qed.

Lemma dropCommon_app base names :
  filepath.dropCommon base (base ++ names) = ([], names).
Proof.
  induction base as [| b base IH]; [destruct names; reflexivity |].
  cbn [app filepath.dropCommon]. rewrite String.eqb_refl. exact IH.
Qed.

(** The path of an entry below the root, relative to the root, is the
    names that lead to it, joined by the separator. *)
Lemma Rel_names rootDir path base names :
  filepath.parts rootDir = (true, base) ->
  filepath.parts path = (true, (base ++ names)%list) ->
  Forall (fun name => properName name = true) base ->
  Forall (fun name => properName name = true) names ->
  filepath.Rel rootDir path = (relOf names, None).
Proof.
  intros Hroot Hpath Hbase Hnames. unfold filepath.Rel, filepath.Clean.
  rewrite Hroot, Hpath.
  destruct names as [| name names'].
  - rewrite app_nil_r, String.eqb_refl. reflexivity.
  - destruct (filepath.unparts (true, (base ++ name :: names')%list)
              =? filepath.unparts (true, base)) eqn:E.
    + apply String.eqb_eq in E. apply (f_equal filepath.parts) in E.
      rewrite !parts_unparts in E
        by (try apply Forall_app; try split; assumption).
      injection E as E. rewrite <- (app_nil_r base) in E at 2.
      apply app_inv_head in E. discriminate.
    + cbn [Bool.eqb negb]. rewrite dropCommon_app. reflexivity.
Qed.

(** ** The walk by names *)

Section WalkByNames.

Variable rootDir : string.
Variable ignorePatterns : list string.
Variable base : list string.
Hypothesis rootDir_abs : filepath.IsAbs rootDir = true.
Hypothesis rootDir_parts : filepath.parts rootDir = (true, base).
Hypothesis base_names : Forall (fun name => properName name = true) base.

Lemma isIgnored_names path names :
  filepath.parts path = (true, (base ++ names)%list) ->
  Forall (fun name => properName name = true) names ->
  isIgnored path ignorePatterns rootDir = (ignoredName ignorePatterns names, None).
Proof.
  intros Hparts Hnames.
  rewrite isIgnored_Rel, (Rel_names rootDir path base names); auto.
Qed.

Lemma hashTree_names n :
  forall path names st,
    filepath.IsAbs path = true ->
    filepath.parts path = (true, (base ++ names)%list) ->
    Forall (fun name => properName name = true) names ->
    properTree n = true ->
    match hashTree rootDir ignorePatterns path n st with
    | (st', None) =>
        blocked ignorePatterns names n = false
        /\ st' = fold_left append (listed ignorePatterns names n) st
    | (_, Some _) => blocked ignorePatterns names n = true
    end.
Proof.
  induction n as [content | entries rerr IH] using node_ind';
    intros path names st Habs Hparts Hnames Hproper;
    cbn [hashTree listed blocked];
    rewrite (isIgnored_names path names Hparts Hnames);
    destruct (ignoredName ignorePatterns names);
    try solve [split; reflexivity].
  - destruct content as [data | e]; [| reflexivity].
    split; [reflexivity |]. unfold entryFor.
    rewrite (Rel_names rootDir path base names); auto.
  - destruct rerr as [e |]; [reflexivity |].
    cbn [properTree] in Hproper. revert st.
    induction IH as [| e l He _ IHl]; intros st; [split; reflexivity |].
    apply andb_true_iff in Hproper. destruct Hproper as [Hproper Hl].
    apply andb_true_iff in Hproper. destruct Hproper as [Hname Hsub].
    assert (Hnames1 : Forall (fun name => properName name = true)
                        (names ++ [fst e])%list)
      by (apply Forall_app; split; [exact Hnames | repeat constructor; exact Hname]).
    assert (Hparts1 : filepath.parts (filepath.Join [path; fst e])
                      = (true, (base ++ names ++ [fst e])%list)).
    { rewrite app_assoc. apply parts_Join; auto.
      apply Forall_app. split; assumption. }
    specialize (He (filepath.Join [path; fst e]) (names ++ [fst e])%list st
                  (IsAbs_Join path (fst e) Habs) Hparts1 Hnames1 Hsub).
    destruct (hashTree rootDir ignorePatterns (filepath.Join [path; fst e]) (snd e) st)
      as [st1 [err1 |]].
    + rewrite He. reflexivity.
    + destruct He as [He1 He2]. rewrite He1. cbn [orb].
      specialize (IHl Hl st1).
      match type of IHl with
      | match ?r with _ => _ end => destruct r as [st2 [err2 |]]
      end; [exact IHl |].
      destruct IHl as [IH1 IH2]. split; [exact IH1 |].
      rewrite fold_left_app, <- He2. exact IH2.
Qed.

End WalkByNames.

(** The run on a tree of names under an absolute root, by the names. *)
Lemma calculateChecksums_names sys rootDir ignorePatterns t fuel :
  filepath.IsAbs rootDir = true ->
  mounted sys rootDir t -> depth t < fuel -> properTree t = true ->
  exists result,
    calculateChecksums fuel sys rootDir ignorePatterns = Some result
    /\ if blocked ignorePatterns [] t
       then fst result = Nil /\ snd result <> None
       else result = (fold_left append (listed ignorePatterns [] t) Nil, None).
Proof.
  intros Habs Hm Hfuel Hproper.
  rewrite (calculateChecksums_mounted sys _ _ t) by assumption.
  destruct (parts_names rootDir Habs) as [base [Hparts Hbase]].
  assert (Hparts0 : filepath.parts rootDir = (true, (base ++ [])%list))
    by (rewrite app_nil_r; exact Hparts).
  pose proof (hashTree_names rootDir ignorePatterns base Hparts Hbase t rootDir []
                Nil Habs Hparts0 (Forall_nil _) Hproper) as H.
  destruct (hashTree rootDir ignorePatterns rootDir t Nil) as [st [err |]].
  - eexists. split; [reflexivity |]. rewrite H. cbn [walked fst snd].
    split; [reflexivity | discriminate].
  - destruct H as [H1 H2]. eexists. split; [reflexivity |].
    rewrite H1, H2. reflexivity.
Qed.

(** X12: under an absolute root, and with entry names as a directory
    holds them (not empty, not [.] or [..], without a separator), the run
    is a function of the names and contents of the tree: the path of an
    entry is the names that lead to it from the root joined by [/], the
    root itself being [.]; an entry is passed over when a pattern is a
    prefix of that path; the run fails exactly when an entry that is
    reached cannot be read, and otherwise returns the entries of the
    files reached, appended one by one to the nil manifest. *)
Theorem run_by_names sys rootDir ignorePatterns t fuel :
  filepath.IsAbs rootDir = true ->
  mounted sys rootDir t -> depth t < fuel -> properTree t = true ->
  (exists result,
      calculateChecksums fuel sys rootDir ignorePatterns = Some result
      /\ if blocked ignorePatterns [] t
         then fst result = Nil /\ snd result <> None
         else result = (fold_left append (listed ignorePatterns [] t) Nil, None))
  /\ hashed rootDir ignorePatterns rootDir t = listed ignorePatterns [] t.
Proof.
  intros Habs Hm Hfuel Hproper.
  split; [apply calculateChecksums_names; assumption |].
  destruct (parts_names rootDir Habs) as [base [Hparts Hbase]].
  assert (Hgen : forall n path names,
             filepath.IsAbs path = true ->
             filepath.parts path = (true, (base ++ names)%list) ->
             Forall (fun name => properName name = true) names ->
             properTree n = true ->
             hashed rootDir ignorePatterns path n = listed ignorePatterns names n).
  { induction n as [content | entries rerr IH] using node_ind';
      intros path names Hpabs Hpparts Hnames Hp;
      cbn [hashed listed]; unfold ignored;
      rewrite (isIgnored_names rootDir ignorePatterns base Hparts Hbase
                 path names Hpparts Hnames);
      cbn [fst]; destruct (ignoredName ignorePatterns names); try reflexivity.
    - destruct content as [data | e]; [| reflexivity].
      unfold entryFor. rewrite (Rel_names rootDir path base names); auto.
    - cbn [properTree] in Hp.
      induction IH as [| e l He _ IHl]; [reflexivity |].
      apply andb_true_iff in Hp. destruct Hp as [Hp Hl].
      apply andb_true_iff in Hp. destruct Hp as [Hname Hsub].
      rewrite (IHl Hl). f_equal.
      apply He; auto.
      + apply IsAbs_Join. exact Hpabs.
      + rewrite app_assoc. apply parts_Join; auto.
        apply Forall_app. split; assumption.
      + apply Forall_app. split; [exact Hnames | repeat constructor; exact Hname]. }
  apply Hgen; auto. rewrite app_nil_r. exact Hparts.
Qed.

Lemma run_by_names_witness :
  (exists result,
      calculateChecksums 4 (systemOf "/" "/r" ignoreTree) "/r" ["build"] = Some result
      /\ if blocked ["build"] [] ignoreTree
         then fst result = Nil /\ snd result <> None
         else result = (fold_left append (listed ["build"] [] ignoreTree) Nil, None))
  /\ hashed "/r" ["build"] "/r" ignoreTree = listed ["build"] [] ignoreTree.
Proof.
  apply (run_by_names (systemOf "/" "/r" ignoreTree) "/r" ["build"] ignoreTree 4).
  - reflexivity.
  - show_mounted.
  - vm_compute; lia.
  - reflexivity.
Defined.

(** X13: the manifest does not depend on where the tree is: two
    absolute roots that show the same tree, on the same system or on two,
    give the same manifest, and the same text to write, when one of the
    runs succeeds. *)
Theorem manifest_relocatable sys1 sys2 root1 root2 ignorePatterns t fuel1 fuel2 m :
  filepath.IsAbs root1 = true -> filepath.IsAbs root2 = true ->
  mounted sys1 root1 t -> mounted sys2 root2 t ->
  depth t < fuel1 -> depth t < fuel2 -> properTree t = true ->
  calculateChecksums fuel1 sys1 root1 ignorePatterns = Some (m, None) ->
  calculateChecksums fuel2 sys2 root2 ignorePatterns = Some (m, None).
Proof.
  intros Habs1 Habs2 Hm1 Hm2 Hf1 Hf2 Hproper Hcalc.
  destruct (calculateChecksums_names sys1 root1 ignorePatterns t fuel1
              Habs1 Hm1 Hf1 Hproper) as [r1 [E1 H1]].
  destruct (calculateChecksums_names sys2 root2 ignorePatterns t fuel2
              Habs2 Hm2 Hf2 Hproper) as [r2 [E2 H2]].
  rewrite E1 in Hcalc. injection Hcalc as ->.
  destruct (blocked ignorePatterns [] t).
  - destruct H1 as [_ H1]. cbn [snd] in H1. congruence.
  - rewrite E2, H2, <- H1. reflexivity.
Qed.

Lemma manifest_relocatable_witness :
  calculateChecksums 5 (systemOf "/" "/home/runner/work" exampleTree)
                     "/home/runner/work" ["sub/"]
  = Some (Slice [mkFileChecksum "a.txt"
                   (hex.EncodeToString (sha1.Sum (bytes "hello")))], None).
Proof.
  apply (manifest_relocatable
           (systemOf "/" "/r" exampleTree)
           (systemOf "/" "/home/runner/work" exampleTree)
           "/r" "/home/runner/work" ["sub/"] exampleTree 3 5).
  - reflexivity.
  - reflexivity.
  - show_mounted.
  - show_mounted.
  - vm_compute; lia.
  - vm_compute; lia.
  - reflexivity.
  - reflexivity.
Defined.

(** ** The paths of the manifest *)

Lemma relOf_Split l :
  Forall (fun name => properName name = true) l ->
  strings.Split (relOf l) "/" = match l with [] => ["."] | _ => l end.
Proof.
  intros Hl. destruct l as [| x l']; [reflexivity |].
  change (relOf (x :: l')) with (strings.Join (x :: l') "/").
  apply (Split_Join (x :: l') "/"). apply proper_no_separator. exact Hl.
Qed.

Lemma relOf_inj l1 l2 :
  Forall (fun name => properName name = true) l1 ->
  Forall (fun name => properName name = true) l2 ->
  relOf l1 = relOf l2 -> l1 = l2.
Proof.
  intros H1 H2 E. apply (f_equal (fun s => strings.Split s "/")) in E.
  rewrite (relOf_Split l1 H1), (relOf_Split l2 H2) in E.
  destruct l1 as [| x1 l1'], l2 as [| x2 l2']; try reflexivity; try exact E.
  - injection E as <- _. inversion H2 as [| ? ? Hx _]. discriminate.
  - injection E as -> _. inversion H1 as [| ? ? Hx _]. discriminate.
Qed.

Lemma elements_fold_append {A} (l : list A) :
  forall st, elements (fold_left append l st) = (elements st ++ l)%list.
Proof.
  induction l as [| x l IH]; intros st; cbn [fold_left].
  - rewrite app_nil_r. reflexivity.
  - rewrite IH. unfold append. cbn [elements]. rewrite <- app_assoc. reflexivity.
Qed.

Section ListedPaths.

Variable ignorePatterns : list string.

(** The path of a listed entry is the names above the tree followed by
    the names that lead to the entry inside it. *)
Lemma listed_paths n :
  forall names c,
    properTree n = true ->
    In c (listed ignorePatterns names n) ->
    match n with
    | File _ => Path c = relOf names
    | Dir entries _ =>
        exists name below,
          In name (map fst entries)
          /\ Forall (fun name => properName name = true) (name :: below)
          /\ Path c = relOf (names ++ name :: below)
    end.
Proof.
  induction n as [content | entries rerr IH] using node_ind';
    intros names c Hproper; cbn [listed];
    destruct (ignoredName ignorePatterns names); try solve [intros []].
  - destruct content as [data | e]; [| intros []].
    intros [<- | []]. reflexivity.
  - cbn [properTree] in Hproper.
    induction IH as [| e l He _ IHl]; [intros [] |].
    apply andb_true_iff in Hproper. destruct Hproper as [Hproper Hl].
    apply andb_true_iff in Hproper. destruct Hproper as [Hname Hsub].
    intros Hin. apply in_app_or in Hin. destruct Hin as [Hin | Hin].
    + specialize (He (names ++ [fst e])%list c Hsub Hin).
      destruct (snd e) as [content | entries' rerr'].
      * exists (fst e), []. split; [left; reflexivity |].
        split; [repeat constructor; exact Hname | exact He].
      * destruct He as (name & below & _ & Hbelow & Hpath).
        exists (fst e), (name :: below). split; [left; reflexivity |].
        split; [constructor; assumption |].
        rewrite <- app_assoc in Hpath. exact Hpath.
    + destruct (IHl Hl Hin) as (name & below & Hname' & Hbelow & Hpath).
      exists name, below. split; [right; exact Hname' | split; assumption].
Qed.

Lemma listed_NoDup n :
  forall names,
    Forall (fun name => properName name = true) names ->
    properTree n = true -> uniqueNames n ->
    NoDup (map Path (listed ignorePatterns names n)).
Proof.
  induction n as [content | entries rerr IH] using node_ind';
    intros names Hnames Hproper Hunique.
  - cbn [listed]. destruct (ignoredName ignorePatterns names); [constructor |].
    destruct content as [data | e]; [| constructor].
    constructor; [intros [] | constructor].
  - destruct (ignoredName ignorePatterns names) eqn:Hign;
      [cbn [listed]; rewrite Hign; constructor |].
    destruct Hunique as [Hnd Hsubs].
    assert (Hrest : forall l c,
               properTree (Dir l rerr) = true ->
               In c (listed ignorePatterns names (Dir l rerr)) ->
               exists name below,
                 In name (map fst l)
                 /\ Forall (fun name => properName name = true) (name :: below)
                 /\ Path c = relOf (names ++ name :: below))
      by (intros l c Hp Hc; exact (listed_paths (Dir l rerr) names c Hp Hc)).
    cbn [listed] in *. rewrite Hign in *. cbn [properTree] in *.
    induction IH as [| e l He _ IHl]; [constructor |].
    apply andb_true_iff in Hproper. destruct Hproper as [Hproper Hl].
    apply andb_true_iff in Hproper. destruct Hproper as [Hname Hsub].
    destruct Hsubs as [Huniq Hsubs].
    cbn [map] in Hnd. inversion Hnd as [| ? ? Hnotin Hnd']; subst.
    assert (Hnames1 : Forall (fun name => properName name = true)
                        (names ++ [fst e])%list)
      by (apply Forall_app; split; [exact Hnames | repeat constructor; exact Hname]).
    rewrite map_app. apply NoDup_app.
    + apply He; assumption.
    + apply IHl; assumption.
    + intros p Hp1 Hp2.
      apply in_map_iff in Hp1. destruct Hp1 as (c1 & <- & Hc1).
      apply in_map_iff in Hp2. destruct Hp2 as (c2 & Heq & Hc2).
      destruct (Hrest l c2 Hl Hc2) as (name & below & Hin & Hbelow & Hpath2).
      assert (Hpath1 : exists below1,
                 Forall (fun name => properName name = true) below1
                 /\ Path c1 = relOf (names ++ fst e :: below1)).
      { pose proof (listed_paths (snd e) (names ++ [fst e])%list c1 Hsub Hc1) as H1.
        destruct (snd e) as [content | entries' rerr'].
        - exists []. split; [constructor | exact H1].
        - destruct H1 as (name1 & below1 & _ & Hb1 & H1).
          exists (name1 :: below1). split; [exact Hb1 |].
          rewrite <- app_assoc in H1. exact H1. }
      destruct Hpath1 as (below1 & Hbelow1 & Hpath1).
      rewrite Hpath1, Hpath2 in Heq. apply relOf_inj in Heq.
      * apply app_inv_head in Heq. injection Heq as -> _. contradiction.
      * apply Forall_app. split; assumption.
      * apply Forall_app. split; [exact Hnames | constructor; assumption].
Qed.

End ListedPaths.

(** X14: under an absolute root, and with names as directories hold
    them, the paths of the manifest are relative and made of such names:
    below a root directory each path splits at the separators into
    names, none empty, [.] or [..], and a root that is a file has the
    path [.]; when no directory holds a name twice, no two entries of the
    manifest have the same path. *)
Theorem manifest_paths sys rootDir ignorePatterns t fuel m :
  filepath.IsAbs rootDir = true ->
  mounted sys rootDir t -> depth t < fuel -> properTree t = true ->
  calculateChecksums fuel sys rootDir ignorePatterns = Some (m, None) ->
  (forall c,
      In c (elements m) ->
      filepath.IsAbs (Path c) = false
      /\ match t with
         | File _ => Path c = "."
         | Dir _ _ =>
             Forall (fun name => properName name = true)
                    (strings.Split (Path c) "/")
         end)
  /\ (uniqueNames t -> NoDup (map Path (elements m))).
Proof.
  intros Habs Hm Hfuel Hproper Hcalc.
  destruct (calculateChecksums_names sys rootDir ignorePatterns t fuel
              Habs Hm Hfuel Hproper) as [r [E H]].
  rewrite E in Hcalc. injection Hcalc as ->.
  destruct (blocked ignorePatterns [] t);
    [destruct H as [_ H]; cbn [snd] in H; congruence |].
  apply (f_equal fst) in H. cbn [fst] in H. subst m.
  rewrite elements_fold_append. cbn [elements app]. split.
  - intros c Hc.
    pose proof (listed_paths ignorePatterns t [] c Hproper Hc) as Hpath.
    destruct t as [content | entries rerr].
    + rewrite Hpath. split; reflexivity.
    + destruct Hpath as (name & below & _ & Hnames & ->). cbn [app].
      rewrite (relOf_Split _ Hnames). split; [| exact Hnames].
      inversion Hnames as [| ? ? Hname _]; subst.
      destruct (properName_spec name Hname) as (Hne & _ & _ & Hsep).
      change (relOf (name :: below)) with (strings.Join (name :: below) "/").
      destruct name as [| ch name']; [discriminate |].
      unfold strings.Join. rewrite concat_String.
      unfold filepath.IsAbs, strings.HasPrefix. cbn [String.prefix].
      cbn [countChar] in Hsep.
      destruct (Ascii.eqb_spec ch "/") as [-> | Hch]; [discriminate |].
      destruct (ascii_dec "/" ch) as [<- | _]; [congruence | reflexivity].
  - intros Hunique. apply listed_NoDup; auto.
Qed.

Lemma manifest_paths_witness :
  (forall c,
      In c (elements (Slice [mkFileChecksum "a.txt"
                               (hex.EncodeToString (sha1.Sum (bytes "hello")));
                             mkFileChecksum "sub/b.txt"
                               (hex.EncodeToString (sha1.Sum (bytes "world")))])) ->
      filepath.IsAbs (Path c) = false
      /\ Forall (fun name => properName name = true) (strings.Split (Path c) "/"))
  /\ NoDup (map Path
              (elements (Slice [mkFileChecksum "a.txt"
                                  (hex.EncodeToString (sha1.Sum (bytes "hello")));
                                mkFileChecksum "sub/b.txt"
                                  (hex.EncodeToString (sha1.Sum (bytes "world")))]))).
Proof.
  assert (Hm : mounted (systemOf "/" "/r" exampleTree) "/r" exampleTree)
    by show_mounted.
  assert (Hd : depth exampleTree < 3) by (vm_compute; lia).
  assert (Hu : uniqueNames exampleTree).
  { cbn [uniqueNames exampleTree map fst snd].
    repeat split; repeat constructor; cbn [In]; intuition discriminate. }
  destruct (manifest_paths (systemOf "/" "/r" exampleTree) "/r" [] exampleTree 3 _
              eq_refl Hm Hd eq_refl eq_refl) as [H1 H2].
  split; [exact H1 | exact (H2 Hu)].
Defined.

(** ** Pruning and filtering *)

Lemma prefix_app p s r :
  String.prefix p s = true -> String.prefix p (s ++ r) = true.
Proof.
  revert s. induction p as [| a p IH]; intros s; [intros _; apply prefix_empty |].
  destruct s as [| b s]; cbn [String.prefix]; [discriminate |].
  rewrite append_String. cbn [String.prefix].
  destruct (ascii_dec a b); [apply IH | discriminate].
Qed.

Lemma concat_app sep l1 l2 :
  l1 <> [] ->
  exists rest,
    String.concat sep (l1 ++ l2) = (String.concat sep l1 ++ rest)%string.
Proof.
  induction l1 as [| x l1 IH]; [congruence |]. intros _.
  destruct l1 as [| y l1'].
  - destruct l2 as [| z l2']; cbn [app String.concat].
    + exists "". rewrite append_nil_r. reflexivity.
    + exists (sep ++ String.concat sep (z :: l2'))%string. reflexivity.
  - destruct IH as [rest IH]; [discriminate |]. exists rest.
    change (String.concat sep ((x :: y :: l1') ++ l2))
      with (x ++ sep ++ String.concat sep ((y :: l1') ++ l2))%string.
    rewrite IH.
    change (String.concat sep (x :: y :: l1'))
      with (x ++ sep ++ String.concat sep (y :: l1'))%string.
    rewrite !append_assoc. reflexivity.
Qed.

(** A pattern that ignores a directory below the root is a prefix of
    the paths of all that is in it. *)
Lemma ignoredName_below ignorePatterns names below :
  names <> [] ->
  ignoredName ignorePatterns names = true ->
  ignoredName ignorePatterns (names ++ below) = true.
Proof.
  intros Hne H. unfold ignoredName in *. apply existsb_exists in H.
  destruct H as (pattern & Hin & Hpre). apply existsb_exists.
  exists pattern. split; [exact Hin |].
  unfold strings.HasPrefix, relOf in *.
  destruct names as [| x names']; [congruence |].
  destruct ((x :: names') ++ below)%list as [| y l] eqn:E; [discriminate |].
  rewrite <- E. unfold strings.Join in *.
  destruct (concat_app "/" (x :: names') below Hne) as [rest ->].
  apply prefix_app. exact Hpre.
Qed.

Section Filtering.

Variable ignorePatterns : list string.

Lemma filter_none {A} (f : A -> bool) l :
  (forall x, In x l -> f x = false) -> filter f l = [].
Proof.
  induction l as [| x l IH]; [reflexivity |]. intros H. cbn [filter].
  rewrite (H x (or_introl eq_refl)). apply IH. intros y Hy. apply H. right. exact Hy.
Qed.

Lemma listed_filter n :
  forall names,
    properTree n = true ->
    listed ignorePatterns names n
    = if ignoredName ignorePatterns names then []
      else filter (kept ignorePatterns) (listed [] names n).
Proof.
  assert (Hall : forall t names,
             properTree t = true ->
             names <> [] -> ignoredName ignorePatterns names = true ->
             filter (kept ignorePatterns) (listed [] names t) = []).
  { intros t names Hp Hne Hign. apply filter_none. intros c Hc.
    pose proof (listed_paths [] t names c Hp Hc) as Hpath.
    assert (Hbelow : exists below, Path c = relOf (names ++ below)).
    { destruct t as [content | entries rerr].
      - exists []. rewrite app_nil_r. exact Hpath.
      - destruct Hpath as (name & below & _ & _ & Hpath). eauto. }
    destruct Hbelow as [below Hbelow]. unfold kept. rewrite Hbelow.
    apply negb_false_iff. apply (ignoredName_below _ _ below Hne Hign). }
  induction n as [content | entries rerr IH] using node_ind';
    intros names Hproper; cbn [listed];
    destruct (ignoredName ignorePatterns names) eqn:Hign; try reflexivity;
    change (ignoredName [] names) with false; cbn iota.
  - destruct content as [data | e]; [| reflexivity].
    cbn [filter]. unfold kept. cbn [Path].
    change (existsb (fun pattern => strings.HasPrefix (relOf names) pattern)
              ignorePatterns)
      with (ignoredName ignorePatterns names).
    rewrite Hign. reflexivity.
  - cbn [properTree] in Hproper.
    induction IH as [| e l He _ IHl]; [reflexivity |].
    apply andb_true_iff in Hproper. destruct Hproper as [Hproper Hl].
    apply andb_true_iff in Hproper. destruct Hproper as [Hname Hsub].
    rewrite filter_app, <- (IHl Hl). f_equal.
    assert (Hne : (names ++ [fst e])%list <> [])
      by (destruct names; discriminate).
    rewrite (He (names ++ [fst e])%list Hsub).
    destruct (ignoredName ignorePatterns (names ++ [fst e])) eqn:Hign1;
      [| reflexivity].
    symmetry. apply Hall; assumption.
Qed.

End Filtering.

Lemma blocked_fewer ignorePatterns n :
  forall names,
    blocked ignorePatterns names n = true -> blocked [] names n = true.
Proof.
  induction n as [content | entries rerr IH] using node_ind';
    intros names; cbn [blocked]; change (ignoredName [] names) with false;
    cbn iota; destruct (ignoredName ignorePatterns names); try discriminate;
    try solve [auto].
  destruct rerr as [e |]; [auto |].
  induction IH as [| e l He _ IHl]; [auto |].
  intros H. apply orb_true_iff in H. apply orb_true_iff.
  destruct H as [H | H]; [left; apply He; exact H | right; apply IHl; exact H].
Qed.

(** X15: pruning loses nothing but the reading.  Under an absolute root
    and with names as directories hold them, when the run without
    patterns succeeds, so does the run with patterns, and its manifest is
    the other one filtered: nothing when a pattern is a prefix of [.],
    the path of the root, and otherwise the entries of whose own path no
    pattern is a prefix, in their order. *)
Theorem pruning_is_filtering sys rootDir ignorePatterns t fuel m0 :
  filepath.IsAbs rootDir = true ->
  mounted sys rootDir t -> depth t < fuel -> properTree t = true ->
  calculateChecksums fuel sys rootDir [] = Some (m0, None) ->
  exists m,
    calculateChecksums fuel sys rootDir ignorePatterns = Some (m, None)
    /\ elements m
       = if existsb (fun pattern => String.prefix pattern ".") ignorePatterns
         then []
         else filter
                (fun c =>
                   negb (existsb (fun pattern => strings.HasPrefix (Path c) pattern)
                           ignorePatterns))
                (elements m0).
Proof.
  intros Habs Hm Hfuel Hproper Hcalc0.
  destruct (calculateChecksums_names sys rootDir [] t fuel Habs Hm Hfuel Hproper)
    as [r0 [E0 H0]].
  destruct (calculateChecksums_names sys rootDir ignorePatterns t fuel
              Habs Hm Hfuel Hproper) as [r [E H]].
  rewrite E0 in Hcalc0. injection Hcalc0 as ->.
  destruct (blocked [] [] t) eqn:B0;
    [destruct H0 as [_ H0]; cbn [snd] in H0; congruence |].
  destruct (blocked ignorePatterns [] t) eqn:B;
    [apply blocked_fewer in B; congruence |].
  apply (f_equal fst) in H0. cbn [fst] in H0. subst m0 r.
  eexists. split; [exact E |].
  rewrite !elements_fold_append. cbn [elements app].
  rewrite (listed_filter ignorePatterns t [] Hproper). reflexivity.
Qed.

Lemma pruning_is_filtering_witness :
  exists m,
    calculateChecksums 3 (systemOf "/" "/r" exampleTree) "/r" ["sub"] = Some (m, None)
    /\ elements m
       = [mkFileChecksum "a.txt" (hex.EncodeToString (sha1.Sum (bytes "hello")))].
Proof.
  assert (Hm : mounted (systemOf "/" "/r" exampleTree) "/r" exampleTree)
    by show_mounted.
  assert (Hd : depth exampleTree < 3) by (vm_compute; lia).
  exact (pruning_is_filtering (systemOf "/" "/r" exampleTree) "/r" ["sub"]
           exampleTree 3 _ eq_refl Hm Hd eq_refl eq_refl).
Defined.

(** ** Where the artifact goes *)

Lemma cleanElems_app_names rooted names :
  Forall (fun name => properName name = true) names ->
  forall l stack,
    filepath.cleanElems rooted (l ++ names) stack
    = (filepath.cleanElems rooted l stack ++ names)%list.
Proof.
  induction names as [| name names IH] using rev_ind; intros Hnames l stack.
  - rewrite !app_nil_r. reflexivity.
  - apply Forall_app in Hnames. destruct Hnames as [Hnames Hname].
    inversion Hname as [| ? ? Hproper _]; subst.
    rewrite !app_assoc, (cleanElems_snoc rooted name Hproper), (IH Hnames).
    reflexivity.
Qed.

Lemma cleanElems_skip_empty rooted rest :
  forall l stack,
    filepath.cleanElems rooted (l ++ "" :: rest) stack
    = filepath.cleanElems rooted (l ++ rest) stack.
Proof.
  induction l as [| e l IH]; intros stack; [reflexivity |].
  cbn [app filepath.cleanElems].
  destruct ((e =? "") || (e =? ".")); [apply IH |].
  destruct (e =? ".."); [| apply IH].
  destruct stack as [| top below]; [destruct rooted; apply IH |].
  destruct (top =? ".."); apply IH.
Qed.

(** Joining a path made of names to a rooted path adds the names to its
    elements, whether or not the path joined starts with a separator. *)
Lemma Join_names path base names outputFile :
  filepath.IsAbs path = true ->
  filepath.parts path = (true, base) ->
  names <> [] -> Forall (fun name => properName name = true) names ->
  outputFile = strings.Join names "/"
  \/ outputFile = String "/" (strings.Join names "/") ->
  filepath.Join [path; outputFile] = filepath.unparts (true, (base ++ names)%list).
Proof.
  intros Habs Hparts Hne Hnames Hout.
  destruct (IsAbs_String path Habs) as [rest ->].
  unfold filepath.Join. cbn [String.eqb].
  change (strings.Join [String "/" rest; outputFile] "/")
    with (String "/" rest ++ String filepath.Separator outputFile)%string.
  unfold filepath.Clean. f_equal. unfold filepath.parts in *.
  rewrite append_String, IsAbs_slash. rewrite IsAbs_slash in Hparts.
  apply (f_equal snd) in Hparts. cbn [snd] in Hparts.
  f_equal. rewrite <- append_String, Split_app.
  change filepath.Separator with "/"%char in *.
  assert (Hsplit : strings.Split (strings.Join names "/") "/" = names).
  { rewrite (Split_Join names "/" (proper_no_separator names Hnames)).
    destruct names; [congruence | reflexivity]. }
  destruct Hout as [-> | ->].
  - rewrite Hsplit, (cleanElems_app_names true names Hnames), Hparts. reflexivity.
  - change (String "/" (strings.Join names "/"))
      with ("" ++ String "/" (strings.Join names "/"))%string.
    rewrite Split_app, Hsplit. change (strings.Split "" "/") with [""].
    cbn [app]. rewrite cleanElems_skip_empty.
    rewrite (cleanElems_app_names true names Hnames), Hparts. reflexivity.
Qed.

Lemma main_written fuel sys args out path data :
  main fuel sys args = Some out -> written out = Some (path, data) ->
  exists projectDir checksums,
    filepath.Abs (os.Getwd sys) (flag_String (flag_dir args) ".") = (projectDir, None)
    /\ path
       = filepath.Join [projectDir; flag_String (flag_output args) "checksums.json"]
    /\ data = fst (MarshalIndent checksums).
Proof.
  unfold main.
  destruct (filepath.Abs (os.Getwd sys) (flag_String (flag_dir args) "."))
    as [projectDir [e |]]; [intros [= <-]; discriminate |].
  match goal with
  | |- context [calculateChecksums ?f ?s ?r ?p] =>
      destruct (calculateChecksums f s r p) as [[checksums [e |]] |]
  end; try solve [intros [= <-]; discriminate]; try discriminate.
  unfold saveToFile.
  destruct (MarshalIndent checksums) as [outputData [e |]] eqn:E;
    [intros [= <-]; discriminate |].
  match goal with
  | |- context [os.WriteFile ?s ?n ?d] =>
      destruct (os.WriteFile s n d) as [held [werr |]] eqn:Ew
  end; intros [= <-]; [discriminate |].
  apply WriteFile_ok in Ew. subst held.
  cbn [written fileNamed]. intros [= <- <-]. exists projectDir, checksums.
  rewrite E. repeat split.
Qed.

(** X16: the artifact is written below the project directory.  When
    the project directory is absolute and the [--output] value is made of
    names joined by separators, as the default [checksums.json] is, the
    file written is the project directory followed by those names, also
    when the value starts with a separator: an absolute [--output] does
    not leave the project directory.  Relative to the project directory
    the artifact is at the names joined, the path under which a walk of
    the directory meets it. *)
Theorem artifact_below_project sys args fuel names out path data :
  main fuel sys args = Some out -> written out = Some (path, data) ->
  filepath.IsAbs (fst (filepath.Abs (os.Getwd sys) (flag_String (flag_dir args) ".")))
  = true ->
  names <> [] -> Forall (fun name => properName name = true) names ->
  flag_String (flag_output args) "checksums.json" = strings.Join names "/"
  \/ flag_String (flag_output args) "checksums.json"
     = String "/" (strings.Join names "/") ->
  exists projectDir base,
    filepath.Abs (os.Getwd sys) (flag_String (flag_dir args) ".") = (projectDir, None)
    /\ filepath.parts projectDir = (true, base)
    /\ path = filepath.unparts (true, (base ++ names)%list)
    /\ filepath.Rel projectDir path = (strings.Join names "/", None).
Proof.
  intros Hmain Hwritten Habs Hne Hnames Hout.
  destruct (main_written fuel sys args out path data Hmain Hwritten)
    as (projectDir & checksums & HAbs & -> & _).
  rewrite HAbs in Habs. cbn [fst] in Habs.
  destruct (parts_names projectDir Habs) as (base & Hparts & Hbase).
  exists projectDir, base. split; [exact HAbs |]. split; [exact Hparts |].
  rewrite (Join_names projectDir base names _ Habs Hparts Hne Hnames Hout).
  split; [reflexivity |].
  assert (Hall : Forall (fun name => properName name = true) (base ++ names)%list)
    by (apply Forall_app; split; assumption).
  rewrite (Rel_names projectDir _ base names Hparts (parts_unparts _ Hall)
             Hbase Hnames).
  destruct names; [congruence | reflexivity].
Qed.

Lemma artifact_below_project_witness :
  exists projectDir base,
    filepath.Abs (os.Getwd (systemOf "/" "/r" exampleTree)) "/r" = (projectDir, None)
    /\ filepath.parts projectDir = (true, base)
    /\ "/r/tmp/sums.json" = filepath.unparts (true, (base ++ ["tmp"; "sums.json"])%list)
    /\ filepath.Rel projectDir "/r/tmp/sums.json"
       = (strings.Join ["tmp"; "sums.json"] "/", None).
Proof.
  assert (E : exists data,
             main 3 (systemOf "/" "/r" exampleTree)
                  (mkFlags (Some "/r") (Some "/tmp/sums.json") None)
             = Some (mkOutcome [] (Some ("/r/tmp/sums.json", data)) None))
    by (eexists; vm_compute; reflexivity).
  destruct E as [data E].
  apply (artifact_below_project (systemOf "/" "/r" exampleTree)
           (mkFlags (Some "/r") (Some "/tmp/sums.json") None) 3
           ["tmp"; "sums.json"] _ "/r/tmp/sums.json" data E eq_refl eq_refl).
  - discriminate.
  - repeat constructor.
  - right. reflexivity.
Defined.

(** ** The text of the artifact *)

Lemma validUTF8_app a b :
  validUTF8 a = true -> validUTF8 (a ++ b) = validUTF8 b.
Proof.
  remember (String.length a) as n eqn:Hn.
  assert (Hle : String.length a <= n) by lia. clear Hn.
  revert a Hle. induction n as [| n IH]; intros [| b0 rest] Hle;
    try (intros _; apply (f_equal validUTF8); apply append_empty);
    cbn [String.length] in Hle; [lia |].
  cbn [validUTF8]. destruct (json.code b0 <? 128)%N eqn:Hb.
  - intros H. rewrite append_String. cbn [validUTF8]. rewrite Hb.
    apply IH; [lia | exact H].
  - destruct (json.runeSize b0 rest) as [| [| [| [| [| k]]]]] eqn:Hsize;
      try discriminate.
    + destruct rest as [| c1 rest1]; [discriminate |].
      cbn [String.length] in Hle. intros H.
      rewrite (append_String b0), (append_String c1). cbn [validUTF8].
      rewrite Hb, (runeSize_2 _ _ _ _ Hsize). apply IH; [lia | exact H].
    + destruct rest as [| c1 [| c2 rest2]]; try discriminate.
      cbn [String.length] in Hle. intros H.
      rewrite (append_String b0), (append_String c1), (append_String c2).
      cbn [validUTF8].
      rewrite Hb, (runeSize_3 _ _ _ _ _ Hsize). apply IH; [lia | exact H].
    + destruct rest as [| c1 [| c2 [| c3 rest3]]]; try discriminate.
      cbn [String.length] in Hle. intros H.
      rewrite (append_String b0), (append_String c1), (append_String c2),
        (append_String c3).
      cbn [validUTF8].
      rewrite Hb, (runeSize_4 _ _ _ _ _ _ Hsize). apply IH; [lia | exact H].
Qed.

Lemma validUTF8_append a b :
  validUTF8 a = true -> validUTF8 b = true -> validUTF8 (a ++ b) = true.
Proof. intros Ha Hb. rewrite (validUTF8_app a b Ha). exact Hb. Qed.

Lemma validUTF8_concat sep l :
  validUTF8 sep = true ->
  Forall (fun s => validUTF8 s = true) l ->
  validUTF8 (String.concat sep l) = true.
Proof.
  intros Hsep. induction 1 as [| x l Hx Hl IH]; [reflexivity |].
  destruct l as [| y l']; [exact Hx |].
  change (String.concat sep (x :: y :: l'))
    with (x ++ sep ++ String.concat sep (y :: l'))%string.
  repeat apply validUTF8_append; assumption.
Qed.

Lemma newline_valid depth : validUTF8 (json.newline depth) = true.
Proof.
  unfold json.newline. cbn [validUTF8].
  change (json.code "010" <? 128)%N with true. cbv iota.
  apply validUTF8_concat; [reflexivity |].
  apply Forall_forall. intros x Hx. apply repeat_spec in Hx. subst x. reflexivity.
Qed.

Lemma escapeByte_valid b :
  (json.code b <? 128)%N = true -> validUTF8 (json.escapeByte b) = true.
Proof.
  destruct b as [[] [] [] [] [] [] [] []]; vm_compute; intros H;
    first [reflexivity | discriminate H].
Qed.

(** What is written between the quotes is well-formed, whatever the
    string holds. *)
Lemma appendBody_valid s : validUTF8 (json.appendBody s) = true.
Proof.
  remember (String.length s) as n eqn:Hn.
  assert (Hle : String.length s <= n) by lia. clear Hn.
  revert s Hle. induction n as [| n IH]; intros [| b rest] Hle;
    try reflexivity; cbn [String.length] in Hle; [lia |].
  assert (Hrest : validUTF8 (json.escapedReplacement ++ json.appendBody rest) = true)
    by (apply validUTF8_append; [reflexivity | apply IH; lia]).
  cbn [json.appendBody]. destruct (json.code b <? 128)%N eqn:Hb.
  - apply validUTF8_append; [apply escapeByte_valid; exact Hb | apply IH; lia].
  - destruct (json.runeSize b rest) as [| [| [| [| [| k]]]]] eqn:Hsize;
      try exact Hrest;
      destruct rest as [| c1 [| c2 [| c3 r3]]]; try exact Hrest;
      cbn [String.length] in Hle.
    + cbn [validUTF8]. rewrite Hb, (runeSize_2 _ _ _ _ Hsize).
      apply IH. cbn [String.length]. lia.
    + cbn [validUTF8]. rewrite Hb, (runeSize_2 _ _ _ _ Hsize).
      apply IH. cbn [String.length]. lia.
    + cbn [validUTF8]. rewrite Hb, (runeSize_2 _ _ _ _ Hsize).
      apply IH. cbn [String.length]. lia.
    + match goal with
      | |- context [if ?c then _ else _] => destruct c eqn:Hline
      end.
      * apply validUTF8_append; [reflexivity |].
        apply andb_true_iff in Hline. destruct Hline as [_ Hline].
        apply orb_true_iff in Hline.
        destruct Hline as [Hline | Hline]; apply N.eqb_eq in Hline;
          rewrite Hline; cbn [validUTF8];
          match goal with
          | |- context [(json.code ?h <? 128)%N] =>
              change (json.code h <? 128)%N with true
          end; cbv iota; apply IH; cbn [String.length]; lia.
      * cbn [validUTF8]. rewrite Hb, (runeSize_3 _ _ _ _ _ Hsize).
        apply IH. cbn [String.length]. lia.
    + match goal with
      | |- context [if ?c then _ else _] => destruct c eqn:Hline
      end.
      * apply validUTF8_append; [reflexivity |].
        apply andb_true_iff in Hline. destruct Hline as [_ Hline].
        apply orb_true_iff in Hline.
        destruct Hline as [Hline | Hline]; apply N.eqb_eq in Hline;
          rewrite Hline; cbn [validUTF8];
          match goal with
          | |- context [(json.code ?h <? 128)%N] =>
              change (json.code h <? 128)%N with true
          end; cbv iota; apply IH; cbn [String.length]; lia.
      * cbn [validUTF8]. rewrite Hb, (runeSize_3 _ _ _ _ _ Hsize).
        apply IH. cbn [String.length]. lia.
    + cbn [validUTF8]. rewrite Hb, (runeSize_4 _ _ _ _ _ _ Hsize).
      apply IH. lia.
Qed.

Lemma appendString_valid s : validUTF8 (json.appendString s) = true.
Proof.
  unfold json.appendString.
  change (String json.dquote (json.appendBody s ++ String json.dquote ""))
    with (String json.dquote "" ++ (json.appendBody s ++ String json.dquote ""))%string.
  repeat apply validUTF8_append; try reflexivity. apply appendBody_valid.
Qed.

(** The text of a document is well-formed UTF-8. *)
Lemma encode_valid v : forall depth, validUTF8 (json.encode depth v) = true.
Proof.
  induction v as [| s | elems IH | members IH] using Value_ind'; intros depth.
  - reflexivity.
  - apply appendString_valid.
  - destruct elems as [| e es]; [reflexivity |].
    remember (e :: es) as l eqn:El.
    change (json.encode depth (json.Array l))
      with (match l with
            | [] => "[]"
            | _ =>
                ("[" ++ json.newline (S depth)
                   ++ String.concat ("," ++ json.newline (S depth))
                        (map (json.encode (S depth)) l)
                   ++ json.newline depth ++ "]")%string
            end).
    rewrite El at 1.
    repeat apply validUTF8_append; try reflexivity; try apply newline_valid.
    apply validUTF8_concat;
      [apply validUTF8_append; [reflexivity | apply newline_valid] |].
    apply Forall_map. eapply Forall_impl; [| exact IH]. intros v Hv. apply Hv.
  - destruct members as [| m ms]; [reflexivity |].
    remember (m :: ms) as l eqn:El.
    change (json.encode depth (json.Object l))
      with (match l with
            | [] => "{}"
            | _ =>
                ("{" ++ json.newline (S depth)
                   ++ String.concat ("," ++ json.newline (S depth))
                        (map (fun m => json.appendString (fst m) ++ ": "
                                         ++ json.encode (S depth) (snd m)) l)
                   ++ json.newline depth ++ "}")%string
            end).
    rewrite El at 1.
    repeat apply validUTF8_append; try reflexivity; try apply newline_valid.
    apply validUTF8_concat;
      [apply validUTF8_append; [reflexivity | apply newline_valid] |].
    apply Forall_map. eapply Forall_impl; [| exact IH]. intros v Hv. cbn beta.
    apply validUTF8_append; [apply appendString_valid |].
    apply validUTF8_append; [reflexivity | apply Hv].
Qed.

(** X17: whatever [main] writes is the text of a manifest (the file of
    a write that succeeds; what a write that failed has left is the
    [leftover]); the text is well-formed UTF-8, also when names of the
    tree are not, and it parses as the document of that manifest with
    the ill-formed bytes of its strings replaced. *)
Theorem artifact_well_formed fuel sys args out path data :
  main fuel sys args = Some out -> written out = Some (path, data) ->
  validUTF8 data = true
  /\ exists checksums,
       data = fst (MarshalIndent checksums)
       /\ json.decode data = Some (coerceValue (checksums_json checksums))
       /\ Unmarshal data = Some (readBackAny checksums).
Proof.
  intros Hmain Hwritten.
  destruct (main_written fuel sys args out path data Hmain Hwritten)
    as (projectDir & checksums & _ & _ & ->).
  split; [apply encode_valid |]. exists checksums.
  split; [reflexivity |]. split; [apply decode_encode | apply Unmarshal_MarshalIndent].
Qed.

Lemma artifact_well_formed_witness :
  exists data,
    main 3 (systemOf "/" "/r" exampleTree) (mkFlags (Some "/r") None None)
    = Some (mkOutcome [] (Some ("/r/checksums.json", data)) None)
    /\ validUTF8 data = true
    /\ exists checksums,
         data = fst (MarshalIndent checksums)
         /\ json.decode data = Some (coerceValue (checksums_json checksums))
         /\ Unmarshal data = Some (readBackAny checksums).
Proof.
  assert (E : exists data,
             main 3 (systemOf "/" "/r" exampleTree) (mkFlags (Some "/r") None None)
             = Some (mkOutcome [] (Some ("/r/checksums.json", data)) None))
    by (eexists; vm_compute; reflexivity).
  destruct E as [data E]. exists data. split; [exact E |].
  exact (artifact_well_formed 3 (systemOf "/" "/r" exampleTree)
           (mkFlags (Some "/r") None None) _ "/r/checksums.json" data E eq_refl).
Defined.

(** ** What the manifest holds *)

Section Membership.

Variable ignorePatterns : list string.

Lemma listed_Dir_in entries rerr names name sub x :
  ignoredName ignorePatterns names = false ->
  In (name, sub) entries ->
  In x (listed ignorePatterns (names ++ [name]) sub) ->
  In x (listed ignorePatterns names (Dir entries rerr)).
Proof.
  intros Hign Hin Hx. cbn [listed]. rewrite Hign.
  induction entries as [| e l IH]; [destruct Hin |].
  apply in_or_app. destruct Hin as [-> | Hin].
  - left. exact Hx.
  - right. apply IH. exact Hin.
Qed.

Lemma listed_Dir_inv entries rerr names x :
  In x (listed ignorePatterns names (Dir entries rerr)) ->
  exists name sub,
    In (name, sub) entries /\ In x (listed ignorePatterns (names ++ [name]) sub).
Proof.
  cbn [listed]. destruct (ignoredName ignorePatterns names); [intros [] |].
  induction entries as [| e l IH]; [intros [] |].
  intros Hin. apply in_app_or in Hin. destruct Hin as [Hin | Hin].
  - exists (fst e), (snd e). split; [left; destruct e; reflexivity | exact Hin].
  - destruct (IH Hin) as (name & sub & Hl & Hx).
    exists name, sub. split; [right; exact Hl | exact Hx].
Qed.

End Membership.

Lemma fileAt_listed n names data :
  fileAt n names data ->
  forall above,
    In (mkFileChecksum (relOf (above ++ names)) (hex.EncodeToString (sha1.Sum data)))
       (listed [] above n).
Proof.
  induction 1 as [data | entries rerr name sub names data Hin _ IH]; intros above.
  - rewrite app_nil_r. left. reflexivity.
  - apply (listed_Dir_in [] entries rerr above name sub); [reflexivity | exact Hin |].
    specialize (IH (above ++ [name])%list).
    rewrite <- app_assoc in IH. exact IH.
Qed.

Lemma listed_fileAt n :
  forall above c,
    In c (listed [] above n) ->
    exists names data,
      fileAt n names data
      /\ c = mkFileChecksum (relOf (above ++ names))
                            (hex.EncodeToString (sha1.Sum data)).
Proof.
  induction n as [content | entries rerr IH] using node_ind'; intros above c Hc.
  - cbn [listed] in Hc. change (ignoredName [] above) with false in Hc.
    destruct content as [data | e]; [| destruct Hc].
    destruct Hc as [<- | []]. exists [], data.
    split; [constructor | rewrite app_nil_r; reflexivity].
  - apply listed_Dir_inv in Hc. destruct Hc as (name & sub & Hin & Hc).
    rewrite Forall_forall in IH.
    destruct (IH (name, sub) Hin (above ++ [name])%list c Hc)
      as (names & data & Hat & ->).
    exists (name :: names), data. split; [econstructor; eassumption |].
    rewrite <- app_assoc. reflexivity.
Qed.

(** X18: what the manifest of a successful run holds.  Under an
    absolute root and with names as directories hold them, an entry is
    in the manifest exactly when it is the entry of a file of the tree,
    with the names that lead to the file joined by [/] for its path and
    the digest of the content for its checksum, such that no pattern is
    a prefix of [.] and none is a prefix of the path. *)
Theorem manifest_membership sys rootDir ignorePatterns t fuel m :
  filepath.IsAbs rootDir = true ->
  mounted sys rootDir t -> depth t < fuel -> properTree t = true ->
  calculateChecksums fuel sys rootDir ignorePatterns = Some (m, None) ->
  forall c,
    In c (elements m)
    <-> exists names data,
          fileAt t names data
          /\ existsb (fun pattern => String.prefix pattern ".") ignorePatterns = false
          /\ existsb (fun pattern => String.prefix pattern (relOf names)) ignorePatterns
             = false
          /\ c = mkFileChecksum (relOf names) (hex.EncodeToString (sha1.Sum data)).
Proof.
  intros Habs Hm Hfuel Hproper Hcalc c.
  destruct (calculateChecksums_names sys rootDir ignorePatterns t fuel
              Habs Hm Hfuel Hproper) as [r [E H]].
  rewrite E in Hcalc. injection Hcalc as ->.
  destruct (blocked ignorePatterns [] t);
    [destruct H as [_ H]; cbn [snd] in H; congruence |].
  apply (f_equal fst) in H. cbn [fst] in H. subst m.
  rewrite elements_fold_append. cbn [elements app].
  rewrite (listed_filter ignorePatterns t [] Hproper).
  change (ignoredName ignorePatterns [])
    with (existsb (fun pattern => String.prefix pattern ".") ignorePatterns).
  destruct (existsb (fun pattern => String.prefix pattern ".") ignorePatterns).
  - split; [intros [] | intros (names & data & _ & Hroot & _); discriminate].
  - rewrite filter_In. split.
    + intros [Hin Hkept]. apply listed_fileAt in Hin.
      destruct Hin as (names & data & Hat & ->). cbn [app] in *.
      exists names, data. split; [exact Hat |]. split; [reflexivity |].
      split; [| reflexivity].
      unfold kept in Hkept. cbn [Path] in Hkept.
      apply negb_true_iff in Hkept. exact Hkept.
    + intros (names & data & Hat & _ & Hpath & ->). split.
      * exact (fileAt_listed t names data Hat []).
      * unfold kept. cbn [Path]. apply negb_true_iff. exact Hpath.
Qed.

Lemma manifest_membership_witness :
  In (mkFileChecksum "sub/b.txt" (hex.EncodeToString (sha1.Sum (bytes "world"))))
     [mkFileChecksum "a.txt" (hex.EncodeToString (sha1.Sum (bytes "hello")))]
  <-> exists names data,
        fileAt exampleTree names data
        /\ existsb (fun pattern => String.prefix pattern ".") ["sub"] = false
        /\ existsb (fun pattern => String.prefix pattern (relOf names)) ["sub"]
           = false
        /\ mkFileChecksum "sub/b.txt" (hex.EncodeToString (sha1.Sum (bytes "world")))
           = mkFileChecksum (relOf names) (hex.EncodeToString (sha1.Sum data)).
Proof.
  assert (Hm : mounted (systemOf "/" "/r" exampleTree) "/r" exampleTree)
    by show_mounted.
  assert (Hd : depth exampleTree < 3) by (vm_compute; lia).
  exact (manifest_membership (systemOf "/" "/r" exampleTree) "/r" ["sub"]
           exampleTree 3 _ eq_refl Hm Hd eq_refl eq_refl
           (mkFileChecksum "sub/b.txt"
              (hex.EncodeToString (sha1.Sum (bytes "world"))))).
Defined.
